(** * Block events and drag-n-drop of the editor: a shallow embedding

    The two modules under verification are [BlockEvents] (keyboard and drag
    handlers bound on every block) and [DragNDrop] (drop / drag-start
    handlers bound on the editor holder).  Both are thin controllers: they
    read the caret, the selection and the block list, and call into
    collaborators (BlockManager, Caret, Toolbar, BlockSelection, Paste ...).

    The handlers are embedded as programs of a state-and-exception monad
    over a [World] that holds the state of every collaborator.  A JavaScript
    property read on [undefined] is the exception [TypeError].  Every call a
    handler makes across the module boundary is also appended to the
    [trace] of the world, so that statements can speak about which calls
    were issued and in which order. *)

From Stdlib Require Import ZArith List String Bool Lia Arith.
Import ListNotations.
Local Open Scope string_scope.
Local Open Scope list_scope.

(** ** Data model *)

Definition BlockId := nat.

(** A DOM node as the handlers see it: the only thing they ever ask of an
    event target is which block's holder contains it. *)
Inductive Node : Type :=
| ChildOf (owner : BlockId)
| Detached.

Record Tool : Type := mkTool {
  toolName : string;
  isLineBreaksEnabled : bool
}.

(** A block.  [inputs] are the texts of its editable regions, first to
    last; [currentInput] is the index of the focused one, if any. *)
Record Block : Type := mkBlock {
  bid : BlockId;
  tool : Tool;
  inputs : list string;
  currentInput : option nat;
  hasMedia : bool;
  dropTarget : bool;
  selected : bool
}.

Inductive Position : Type := START | END | DEFAULT.

Definition DataTransfer := string.

Record KeyboardEvent : Type := mkKey {
  keyCode : Z;
  key : string;
  code : string;
  shiftKey : bool;
  ctrlKey : bool;
  metaKey : bool;
  altKey : bool
}.

Record DragEvent : Type := mkDrag {
  target : Node;
  dataTransfer : DataTransfer
}.

(** Calls that cross the boundary of the two modules, as logged in the
    trace. *)
Inductive Call : Type :=
| Event_preventDefault
| Toolbar_close
| Toolbar_moveAndOpen (b : option BlockId)
| Toolbox_open
| BlockSettings_open
| InlineToolbar_close
| UI_closeAllToolbars
| BlockSelection_clearSelection
| CrossBlockSelection_toggleBlockSelectedState (forward : bool)
| Caret_setToBlock (b : BlockId) (p : Position)
| Caret_navigateNext (force : bool)
| Caret_navigatePrevious (force : bool)
| Caret_insertContentAtCaretPosition (s : string)
| caret_focus (b : BlockId) (input : nat) (atStart : bool)
| BlockManager_insertDefaultBlockAtIndex (index : Z) (needToFocus : bool)
| BlockManager_removeBlock (b : BlockId)
| BlockManager_split
| BlockManager_mergeBlocks (targetBlock blockToMerge : BlockId)
| BlockManager_setCurrentBlockByChildNode (n : Node)
| delay_updateCurrentInput
| document_execCommand_delete
| Paste_processDataTransfer (d : DataTransfer) (isInternalDrop : bool)
| UI_checkEmptiness
| BlockSelection_copySelectedBlocks
| BlockManager_removeSelectedBlocks.

(** The state of the collaborators. *)
Record World : Type := mkWorld {
  blocks : list Block;
  currentBlockIndex : Z;                 (* -1 when no block is current *)
  nextId : BlockId;                      (* supply of fresh block ids *)
  caret : option (BlockId * nat * nat);  (* block, input, offset *)
  isCollapsed : bool;                    (* SelectionUtils.isCollapsed *)
  isAtEditor : bool;                     (* SelectionUtils.isAtEditor *)
  toolbarOpened : bool;
  toolboxOpened : bool;
  blockSettingsOpened : bool;
  inlineToolbarOpened : bool;
  someFlipperButtonFocused : bool;
  trace : list Call
}.

(** Constants and tables of the utilities the handlers import (Flipper,
    utils, the module's own configuration); they are not among the
    sources and are parameters of the handlers. *)
Record Env : Type := mkEnv {
  usedKeys : list Z;                     (* Flipper.usedKeys *)
  isPrintableKey : Z -> bool;            (* _.isPrintableKey *)
  isRtl : bool;
  isIosDevice : bool;
  defaultTool : Tool;
  compatible : string -> string -> bool  (* content-type compatibility *)
}.

(** The key code table of utils, with the codes the DOM assigns. *)
Module keyCodes.
Definition BACKSPACE : Z := 8.
Definition TAB : Z := 9.
Definition ENTER : Z := 13.
Definition LEFT : Z := 37.
Definition UP : Z := 38.
Definition RIGHT : Z := 39.
Definition DOWN : Z := 40.
Definition DELETE : Z := 46.
End keyCodes.

(** ** Field updates *)

Definition set_blocks (f : list Block -> list Block) (w : World) : World :=
  mkWorld (f (blocks w)) (currentBlockIndex w) (nextId w) (caret w)
    (isCollapsed w) (isAtEditor w) (toolbarOpened w) (toolboxOpened w)
    (blockSettingsOpened w) (inlineToolbarOpened w)
    (someFlipperButtonFocused w) (trace w).

Definition set_currentBlockIndex (i : Z) (w : World) : World :=
  mkWorld (blocks w) i (nextId w) (caret w)
    (isCollapsed w) (isAtEditor w) (toolbarOpened w) (toolboxOpened w)
    (blockSettingsOpened w) (inlineToolbarOpened w)
    (someFlipperButtonFocused w) (trace w).

Definition set_nextId (n : BlockId) (w : World) : World :=
  mkWorld (blocks w) (currentBlockIndex w) n (caret w)
    (isCollapsed w) (isAtEditor w) (toolbarOpened w) (toolboxOpened w)
    (blockSettingsOpened w) (inlineToolbarOpened w)
    (someFlipperButtonFocused w) (trace w).

Definition set_caret (c : option (BlockId * nat * nat)) (w : World) : World :=
  mkWorld (blocks w) (currentBlockIndex w) (nextId w) c
    (isCollapsed w) (isAtEditor w) (toolbarOpened w) (toolboxOpened w)
    (blockSettingsOpened w) (inlineToolbarOpened w)
    (someFlipperButtonFocused w) (trace w).

Definition set_toolbarOpened (v : bool) (w : World) : World :=
  mkWorld (blocks w) (currentBlockIndex w) (nextId w) (caret w)
    (isCollapsed w) (isAtEditor w) v (toolboxOpened w)
    (blockSettingsOpened w) (inlineToolbarOpened w)
    (someFlipperButtonFocused w) (trace w).

Definition set_toolboxOpened (v : bool) (w : World) : World :=
  mkWorld (blocks w) (currentBlockIndex w) (nextId w) (caret w)
    (isCollapsed w) (isAtEditor w) (toolbarOpened w) v
    (blockSettingsOpened w) (inlineToolbarOpened w)
    (someFlipperButtonFocused w) (trace w).

Definition set_blockSettingsOpened (v : bool) (w : World) : World :=
  mkWorld (blocks w) (currentBlockIndex w) (nextId w) (caret w)
    (isCollapsed w) (isAtEditor w) (toolbarOpened w) (toolboxOpened w)
    v (inlineToolbarOpened w)
    (someFlipperButtonFocused w) (trace w).

Definition set_inlineToolbarOpened (v : bool) (w : World) : World :=
  mkWorld (blocks w) (currentBlockIndex w) (nextId w) (caret w)
    (isCollapsed w) (isAtEditor w) (toolbarOpened w) (toolboxOpened w)
    (blockSettingsOpened w) v
    (someFlipperButtonFocused w) (trace w).

Definition log (c : Call) (w : World) : World :=
  mkWorld (blocks w) (currentBlockIndex w) (nextId w) (caret w)
    (isCollapsed w) (isAtEditor w) (toolbarOpened w) (toolboxOpened w)
    (blockSettingsOpened w) (inlineToolbarOpened w)
    (someFlipperButtonFocused w) (trace w ++ [c]).

(** ** The monad of handlers *)

Inductive Completion (A : Type) : Type :=
| Normal (a : A)
| TypeError.

Arguments Normal {A} a.
Arguments TypeError {A}.

Definition M (S A : Type) : Type := S -> Completion A * S.

Definition ret {S A} (a : A) : M S A := fun s => (Normal a, s).

Definition bind {S A B} (m : M S A) (k : A -> M S B) : M S B :=
  fun s =>
    match m s with
    | (Normal a, s') => k a s'
    | (TypeError, s') => (TypeError, s')
    end.

Definition throw {S A} : M S A := fun s => (TypeError, s).

Definition gets {S A} (f : S -> A) : M S A := fun s => (Normal (f s), s).

Definition modify {S} (f : S -> S) : M S unit := fun s => (Normal tt, f s).

(** Reading a property of a value that may be [undefined] or [null]. *)
Definition deref {S A} (o : option A) : M S A :=
  match o with
  | Some a => ret a
  | None => throw
  end.

Declare Scope js_scope.
Delimit Scope js_scope with js.
Notation "x <- m ;; k" := (bind m (fun x => k))
  (at level 61, m at next level, right associativity) : js_scope.
Notation "m ;; k" := (bind m (fun _ => k))
  (at level 61, right associativity) : js_scope.
Local Open Scope js_scope.

Definition call (c : Call) : M World unit := modify (log c).

(** ** Block
    Modelled from the spec: the class Block is not among the sources.  The
    emptiness predicate ranges over the inputs, the first and last input
    are the ends of the input list. *)

Definition firstInput (b : Block) : option nat :=
  match inputs b with
  | [] => None
  | _ :: _ => Some 0
  end.

Definition lastInput (b : Block) : option nat :=
  match inputs b with
  | [] => None
  | _ :: r => Some (List.length r)
  end.

Definition isEmpty (b : Block) : bool :=
  forallb (fun s => String.eqb s "") (inputs b).

Definition content (b : Block) : string := String.concat "" (inputs b).

Definition inputText (b : Block) (i : nat) : string := nth i (inputs b) "".

Definition holder (b : Block) : Node := ChildOf (bid b).

Definition set_inputs (l : list string) (b : Block) : Block :=
  mkBlock (bid b) (tool b) l (currentInput b) (hasMedia b) (dropTarget b)
    (selected b).

Definition set_currentInput (i : option nat) (b : Block) : Block :=
  mkBlock (bid b) (tool b) (inputs b) i (hasMedia b) (dropTarget b)
    (selected b).

Definition set_dropTarget (v : bool) (b : Block) : Block :=
  mkBlock (bid b) (tool b) (inputs b) (currentInput b) (hasMedia b) v
    (selected b).

Definition set_selected (v : bool) (b : Block) : Block :=
  mkBlock (bid b) (tool b) (inputs b) (currentInput b) (hasMedia b)
    (dropTarget b) v.

Fixpoint setNth {A} (n : nat) (x : A) (l : list A) : list A :=
  match l, n with
  | [], _ => []
  | _ :: r, O => x :: r
  | y :: r, S m => y :: setNth m x r
  end.

(** ** Caret / selection probe
    Modelled from the spec: utils/caret and SelectionUtils are not among the
    sources.  The probes are pure reads of the text cursor; an absent input
    or an absent caret answers false. *)
Module caretUtils.

Definition isCaretAtStartOfInput (w : World) (b : Block) (input : option nat)
  : bool :=
  match input, caret w with
  | Some i, Some (cb, ci, co) =>
      Nat.eqb cb (bid b) && Nat.eqb ci i && Nat.eqb co 0
  | _, _ => false
  end.

Definition isCaretAtEndOfInput (w : World) (b : Block) (input : option nat)
  : bool :=
  match input, caret w with
  | Some i, Some (cb, ci, co) =>
      Nat.eqb cb (bid b) && Nat.eqb ci i
      && Nat.eqb co (String.length (inputText b i))
  | _, _ => false
  end.

End caretUtils.

(** ** Block Sequence Store
    Modelled from the spec: the BlockManager module is not among the sources.
    Blocks are held by reference in the program; here a reference is the
    block's id, and every operation looks the block up in the store. *)
Module BlockManager.

Definition nthZ {A} (l : list A) (i : Z) : option A :=
  if (i <? 0)%Z then None else nth_error l (Z.to_nat i).

Definition currentBlock (w : World) : option Block :=
  nthZ (blocks w) (currentBlockIndex w).

Definition previousBlock (w : World) : option Block :=
  nthZ (blocks w) (currentBlockIndex w - 1).

Definition nextBlock (w : World) : option Block :=
  nthZ (blocks w) (currentBlockIndex w + 1).

Definition lastBlock (w : World) : option Block :=
  nthZ (blocks w) (Z.of_nat (List.length (blocks w)) - 1).

Fixpoint indexOf (b : BlockId) (bs : list Block) : option nat :=
  match bs with
  | [] => None
  | x :: r => if Nat.eqb (bid x) b then Some 0%nat
              else option_map S (indexOf b r)
  end.

Definition indexZ (b : BlockId) (bs : list Block) : Z :=
  match indexOf b bs with
  | Some n => Z.of_nat n
  | None => -1
  end.

Definition findBlock (b : BlockId) (bs : list Block) : option Block :=
  find (fun x => Nat.eqb (bid x) b) bs.

Definition updateBlock (b : BlockId) (f : Block -> Block) (bs : list Block)
  : list Block :=
  map (fun x => if Nat.eqb (bid x) b then f x else x) bs.

Definition insertAt (n : nat) (b : Block) (bs : list Block) : list Block :=
  firstn n bs ++ b :: skipn n bs.

Definition removeAt (n : nat) (bs : list Block) : list Block :=
  firstn n bs ++ skipn (S n) bs.

Definition composeBlock (i : BlockId) (t : Tool) (text : string) : Block :=
  mkBlock i t [text] (Some 0%nat) false false false.

Definition getBlockByChildNode (w : World) (n : Node) : option Block :=
  match n with
  | ChildOf o => findBlock o (blocks w)
  | Detached => None
  end.

Definition setCurrentBlockByChildNode (n : Node) : M World (option Block) :=
  call (BlockManager_setCurrentBlockByChildNode n) ;;
  b <- gets (fun w => getBlockByChildNode w n) ;;
  match b with
  | Some blk =>
      modify (fun w =>
                set_currentBlockIndex (indexZ (bid blk) (blocks w)) w) ;;
      ret (Some blk)
  | None => ret None
  end.

(** A new empty block of tool [t] at [index]; the block that was current
    stays current unless the new one is asked to take the focus. *)
Definition insert_w (t : Tool) (text : string) (index : Z)
           (needToFocus : bool) (w : World) : World :=
  let nb := composeBlock (nextId w) t text in
  let cur := currentBlockIndex w in
  let cur' := if needToFocus then index
              else if (index <=? cur)%Z then (cur + 1)%Z else cur in
  set_nextId (S (nextId w))
    (set_currentBlockIndex cur'
       (set_blocks (insertAt (Z.to_nat index) nb) w)).

(** Removal of the block at position [n]; the current index moves to a
    defined neighbour, and an emptied sequence receives a default block. *)
Definition removeAt_w (t : Tool) (n : nat) (w : World) : World :=
  let bs' := removeAt n (blocks w) in
  let cur := currentBlockIndex w in
  let cur' := if (Z.of_nat n <=? cur)%Z then (cur - 1)%Z else cur in
  match bs' with
  | [] =>
      set_nextId (S (nextId w))
        (set_currentBlockIndex 0
           (set_blocks (fun _ => [composeBlock (nextId w) t ""]) w))
  | _ :: _ =>
      set_currentBlockIndex (if Nat.eqb n 0 then 0%Z else cur')
        (set_blocks (fun _ => bs') w)
  end.

Definition removeBlock_w (t : Tool) (b : BlockId) (w : World) : World :=
  match indexOf b (blocks w) with
  | Some n => removeAt_w t n w
  | None => w
  end.

(** The text of [source] is appended to the last input of [target]. *)
Definition mergeWith (source : Block) (target : Block) : Block :=
  match lastInput target with
  | Some li =>
      set_inputs
        (setNth li (String.append (inputText target li) (content source))
           (inputs target))
        target
  | None => target
  end.

Definition mergeBlocks_w (t : Tool) (targetBlock blockToMerge : BlockId)
           (w : World) : World :=
  match findBlock targetBlock (blocks w),
        findBlock blockToMerge (blocks w) with
  | Some tb, Some sb =>
      match lastInput tb with
      | None => w
      | Some _ =>
          let w1 := set_blocks (updateBlock targetBlock (mergeWith sb)) w in
          let w2 := removeBlock_w t blockToMerge w1 in
          set_currentBlockIndex (indexZ targetBlock (blocks w2)) w2
      end
  | _, _ => w
  end.

(** The text after the caret of the focused input of the current block
    moves to a new block of the same type, placed right after. *)
Definition split_w (dflt : Tool) (w : World) : World :=
  match currentBlock w with
  | None => insert_w dflt "" (currentBlockIndex w + 1) false w
  | Some cb =>
      match caret w with
      | Some (b, i, o) =>
          if Nat.eqb b (bid cb) then
            let s := inputText cb i in
            let hd := substring 0 o s in
            let tl := substring o (String.length s - o) s in
            insert_w (tool cb) tl (currentBlockIndex w + 1) false
              (set_blocks
                 (updateBlock (bid cb)
                    (fun x => set_inputs (setNth i hd (inputs x)) x)) w)
          else insert_w (tool cb) "" (currentBlockIndex w + 1) false w
      | None => insert_w (tool cb) "" (currentBlockIndex w + 1) false w
      end
  end.

(** Position of the first selected block. *)
Fixpoint firstSelectedIndex (bs : list Block) : option nat :=
  match bs with
  | [] => None
  | b :: r => if selected b then Some 0%nat
              else option_map S (firstSelectedIndex r)
  end.

(** Every selected block leaves the sequence in one step; the answer is
    the position at which a replacement is to be inserted, that of the
    first block removed. *)
Definition removeSelectedBlocks : M World (option nat) :=
  call BlockManager_removeSelectedBlocks ;;
  i <- gets (fun w => firstSelectedIndex (blocks w)) ;;
  modify (set_blocks (filter (fun b => negb (selected b)))) ;;
  ret i.

Section WithEnv.
Variable env : Env.

Definition insertDefaultBlockAtIndex (index : Z) (needToFocus : bool)
  : M World Block :=
  call (BlockManager_insertDefaultBlockAtIndex index needToFocus) ;;
  i <- gets nextId ;;
  modify (insert_w (defaultTool env) "" index needToFocus) ;;
  ret (composeBlock i (defaultTool env) "").

Definition removeBlock (b : Block) : M World unit :=
  call (BlockManager_removeBlock (bid b)) ;;
  modify (removeBlock_w (defaultTool env) (bid b)).

(** The promise is taken as settled by the time the handler's
    continuation runs: handlers are run to completion one at a time. *)
Definition mergeBlocks (targetBlock blockToMerge : Block) : M World unit :=
  call (BlockManager_mergeBlocks (bid targetBlock) (bid blockToMerge)) ;;
  modify (mergeBlocks_w (defaultTool env) (bid targetBlock)
            (bid blockToMerge)).

Definition split : M World Block :=
  call BlockManager_split ;;
  i <- gets nextId ;;
  modify (split_w (defaultTool env)) ;;
  b <- gets (fun w => findBlock i (blocks w)) ;;
  deref b.
End WithEnv.

End BlockManager.

(** ** Caret positioning service
    Modelled from the spec: the Caret module and the focus helper of the
    caret package are not among the sources. *)
Module Caret.
Import BlockManager.

Definition blockPosition (b : Block) (p : Position)
  : option (BlockId * nat * nat) :=
  match p with
  | START => option_map (fun i => (bid b, i, 0%nat)) (firstInput b)
  | END =>
      option_map (fun i => (bid b, i, String.length (inputText b i)))
        (lastInput b)
  | DEFAULT => option_map (fun i => (bid b, i, 0%nat)) (currentInput b)
  end.

Definition inputOf (c : option (BlockId * nat * nat)) : option nat :=
  option_map (fun x => snd (fst x)) c.

(** The block becomes current, the caret goes to the asked end of it. *)
Definition setToBlock_w (b : BlockId) (p : Position) (w : World) : World :=
  match findBlock b (blocks w) with
  | None => w
  | Some blk =>
      let c := blockPosition blk p in
      set_caret c
        (set_currentBlockIndex (indexZ b (blocks w))
           (set_blocks (updateBlock b (set_currentInput (inputOf c))) w))
  end.

Definition setToBlock (b : Block) (p : Position) : M World unit :=
  call (Caret_setToBlock (bid b) p) ;;
  modify (setToBlock_w (bid b) p).

Definition setToInput_w (b : Block) (i : nat) (atEnd : bool) (w : World)
  : World :=
  set_caret
    (Some (bid b, i, if atEnd then String.length (inputText b i) else 0%nat))
    (set_blocks (updateBlock (bid b) (set_currentInput (Some i))) w).

(** [focus(input, atStart)] of the caret package. *)
Definition focus (b : Block) (i : nat) (atStart : bool) : M World unit :=
  call (caret_focus (bid b) i atStart) ;;
  modify (fun w =>
            match findBlock (bid b) (blocks w) with
            | Some blk =>
                set_caret
                  (Some (bid b, i,
                         if atStart then 0%nat
                         else String.length (inputText blk i))) w
            | None => w
            end).

Definition navigateNext_w (force : bool) (w : World) : bool * World :=
  match currentBlock w with
  | None => (false, w)
  | Some cb =>
      let allowed :=
        force || caretUtils.isCaretAtEndOfInput w cb (currentInput cb) in
      let nextInput :=
        match currentInput cb with
        | Some i => if (S i <? List.length (inputs cb))%nat
                    then Some (S i) else None
        | None => None
        end in
      if allowed then
        match nextInput, nextBlock w with
        | Some j, _ => (true, setToInput_w cb j false w)
        | None, Some nb => (true, setToBlock_w (bid nb) START w)
        | None, None => (false, w)
        end
      else (false, w)
  end.

Definition navigatePrevious_w (force : bool) (w : World) : bool * World :=
  match currentBlock w with
  | None => (false, w)
  | Some cb =>
      let allowed :=
        force || caretUtils.isCaretAtStartOfInput w cb (currentInput cb) in
      let previousInput :=
        match currentInput cb with
        | Some (S i) => Some i
        | _ => None
        end in
      if allowed then
        match previousInput, previousBlock w with
        | Some j, _ => (true, setToInput_w cb j true w)
        | None, Some pb => (true, setToBlock_w (bid pb) END w)
        | None, None => (false, w)
        end
      else (false, w)
  end.

Definition navigateNext (force : bool) : M World bool :=
  call (Caret_navigateNext force) ;;
  fun w => let (r, w') := navigateNext_w force w in (Normal r, w').

Definition navigatePrevious (force : bool) : M World bool :=
  call (Caret_navigatePrevious force) ;;
  fun w => let (r, w') := navigatePrevious_w force w in (Normal r, w').

Definition insertContent_w (s : string) (w : World) : World :=
  match caret w with
  | Some (b, i, o) =>
      set_caret (Some (b, i, (o + String.length s)%nat))
        (set_blocks
           (updateBlock b
              (fun x =>
                 let t := inputText x i in
                 set_inputs
                   (setNth i
                      (String.append (substring 0 o t)
                         (String.append s
                            (substring o (String.length t - o) t)))
                      (inputs x)) x)) w)
  | None => w
  end.

Definition insertContentAtCaretPosition (s : string) : M World unit :=
  call (Caret_insertContentAtCaretPosition s) ;;
  modify (insertContent_w s).

End Caret.

(** ** Overlays, block selection, paste
    Modelled from the spec: only the flags the handlers read are kept; the
    calls themselves are in the trace. *)
Module Toolbar.
Definition close : M World unit :=
  call Toolbar_close ;; modify (set_toolbarOpened false).
Definition moveAndOpen (b : option Block) : M World unit :=
  call (Toolbar_moveAndOpen (option_map bid b)) ;;
  modify (set_toolbarOpened true).
Definition toolbox_open : M World unit :=
  call Toolbox_open ;; modify (set_toolboxOpened true).
End Toolbar.

Module BlockSettings.
Definition open : M World unit :=
  call BlockSettings_open ;; modify (set_blockSettingsOpened true).
End BlockSettings.

Module InlineToolbar.
Definition close : M World unit :=
  call InlineToolbar_close ;; modify (set_inlineToolbarOpened false).
End InlineToolbar.

Module UI.
Definition someToolbarOpened (w : World) : bool :=
  toolboxOpened w || blockSettingsOpened w || inlineToolbarOpened w.
Definition closeAllToolbars : M World unit :=
  call UI_closeAllToolbars ;;
  modify (fun w =>
            set_toolbarOpened false
              (set_toolboxOpened false
                 (set_blockSettingsOpened false
                    (set_inlineToolbarOpened false w)))).
Definition checkEmptiness : M World unit := call UI_checkEmptiness.
End UI.

Module BlockSelection.
Definition selectedBlocks (w : World) : list Block :=
  filter selected (blocks w).
Definition anyBlockSelected (w : World) : bool :=
  existsb selected (blocks w).
Definition clearSelection : M World unit :=
  call BlockSelection_clearSelection ;;
  modify (set_blocks (map (set_selected false))).
(** The clipboard is outside the world: only the call is kept.  The
    promise it returns is taken as settled when the continuation runs. *)
Definition copySelectedBlocks : M World unit :=
  call BlockSelection_copySelectedBlocks.
End BlockSelection.

Module CrossBlockSelection.
(** Which blocks the coordinator marks is its own bookkeeping and is
    outside the model: only the call is kept. *)
Definition toggleBlockSelectedState (next : bool) : M World unit :=
  call (CrossBlockSelection_toggleBlockSelectedState next).
End CrossBlockSelection.

Module Paste.
(** What the pipeline materialises from the payload is outside the model:
    only the call is kept. *)
Definition processDataTransfer (d : DataTransfer) (isDragNDrop : bool)
  : M World unit :=
  call (Paste_processDataTransfer d isDragNDrop).
End Paste.

(** ** Mergeability policy
    Modelled from the spec: utils/blocks is not among the sources.  Two
    blocks merge when their content types are compatible. *)
Definition areBlocksMergeable (env : Env) (targetBlock blockToMerge : Block)
  : bool :=
  compatible env (toolName (tool targetBlock)) (toolName (tool blockToMerge)).

(** ** BlockEvents: keyboard and drag handlers bound on each block *)
Module BlockEvents.
Import keyCodes.

Section WithEnv.
Variable env : Env.

Definition defined {A} (o : option A) : bool :=
  match o with
  | Some _ => true
  | None => false
  end.

(** Cases when the toolbar has to be closed. *)
Definition needToolbarClosing (event : KeyboardEvent) (w : World) : bool :=
  let toolboxItemSelected :=
    (keyCode event =? ENTER)%Z && toolboxOpened w in
  let blockSettingsItemSelected :=
    (keyCode event =? ENTER)%Z && blockSettingsOpened w in
  let inlineToolbarItemSelected :=
    (keyCode event =? ENTER)%Z && inlineToolbarOpened w in
  let flippingToolbarItems := (keyCode event =? TAB)%Z in
  negb (shiftKey event
        || flippingToolbarItems
        || toolboxItemSelected
        || blockSettingsItemSelected
        || inlineToolbarItemSelected).

Definition beforeKeydownProcessing (event : KeyboardEvent)
  : M World unit :=
  need <- gets (needToolbarClosing event) ;;
  if negb need then ret tt
  else if isPrintableKey env (keyCode event) then
    Toolbar.close ;;
    let isShortcut :=
      ctrlKey event || metaKey event || altKey event || shiftKey event in
    if negb isShortcut then BlockSelection.clearSelection else ret tt
  else ret tt.

Definition dragOver (event : DragEvent) : M World unit :=
  block <- gets (fun w => BlockManager.getBlockByChildNode w (target event)) ;;
  b <- deref block ;;
  modify (set_blocks (BlockManager.updateBlock (bid b)
                        (set_dropTarget true))).

Definition dragLeave (event : DragEvent) : M World unit :=
  block <- gets (fun w => BlockManager.getBlockByChildNode w (target event)) ;;
  b <- deref block ;;
  modify (set_blocks (BlockManager.updateBlock (bid b)
                        (set_dropTarget false))).

Definition keyup (event : KeyboardEvent) : M World unit :=
  if shiftKey event then ret tt else UI.checkEmptiness.

Definition handleCommandC : M World unit :=
  anyBlockSelected <- gets BlockSelection.anyBlockSelected ;;
  if negb anyBlockSelected then ret tt
  else BlockSelection.copySelectedBlocks.

(** The store answers an index whenever some block is selected, which the
    handler has checked; the absent answer has no case of its own. *)
Definition handleCommandX : M World unit :=
  anyBlockSelected <- gets BlockSelection.anyBlockSelected ;;
  if negb anyBlockSelected then ret tt
  else
    BlockSelection.copySelectedBlocks ;;
    selectionPositionIndex <- BlockManager.removeSelectedBlocks ;;
    let i := match selectionPositionIndex with
             | Some n => Z.of_nat n
             | None => 0%Z
             end in
    insertedBlock <- BlockManager.insertDefaultBlockAtIndex env i true ;;
    Caret.setToBlock insertedBlock START ;;
    BlockSelection.clearSelection.

Definition tabPressed (event : KeyboardEvent) : M World unit :=
  isFlipperActivated <- gets inlineToolbarOpened ;;
  if isFlipperActivated then ret tt
  else
    isNavigated <- (if shiftKey event then Caret.navigatePrevious true
                    else Caret.navigateNext true) ;;
    if isNavigated then call Event_preventDefault else ret tt.

Definition activateToolbox : M World unit :=
  opened <- gets toolbarOpened ;;
  (if negb opened then Toolbar.moveAndOpen None else ret tt) ;;
  Toolbar.toolbox_open.

Definition activateBlockSettings : M World unit :=
  opened <- gets toolbarOpened ;;
  (if negb opened then Toolbar.moveAndOpen None else ret tt) ;;
  settingsOpened <- gets blockSettingsOpened ;;
  if negb settingsOpened then BlockSettings.open else ret tt.

Definition commandSlashPressed : M World unit :=
  sel <- gets BlockSelection.selectedBlocks ;;
  if (1 <? List.length sel)%nat then ret tt
  else activateBlockSettings.

Definition slashPressed (event : KeyboardEvent) : M World unit :=
  currentBlock <- gets BlockManager.currentBlock ;;
  cb <- deref currentBlock ;;
  let canOpenToolbox := isEmpty cb in
  if negb canOpenToolbox then ret tt
  else
    call Event_preventDefault ;;
    Caret.insertContentAtCaretPosition "/" ;;
    activateToolbox.

Definition enter (event : KeyboardEvent) : M World unit :=
  currentBlock <- gets BlockManager.currentBlock ;;
  match currentBlock with
  | None => ret tt
  | Some cb =>
      if isLineBreaksEnabled (tool cb) then ret tt
      else
        someToolbarOpened <- gets UI.someToolbarOpened ;;
        flipperFocused <- gets someFlipperButtonFocused ;;
        if someToolbarOpened && flipperFocused then ret tt
        else if shiftKey event && negb (isIosDevice env) then ret tt
        else
          atStart <- gets (fun w =>
            caretUtils.isCaretAtStartOfInput w cb (currentInput cb)) ;;
          atEnd <- gets (fun w =>
            caretUtils.isCaretAtEndOfInput w cb (currentInput cb)) ;;
          blockToFocus <-
            (if defined (currentInput cb) && atStart
                && negb (hasMedia cb) then
               i <- gets currentBlockIndex ;;
               BlockManager.insertDefaultBlockAtIndex env i false ;;
               ret cb
             else if defined (currentInput cb) && atEnd then
               i <- gets currentBlockIndex ;;
               BlockManager.insertDefaultBlockAtIndex env (i + 1) false
             else BlockManager.split env) ;;
          Caret.setToBlock blockToFocus DEFAULT ;;
          Toolbar.moveAndOpen (Some blockToFocus) ;;
          call Event_preventDefault
  end.

Definition mergeBlocks (targetBlock blockToMerge : Block) : M World unit :=
  match lastInput targetBlock with
  | None => ret tt
  | Some li =>
      Caret.focus targetBlock li false ;;
      BlockManager.mergeBlocks env targetBlock blockToMerge ;;
      Toolbar.close
  end.

Definition backspace (event : KeyboardEvent) : M World unit :=
  currentBlock <- gets BlockManager.currentBlock ;;
  previousBlock <- gets BlockManager.previousBlock ;;
  match currentBlock with
  | None => ret tt
  | Some cb =>
      collapsed <- gets isCollapsed ;;
      if negb collapsed then ret tt
      else
        atStart <- gets (fun w =>
          caretUtils.isCaretAtStartOfInput w cb (currentInput cb)) ;;
        if negb (defined (currentInput cb)) || negb atStart then ret tt
        else
          call Event_preventDefault ;;
          Toolbar.close ;;
          let isFirstInputFocused :=
            match currentInput cb, firstInput cb with
            | Some i, Some j => Nat.eqb i j
            | None, None => true
            | _, _ => false
            end in
          if negb isFirstInputFocused then
            Caret.navigatePrevious false ;; ret tt
          else
            match previousBlock with
            | None => ret tt
            | Some pb =>
                if isEmpty pb then BlockManager.removeBlock env pb
                else if isEmpty cb then
                  BlockManager.removeBlock env cb ;;
                  newCurrentBlock <- gets BlockManager.currentBlock ;;
                  nb <- deref newCurrentBlock ;;
                  Caret.setToBlock nb END
                else
                  let bothBlocksMergeable :=
                    areBlocksMergeable env pb cb in
                  if bothBlocksMergeable then mergeBlocks pb cb
                  else Caret.setToBlock pb END
            end
  end.

Definition delete (event : KeyboardEvent) : M World unit :=
  currentBlock <- gets BlockManager.currentBlock ;;
  nextBlock <- gets BlockManager.nextBlock ;;
  collapsed <- gets isCollapsed ;;
  if negb collapsed then ret tt
  else
    cb <- deref currentBlock ;;
    atEnd <- gets (fun w =>
      caretUtils.isCaretAtEndOfInput w cb (currentInput cb)) ;;
    if negb atEnd then ret tt
    else
      call Event_preventDefault ;;
      Toolbar.close ;;
      let isLastInputFocused :=
        match currentInput cb, lastInput cb with
        | Some i, Some j => Nat.eqb i j
        | None, None => true
        | _, _ => false
        end in
      if negb isLastInputFocused then
        Caret.navigateNext false ;; ret tt
      else
        match nextBlock with
        | None => ret tt
        | Some nb =>
            if isEmpty nb then BlockManager.removeBlock env nb
            else if isEmpty cb then
              BlockManager.removeBlock env cb ;;
              Caret.setToBlock nb START
            else
              let bothBlocksMergeable := areBlocksMergeable env cb nb in
              if bothBlocksMergeable then mergeBlocks cb nb
              else Caret.setToBlock nb START
        end.

Definition arrowRightAndDown (event : KeyboardEvent) : M World unit :=
  let isFlipperCombination :=
    existsb (Z.eqb (keyCode event)) (usedKeys env)
    && (negb (shiftKey event) || (keyCode event =? TAB)%Z) in
  someToolbarOpened <- gets UI.someToolbarOpened ;;
  if someToolbarOpened && isFlipperCombination then ret tt
  else
    Toolbar.close ;;
    currentBlock <- gets BlockManager.currentBlock ;;
    caretAtEnd <- gets (fun w =>
      match currentBlock with
      | Some cb =>
          if defined (currentInput cb)
          then caretUtils.isCaretAtEndOfInput w cb (currentInput cb)
          else false
      | None => false
      end) ;;
    anyBlockSelected <- gets BlockSelection.anyBlockSelected ;;
    let shouldEnableCBS := caretAtEnd || anyBlockSelected in
    if shiftKey event && (keyCode event =? DOWN)%Z && shouldEnableCBS then
      CrossBlockSelection.toggleBlockSelectedState true
    else
      let navigateNext :=
        (keyCode event =? DOWN)%Z
        || ((keyCode event =? RIGHT)%Z && negb (isRtl env)) in
      isNavigated <- (if navigateNext then Caret.navigateNext false
                      else Caret.navigatePrevious false) ;;
      if isNavigated then call Event_preventDefault
      else
        call delay_updateCurrentInput ;;
        BlockSelection.clearSelection.

Definition arrowLeftAndUp (event : KeyboardEvent) : M World unit :=
  someToolbarOpened <- gets UI.someToolbarOpened ;;
  let flipperOwnsKey :=
    existsb (Z.eqb (keyCode event)) (usedKeys env)
    && (negb (shiftKey event) || (keyCode event =? TAB)%Z) in
  if someToolbarOpened && flipperOwnsKey then ret tt
  else
    (if someToolbarOpened then UI.closeAllToolbars else ret tt) ;;
    Toolbar.close ;;
    currentBlock <- gets BlockManager.currentBlock ;;
    caretAtStart <- gets (fun w =>
      match currentBlock with
      | Some cb =>
          if defined (currentInput cb)
          then caretUtils.isCaretAtStartOfInput w cb (currentInput cb)
          else false
      | None => false
      end) ;;
    anyBlockSelected <- gets BlockSelection.anyBlockSelected ;;
    let shouldEnableCBS := caretAtStart || anyBlockSelected in
    if shiftKey event && (keyCode event =? UP)%Z && shouldEnableCBS then
      CrossBlockSelection.toggleBlockSelectedState false
    else
      let navigatePrevious :=
        (keyCode event =? UP)%Z
        || ((keyCode event =? LEFT)%Z && negb (isRtl env)) in
      isNavigated <- (if navigatePrevious then Caret.navigatePrevious false
                      else Caret.navigateNext false) ;;
      if isNavigated then call Event_preventDefault
      else
        call delay_updateCurrentInput ;;
        BlockSelection.clearSelection.

Definition keydown (event : KeyboardEvent) : M World unit :=
  beforeKeydownProcessing event ;;
  (if (keyCode event =? BACKSPACE)%Z then backspace event
   else if (keyCode event =? DELETE)%Z then delete event
   else if (keyCode event =? ENTER)%Z then enter event
   else if (keyCode event =? DOWN)%Z || (keyCode event =? RIGHT)%Z
   then arrowRightAndDown event
   else if (keyCode event =? UP)%Z || (keyCode event =? LEFT)%Z
   then arrowLeftAndUp event
   else if (keyCode event =? TAB)%Z then tabPressed event
   else ret tt) ;;
  (if String.eqb (key event) "/" && negb (ctrlKey event)
      && negb (metaKey event)
   then slashPressed event else ret tt) ;;
  (if String.eqb (code event) "Slash"
      && (ctrlKey event || metaKey event)
   then call Event_preventDefault ;; commandSlashPressed
   else ret tt).

End WithEnv.
End BlockEvents.

(** ** DragNDrop: drop and drag-start on the editor holder *)
Module DragNDrop.

(** The private field of the module. *)
Record Self : Type := mkSelf { isStartedAtEditor : bool }.

Definition St : Type := (Self * World)%type.

Definition liftW {A} (m : M World A) : M St A :=
  fun s => let (r, w') := m (snd s) in (r, (fst s, w')).

(** What the browser removes on [execCommand('delete')] is outside the
    model: only the call is kept. *)
Definition processDrop (dropEvent : DragEvent) : M St unit :=
  liftW (call Event_preventDefault) ;;
  liftW (modify (set_blocks (map (set_dropTarget false)))) ;;
  atEditor <- liftW (gets isAtEditor) ;;
  collapsed <- liftW (gets isCollapsed) ;;
  started <- gets (fun s : St => isStartedAtEditor (fst s)) ;;
  (if atEditor && negb collapsed && started
   then liftW (call document_execCommand_delete) else ret tt) ;;
  modify (fun s : St => (mkSelf false, snd s)) ;;
  targetBlock <-
    liftW (BlockManager.setCurrentBlockByChildNode (target dropEvent)) ;;
  match targetBlock with
  | Some tb => liftW (Caret.setToBlock tb END)
  | None =>
      lastBlock <- liftW (gets BlockManager.lastBlock) ;;
      lb <- deref lastBlock ;;
      found <- liftW (BlockManager.setCurrentBlockByChildNode (holder lb)) ;;
      fb <- deref found ;;
      liftW (Caret.setToBlock fb END)
  end ;;
  liftW (Paste.processDataTransfer (dataTransfer dropEvent) true).

Definition processDragStart : M St unit :=
  atEditor <- liftW (gets isAtEditor) ;;
  collapsed <- liftW (gets isCollapsed) ;;
  (if atEditor && negb collapsed
   then modify (fun s : St => (mkSelf true, snd s)) else ret tt) ;;
  liftW InlineToolbar.close.

Definition processDragOver (dragEvent : DragEvent) : M St unit :=
  liftW (call Event_preventDefault).

End DragNDrop.

(** ** Runs of events *)

(** The calls a step from [w] to [w'] has added to the trace. *)
Definition newCalls (w w' : World) : list Call :=
  skipn (List.length (trace w)) (trace w').

(** [n] presses of the same key. *)
Fixpoint times {S} (n : nat) (m : M S unit) : M S unit :=
  match n with
  | O => ret tt
  | Datatypes.S k => m ;; times k m
  end.

Module DragSession.
Import DragNDrop.

(** What can happen between two drops: drag events on the holder, and
    anything else (keys, clicks, other modules), which may change the
    world in any way but has no access to the private field. *)
Inductive Event : Type :=
| DragStarted
| Dropped (e : DragEvent)
| DraggedOver (e : DragEvent)
| Other (f : World -> World).

Definition step (ev : Event) (s : St) : St :=
  match ev with
  | DragStarted => snd (processDragStart s)
  | Dropped e => snd (processDrop e s)
  | DraggedOver e => snd (processDragOver e s)
  | Other f => (fst s, f (snd s))
  end.

Fixpoint run (evs : list Event) (s : St) : St :=
  match evs with
  | [] => s
  | ev :: r => run r (step ev s)
  end.

Definition isDrop (ev : Event) : bool :=
  match ev with
  | Dropped _ => true
  | _ => false
  end.

Definition isExecDelete (c : Call) : bool :=
  match c with
  | document_execCommand_delete => true
  | _ => false
  end.

(** The drop of [e] in state [s] runs the delete-the-selection branch. *)
Definition deletesSelection (e : DragEvent) (s : St) : bool :=
  existsb isExecDelete (newCalls (snd s) (snd (snd (processDrop e s)))).

End DragSession.

(** ** The predicates as the specification words them *)
Module Worded.
Import keyCodes.

(** needsToolbarClosing: false when Shift is held, when Tab cycles the
    items of an open toolbar, or when Enter is pressed while a toolbox,
    block-settings or inline-toolbar item is the selection target. *)
Definition needsToolbarClosing (event : KeyboardEvent) (w : World) : bool :=
  negb (shiftKey event
        || ((keyCode event =? TAB)%Z
            && (toolbarOpened w || UI.someToolbarOpened w))
        || ((keyCode event =? ENTER)%Z
            && (toolboxOpened w || blockSettingsOpened w
                || inlineToolbarOpened w))).

(** Some overlay is open and its focus-cycling control owns the keyboard
    focus. *)
Definition overlayConsumesTab (w : World) : bool :=
  UI.someToolbarOpened w && someFlipperButtonFocused w.

(** Shift together with a forward arrow: Down, or Right when the layout
    is left-to-right. *)
Definition isShiftForwardArrow (env : Env) (event : KeyboardEvent) : bool :=
  shiftKey event
  && ((keyCode event =? DOWN)%Z
      || ((keyCode event =? RIGHT)%Z && negb (isRtl env))).

(** The caret is at the logical start / end of the whole block. *)
Definition isCaretAtStartOfBlock (w : World) (b : Block) : bool :=
  caretUtils.isCaretAtStartOfInput w b (firstInput b).

Definition isCaretAtEndOfBlock (w : World) (b : Block) : bool :=
  caretUtils.isCaretAtEndOfInput w b (lastInput b).

End Worded.

(** The caret is at the end of the focused input of the current block. *)
Definition caretAtEndOfCurrentInput (w : World) : bool :=
  match BlockManager.currentBlock w with
  | Some cb => caretUtils.isCaretAtEndOfInput w cb (currentInput cb)
  | None => false
  end.

(** Store invariant: blocks are unique by identity and the supply of
    fresh ids is ahead of every block. *)
Definition wellFormed (w : World) : Prop :=
  NoDup (map bid (blocks w))
  /\ Forall (fun b => (bid b < nextId w)%nat) (blocks w).

(** ** Sample configuration, to run the handlers on concrete input *)
Module Sample.
Import keyCodes.

Definition paragraph : Tool := mkTool "paragraph" false.
Definition quote : Tool := mkTool "quote" false.

Definition printable (k : Z) : bool :=
  ((47 <? k) && (k <? 58) || (k =? 32) || (k =? 13) || (k =? 229)
   || (64 <? k) && (k <? 91) || (95 <? k) && (k <? 112)
   || (185 <? k) && (k <? 193) || (218 <? k) && (k <? 223))%Z.

Definition env : Env :=
  mkEnv [TAB; LEFT; RIGHT; ENTER; UP; DOWN] printable false false
    paragraph String.eqb.

Definition text (i : BlockId) (s : string) : Block :=
  mkBlock i paragraph [s] (Some 0%nat) false false false.

(** A quote with its caption, the caption focused. *)
Definition captioned (i : BlockId) (s c : string) : Block :=
  mkBlock i quote [s; c] (Some 1%nat) false false false.

Definition world (bs : list Block) (cur : Z)
           (c : option (BlockId * nat * nat)) : World :=
  mkWorld bs cur 100 c true true false false false false false [].

Definition pressed (k : Z) (shift : bool) : KeyboardEvent :=
  mkKey k "" "" shift false false false.

Definition twoBlocks : list Block := [text 0 "ab"; text 1 "xyz"].

End Sample.

(** ** Derived notions used in the statements *)

(** What Backspace leaves behind when it only absorbs the key. *)
Definition absorbed (w : World) : World :=
  set_toolbarOpened false (log Toolbar_close (log Event_preventDefault w)).

Definition isCaretCall (c : Call) : bool :=
  match c with
  | Caret_setToBlock _ _ | Caret_navigateNext _ | Caret_navigatePrevious _
  | Caret_insertContentAtCaretPosition _ | caret_focus _ _ _ => true
  | _ => false
  end.

Definition isPasteCall (c : Call) : bool :=
  match c with
  | Paste_processDataTransfer _ _ => true
  | _ => false
  end.

(** The navigation Tab asks for: backwards with Shift, forwards without,
    forced in both cases; the answer of the caret service and the world it
    leaves. *)
Definition tabNavigation (event : KeyboardEvent) (w : World)
  : bool * World :=
  if shiftKey event
  then Caret.navigatePrevious_w true (log (Caret_navigatePrevious true) w)
  else Caret.navigateNext_w true (log (Caret_navigateNext true) w).

(** The block a drop lands on: the owner of the event target, or the last
    block when no block owns it. *)
Definition resolveDropTarget (e : DragEvent) (w : World) : option Block :=
  match BlockManager.getBlockByChildNode w (target e) with
  | Some b => Some b
  | None => BlockManager.lastBlock w
  end.

Definition ownsTarget (e : DragEvent) (w : World) : bool :=
  match BlockManager.getBlockByChildNode w (target e) with
  | Some _ => true
  | None => false
  end.

(** The condition of the delete-the-dragged-selection branch. *)
Definition deletesDragged (self : DragNDrop.Self) (w : World) : bool :=
  isAtEditor w && negb (isCollapsed w) && DragNDrop.isStartedAtEditor self.

(** The calls of a drop that lands on [tb], in order. *)
Definition dropCalls (e : DragEvent) (self : DragNDrop.Self) (w : World)
           (tb : Block) : list Call :=
  Event_preventDefault
    :: (if deletesDragged self w then [document_execCommand_delete] else [])
    ++ BlockManager_setCurrentBlockByChildNode (target e)
    :: (if ownsTarget e w then []
        else [BlockManager_setCurrentBlockByChildNode (holder tb)])
    ++ [Caret_setToBlock (bid tb) END;
        Paste_processDataTransfer (dataTransfer e) true].

(** The private flag of the drag-n-drop module. *)
Definition flag (s : DragNDrop.St) : bool :=
  DragNDrop.isStartedAtEditor (fst s).

(** The selection is in the editor and is not collapsed. *)
Definition selectionInEditor (s : DragNDrop.St) : bool :=
  isAtEditor (snd s) && negb (isCollapsed (snd s)).

(** The two halves of [cb] when it is split at the caret of [w]: the first
    keeps the text before the caret in the focused input, the second is a
    new block of the same tool with the text after it. *)
Definition splitHalves (w : World) (cb : Block) : Block * Block :=
  match caret w with
  | Some (b, i, o) =>
      if Nat.eqb b (bid cb) then
        let s := inputText cb i in
        (set_inputs (setNth i (substring 0 o s) (inputs cb)) cb,
         BlockManager.composeBlock (nextId w) (tool cb)
           (substring o (String.length s - o) s))
      else (cb, BlockManager.composeBlock (nextId w) (tool cb) "")
  | None => (cb, BlockManager.composeBlock (nextId w) (tool cb) "")
  end.

(** Decidable form of the uniqueness of block ids. *)
Fixpoint uniqueIds (seen : list BlockId) (bs : list Block) : bool :=
  match bs with
  | [] => true
  | b :: r => negb (existsb (Nat.eqb (bid b)) seen)
              && uniqueIds (bid b :: seen) r
  end.

(** ** Further notions used in the statements *)

(** The state in which Delete takes over from the browser: a collapsed
    selection with the caret at the end of the last input of the
    current block. *)
Definition atEndOfBlock (w : World) (cb : Block) (li : nat) : Prop :=
  isCollapsed w = true
  /\ currentInput cb = Some li
  /\ lastInput cb = Some li
  /\ caret w = Some (bid cb, li, String.length (inputText cb li)).

(** The state in which Backspace takes over from the browser at a block
    boundary: a collapsed selection with the caret at the start of the
    first input of the current block. *)
Definition atStartOfBlock (w : World) (cb : Block) : Prop :=
  isCollapsed w = true
  /\ currentInput cb = Some 0%nat
  /\ firstInput cb = Some 0%nat
  /\ caret w = Some (bid cb, 0, 0)%nat.

(** Backspace takes over from the browser. *)
Definition backspaceTakesOver (w : World) : bool :=
  match BlockManager.currentBlock w with
  | Some cb =>
      isCollapsed w && BlockEvents.defined (currentInput cb)
      && caretUtils.isCaretAtStartOfInput w cb (currentInput cb)
  | None => false
  end.

(** Enter takes over from the browser. *)
Definition enterTakesOver (env : Env) (event : KeyboardEvent) (w : World)
  : bool :=
  match BlockManager.currentBlock w with
  | Some cb =>
      negb (isLineBreaksEnabled (tool cb))
      && negb (UI.someToolbarOpened w && someFlipperButtonFocused w)
      && negb (shiftKey event && negb (isIosDevice env))
  | None => false
  end.

(** The caret is at the start of the focused input of the current block. *)
Definition caretAtStartOfCurrentInput (w : World) : bool :=
  match BlockManager.currentBlock w with
  | Some cb => caretUtils.isCaretAtStartOfInput w cb (currentInput cb)
  | None => false
  end.

(** An open toolbar's flipper owns the key. *)
Definition flipperOwnsKey (env : Env) (event : KeyboardEvent) (w : World)
  : bool :=
  UI.someToolbarOpened w
  && (existsb (Z.eqb (keyCode event)) (usedKeys env)
      && (negb (shiftKey event) || (keyCode event =? keyCodes.TAB)%Z)).

(** The world after Right / Down has closed the toolbar. *)
Definition toolbarClosed (w : World) : World :=
  set_toolbarOpened false (log Toolbar_close w).

(** The navigation Right / Down asks for once the toolbar is closed:
    forwards for Down and for Right in a left-to-right layout, backwards
    for Right in a right-to-left one. *)
Definition forwardNavigation (env : Env) (event : KeyboardEvent) (w : World)
  : bool * World :=
  if (keyCode event =? keyCodes.DOWN)%Z
     || ((keyCode event =? keyCodes.RIGHT)%Z && negb (isRtl env))
  then Caret.navigateNext_w false
         (log (Caret_navigateNext false) (toolbarClosed w))
  else Caret.navigatePrevious_w false
         (log (Caret_navigatePrevious false) (toolbarClosed w)).

Definition isPreventDefault (c : Call) : bool :=
  match c with
  | Event_preventDefault => true
  | _ => false
  end.

(** Some modifier key is held. *)
Definition isShortcut (event : KeyboardEvent) : bool :=
  ctrlKey event || metaKey event || altKey event || shiftKey event.


(** A handler that returns in every world. *)
Definition returns {S} (m : M S unit) : Prop :=
  forall s, exists s', m s = (Normal tt, s').

Definition unselected (b : Block) : bool := negb (selected b).

(** The world after Left / Up has closed the open overlays and the
    toolbar. *)
Definition overlaysClosed (w : World) : World :=
  toolbarClosed
    (if UI.someToolbarOpened w
     then set_toolbarOpened false
            (set_toolboxOpened false
               (set_blockSettingsOpened false
                  (set_inlineToolbarOpened false
                     (log UI_closeAllToolbars w))))
     else w).

(** The navigation Left / Up asks for once the overlays are closed:
    backwards for Up and for Left in a left-to-right layout, forwards for
    Left in a right-to-left one. *)
Definition backwardNavigation (env : Env) (event : KeyboardEvent) (w : World)
  : bool * World :=
  if (keyCode event =? keyCodes.UP)%Z
     || ((keyCode event =? keyCodes.LEFT)%Z && negb (isRtl env))
  then Caret.navigatePrevious_w false
         (log (Caret_navigatePrevious false) (overlaysClosed w))
  else Caret.navigateNext_w false
         (log (Caret_navigateNext false) (overlaysClosed w)).

(** The call Right / Down makes to the caret service. *)
Definition forwardCall (env : Env) (event : KeyboardEvent) : Call :=
  if (keyCode event =? keyCodes.DOWN)%Z
     || ((keyCode event =? keyCodes.RIGHT)%Z && negb (isRtl env))
  then Caret_navigateNext false
  else Caret_navigatePrevious false.

(** The call Left / Up makes to the caret service. *)
Definition backwardCall (env : Env) (event : KeyboardEvent) : Call :=
  if (keyCode event =? keyCodes.UP)%Z
     || ((keyCode event =? keyCodes.LEFT)%Z && negb (isRtl env))
  then Caret_navigatePrevious false
  else Caret_navigateNext false.

(** * Properties *)

Import BlockManager.

(** ** Reduction of handlers *)

Ltac projW :=
  cbn [blocks currentBlockIndex nextId caret isCollapsed isAtEditor
       toolbarOpened toolboxOpened blockSettingsOpened inlineToolbarOpened
       someFlipperButtonFocused trace set_blocks set_currentBlockIndex
       set_nextId set_caret set_toolbarOpened set_toolboxOpened
       set_blockSettingsOpened set_inlineToolbarOpened log].

Ltac runB :=
  cbv beta iota zeta delta
      [BlockEvents.backspace BlockEvents.enter BlockEvents.mergeBlocks
       BlockEvents.defined
       bind call modify gets ret deref throw
       Toolbar.close Toolbar.moveAndOpen Caret.setToBlock Caret.focus
       Caret.navigatePrevious Caret.navigateNext
       BlockManager.removeBlock BlockManager.mergeBlocks
       BlockManager.insertDefaultBlockAtIndex BlockManager.split
       fst snd];
  projW; cbn [negb andb orb].

Ltac runM :=
  cbv beta iota zeta delta
      [DragNDrop.processDrop DragNDrop.processDragStart
       DragNDrop.processDragOver bind DragNDrop.liftW call modify
       gets ret deref throw BlockManager.setCurrentBlockByChildNode
       Caret.setToBlock Paste.processDataTransfer InlineToolbar.close
       fst snd];
  projW.

Lemma newCalls_app (w w' : World) (l : list Call) :
  trace w' = trace w ++ l -> newCalls w w' = l.
Proof.
  intros H. unfold newCalls. rewrite H.
  rewrite skipn_app, skipn_all, Nat.sub_diag. reflexivity.
Qed.

Lemma newCalls_same (w : World) : newCalls w w = [].
Proof. unfold newCalls. apply skipn_all. Qed.

(** ** Lists of blocks *)
Section BlockLists.
Import BlockManager.

Lemma nthZ_In {A} (l : list A) (i : Z) (x : A) :
  nthZ l i = Some x -> In x l.
Proof.
  unfold nthZ. destruct (i <? 0)%Z; [discriminate|].
  apply nth_error_In.
Qed.

Lemma nthZ_split {A} (l : list A) (i : Z) (x : A) :
  nthZ l i = Some x ->
  exists pre post, l = pre ++ x :: post /\ Z.of_nat (List.length pre) = i.
Proof.
  unfold nthZ. destruct (i <? 0)%Z eqn:E; [discriminate|].
  intros H. apply nth_error_split in H as (pre & post & -> & Hlen).
  exists pre, post. split; [reflexivity|].
  apply Z.ltb_ge in E. lia.
Qed.

Lemma lastBlock_nonempty (w : World) :
  blocks w <> [] -> exists lb, lastBlock w = Some lb.
Proof.
  intros Hne. unfold lastBlock, nthZ.
  destruct (blocks w) as [|b bs] eqn:E; [congruence|].
  assert (Hlt : (Z.to_nat (Z.of_nat (List.length (b :: bs)) - 1)
                 < List.length (b :: bs))%nat) by (cbn [List.length]; lia).
  apply nth_error_Some in Hlt.
  replace (Z.of_nat (List.length (b :: bs)) - 1 <? 0)%Z with false
    by (symmetry; apply Z.ltb_ge; cbn [List.length]; lia).
  destruct (nth_error (b :: bs) _) as [lb|]; [eauto|congruence].
Qed.

Lemma findBlock_In (bs : list Block) (x : Block) :
  In x bs -> exists fb, findBlock (bid x) bs = Some fb /\ bid fb = bid x.
Proof.
  unfold findBlock. induction bs as [|y r IH]; intros Hin; [contradiction|].
  cbn [find]. destruct (Nat.eqb (bid y) (bid x)) eqn:E.
  - exists y. split; [reflexivity|]. now apply Nat.eqb_eq.
  - destruct Hin as [->|Hin]; [rewrite Nat.eqb_refl in E; discriminate|].
    auto.
Qed.

Lemma findBlock_Some (bs : list Block) (b : BlockId) (x : Block) :
  findBlock b bs = Some x -> In x bs /\ bid x = b.
Proof.
  unfold findBlock. intros H. apply find_some in H as [Hin Heq].
  split; [assumption|]. now apply Nat.eqb_eq.
Qed.

Lemma NoDup_bid_eq (bs : list Block) (x y : Block) :
  NoDup (map bid bs) -> In x bs -> In y bs -> bid x = bid y -> x = y.
Proof.
  induction bs as [|z r IH]; intros Hnd Hx Hy Heq; [contradiction|].
  cbn [map] in Hnd. inversion Hnd as [|? ? Hnotin Hnd']; subst.
  destruct Hx as [->|Hx], Hy as [->|Hy]; auto.
  - exfalso. apply Hnotin. rewrite Heq. now apply in_map.
  - exfalso. apply Hnotin. rewrite <- Heq. now apply in_map.
Qed.

Lemma findBlock_NoDup (bs : list Block) (x : Block) :
  NoDup (map bid bs) -> In x bs -> findBlock (bid x) bs = Some x.
Proof.
  intros Hnd Hin. destruct (findBlock_In bs x Hin) as (fb & Hf & Heq).
  apply findBlock_Some in Hf as Hfb. destruct Hfb as [Hin' _].
  rewrite Hf. f_equal. eapply NoDup_bid_eq; eauto.
Qed.

Lemma findBlock_map (g : Block -> Block) (b : BlockId) (bs : list Block) :
  (forall x, bid (g x) = bid x) ->
  findBlock b (map g bs) = option_map g (findBlock b bs).
Proof.
  intros Hg. unfold findBlock. induction bs as [|y r IH]; [reflexivity|].
  cbn [map find]. rewrite Hg. destruct (Nat.eqb (bid y) b); auto.
Qed.

Lemma indexOf_map (g : Block -> Block) (b : BlockId) (bs : list Block) :
  (forall x, bid (g x) = bid x) ->
  indexOf b (map g bs) = indexOf b bs.
Proof.
  intros Hg. induction bs as [|y r IH]; [reflexivity|].
  cbn [map indexOf]. rewrite Hg, IH. reflexivity.
Qed.

Lemma indexOf_findBlock (bs : list Block) (b : BlockId) (x : Block) :
  findBlock b bs = Some x ->
  exists n, indexOf b bs = Some n /\ nth_error bs n = Some x.
Proof.
  unfold findBlock. induction bs as [|y r IH]; [discriminate|].
  cbn [find indexOf]. destruct (Nat.eqb (bid y) b).
  - intros [= ->]. exists 0%nat. split; reflexivity.
  - intros H. destruct (IH H) as (n & -> & Hn).
    exists (S n). split; [reflexivity|assumption].
Qed.

Lemma currentBlock_at_indexZ (w : World) (b : BlockId) (x : Block) :
  findBlock b (blocks w) = Some x ->
  currentBlockIndex w = indexZ b (blocks w) ->
  currentBlock w = Some x.
Proof.
  intros Hf Hi. destruct (indexOf_findBlock _ _ _ Hf) as (n & Hn & Hnth).
  unfold currentBlock, nthZ, indexZ in *. rewrite Hi, Hn.
  replace (Z.of_nat n <? 0)%Z with false by (symmetry; apply Z.ltb_ge; lia).
  rewrite Nat2Z.id. assumption.
Qed.

Lemma updateBlock_inputs (b : BlockId) (f : Block -> Block)
      (bs : list Block) :
  (forall x, inputs (f x) = inputs x) ->
  map inputs (updateBlock b f bs) = map inputs bs.
Proof.
  intros Hf. unfold updateBlock. rewrite map_map. apply map_ext.
  intros x. destruct (Nat.eqb (bid x) b); auto.
Qed.

Lemma updateBlock_bid (b : BlockId) (f : Block -> Block) (x : Block) :
  (forall y, bid (f y) = bid y) ->
  bid (if Nat.eqb (bid x) b then f x else x) = bid x.
Proof. intros Hf. destruct (Nat.eqb (bid x) b); auto. Qed.

Lemma lastBlock_map (g : Block -> Block) (w1 w : World) :
  blocks w1 = map g (blocks w) ->
  lastBlock w1 = option_map g (lastBlock w).
Proof.
  intros H. unfold lastBlock, nthZ. rewrite H, length_map.
  destruct (_ <? 0)%Z; [reflexivity|]. apply nth_error_map.
Qed.


Lemma nthZ_middle {A} (pre post : list A) (x : A) :
  nthZ (pre ++ x :: post) (Z.of_nat (List.length pre)) = Some x.
Proof.
  unfold nthZ.
  replace (Z.of_nat (List.length pre) <? 0)%Z with false
    by (symmetry; apply Z.ltb_ge; lia).
  rewrite Nat2Z.id, nth_error_app2, Nat.sub_diag by lia. reflexivity.
Qed.

Lemma indexOf_middle (b : BlockId) (pre post : list Block) (x : Block) :
  ~ In b (map bid pre) -> bid x = b ->
  indexOf b (pre ++ x :: post) = Some (List.length pre).
Proof.
  intros Hpre Hx. induction pre as [|y r IH]; cbn [app indexOf List.length].
  - rewrite Hx, Nat.eqb_refl. reflexivity.
  - cbn [map In] in Hpre.
    destruct (Nat.eqb (bid y) b) eqn:E.
    + apply Nat.eqb_eq in E. tauto.
    + rewrite IH by tauto. reflexivity.
Qed.

Lemma findBlock_middle (b : BlockId) (pre post : list Block) (x : Block) :
  ~ In b (map bid pre) -> bid x = b ->
  findBlock b (pre ++ x :: post) = Some x.
Proof.
  intros Hpre Hx. unfold findBlock.
  induction pre as [|y r IH]; cbn [app find].
  - rewrite Hx, Nat.eqb_refl. reflexivity.
  - cbn [map In] in Hpre.
    destruct (Nat.eqb (bid y) b) eqn:E.
    + apply Nat.eqb_eq in E. tauto.
    + apply IH. tauto.
Qed.

Lemma updateBlock_absent (b : BlockId) (f : Block -> Block)
      (bs : list Block) :
  ~ In b (map bid bs) -> updateBlock b f bs = bs.
Proof.
  intros Hno. unfold updateBlock. induction bs as [|y r IH]; [reflexivity|].
  cbn [map In] in *. destruct (Nat.eqb (bid y) b) eqn:E.
  - apply Nat.eqb_eq in E. tauto.
  - rewrite IH by tauto. reflexivity.
Qed.

Lemma updateBlock_middle (b : BlockId) (f : Block -> Block)
      (pre post : list Block) (x : Block) :
  ~ In b (map bid pre) -> ~ In b (map bid post) -> bid x = b ->
  updateBlock b f (pre ++ x :: post) = pre ++ f x :: post.
Proof.
  intros Hpre Hpost Hx.
  pose proof (updateBlock_absent b f pre Hpre) as E1.
  pose proof (updateBlock_absent b f post Hpost) as E2.
  unfold updateBlock in *. rewrite map_app. cbn [map].
  rewrite E1, E2, Hx, Nat.eqb_refl. reflexivity.
Qed.

Lemma removeAt_middle (pre post : list Block) (x : Block) :
  removeAt (List.length pre) (pre ++ x :: post) = pre ++ post.
Proof.
  unfold removeAt.
  rewrite firstn_app, Nat.sub_diag, firstn_all, skipn_app.
  rewrite skipn_all2 by lia.
  replace (S (List.length pre) - List.length pre)%nat with 1%nat by lia.
  cbn. rewrite app_nil_r. reflexivity.
Qed.

Lemma insertAt_middle (pre rest : list Block) (x : Block) :
  insertAt (List.length pre) x (pre ++ rest) = pre ++ x :: rest.
Proof.
  unfold insertAt.
  rewrite firstn_app, Nat.sub_diag, firstn_all, skipn_app.
  rewrite skipn_all, Nat.sub_diag. cbn. rewrite app_nil_r. reflexivity.
Qed.

(** What uniqueness of ids says about a block in the middle. *)
Lemma NoDup_middle (pre post : list Block) (x : Block) :
  NoDup (map bid (pre ++ x :: post)) ->
  ~ In (bid x) (map bid pre) /\ ~ In (bid x) (map bid post)
  /\ NoDup (map bid (pre ++ post)).
Proof.
  rewrite !map_app. cbn [map]. intros H.
  pose proof (NoDup_remove_1 _ _ _ H) as H1.
  pose proof (NoDup_remove_2 _ _ _ H) as H2.
  rewrite in_app_iff in H2. tauto.
Qed.

Lemma uniqueIds_NoDup (seen : list BlockId) (bs : list Block) :
  uniqueIds seen bs = true ->
  NoDup (map bid bs) /\ forall b, In b (map bid bs) -> ~ In b seen.
Proof.
  revert seen. induction bs as [|x r IH]; intros seen H.
  - split; [constructor|]. intros b [].
  - cbn [uniqueIds] in H. apply andb_true_iff in H as [Hx Hr].
    apply negb_true_iff in Hx.
    destruct (IH _ Hr) as [Hnd Hfresh]. split.
    + cbn [map]. constructor; [|assumption].
      intros Hin. apply (Hfresh _ Hin). now left.
    + intros b [<-|Hin] Hseen.
      * assert (existsb (Nat.eqb (bid x)) seen = true); [|congruence].
        apply existsb_exists. exists (bid x). split; [assumption|].
        apply Nat.eqb_refl.
      * apply (Hfresh _ Hin). now right.
Qed.

End BlockLists.

(** ** Text *)

Lemma append_assoc (a b c : string) :
  String.append (String.append a b) c = String.append a (String.append b c).
Proof. induction a as [|x a IH]; cbn; [reflexivity|]. now rewrite IH. Qed.

Lemma concat_cons (x : string) (l : list string) :
  String.concat "" (x :: l) = String.append x (String.concat "" l).
Proof.
  destruct l as [|y l]; cbn [String.concat].
  - induction x as [|c x IH]; cbn; [reflexivity|]. now rewrite <- IH.
  - reflexivity.
Qed.

Lemma concat_setNth_last (x : string) (r : list string) (c : string) :
  String.concat ""
    (setNth (List.length r) (String.append (nth (List.length r) (x :: r) "") c)
       (x :: r))
  = String.append (String.concat "" (x :: r)) c.
Proof.
  revert x. induction r as [|y r IH]; intros x.
  - reflexivity.
  - cbn [List.length setNth]. rewrite !(concat_cons x).
    rewrite append_assoc, <- IH. reflexivity.
Qed.

Lemma isEmpty_false_inputs (b : Block) :
  isEmpty b = false -> exists x r, inputs b = x :: r.
Proof.
  unfold isEmpty. destruct (inputs b) as [|x r]; [discriminate|eauto].
Qed.

(** Merging appends the content of the source to that of the target. *)
Lemma mergeWith_content (source target : Block) :
  inputs target <> [] ->
  content (mergeWith source target)
  = String.append (content target) (content source).
Proof.
  intros Hne. unfold mergeWith, content, lastInput, inputText.
  destruct (inputs target) as [|x r] eqn:E; [congruence|].
  cbn [inputs set_inputs]. apply concat_setNth_last.
Qed.


(** ** Dispatch *)

(** A Backspace keydown is the Backspace handler: the key is not
    printable, so the common pre-processing does nothing, and it is not a
    slash. *)
Lemma keydown_backspace (env : Env) (event : KeyboardEvent) (w : World) :
  keyCode event = keyCodes.BACKSPACE ->
  isPrintableKey env keyCodes.BACKSPACE = false ->
  String.eqb (key event) "/" = false ->
  String.eqb (code event) "Slash" = false ->
  BlockEvents.keydown env event w = BlockEvents.backspace env event w.
Proof.
  intros Hk Hp Hkey Hcode.
  unfold BlockEvents.keydown, BlockEvents.beforeKeydownProcessing.
  rewrite Hk, Hp, Hkey, Hcode. cbn [andb Z.eqb keyCodes.BACKSPACE Pos.eqb].
  unfold bind, gets, ret.
  destruct (BlockEvents.needToolbarClosing event w); cbn [negb];
    destruct (BlockEvents.backspace env event w) as [[[]|] w'];
    reflexivity.
Qed.

(** The two scenarios of the specification. *)
Example enter_inside_text :
  let w' := snd (BlockEvents.enter Sample.env
                   (Sample.pressed keyCodes.ENTER false)
                   (Sample.world [Sample.text 0 "abcd"] 0
                      (Some (0, 0, 2)%nat))) in
  map content (blocks w') = ["ab"; "cd"] /\ currentBlockIndex w' = 1%Z.
Proof. split; reflexivity. Qed.

Example backspace_after_empty_block :
  let w' := snd (BlockEvents.backspace Sample.env
                   (Sample.pressed keyCodes.BACKSPACE false)
                   (Sample.world [Sample.text 0 ""; Sample.text 1 "xyz"] 1
                      (Some (1, 0, 0)%nat))) in
  map content (blocks w') = ["xyz"] /\ List.length (blocks w') = 1%nat.
Proof. split; reflexivity. Qed.

(** ** Toolbar visibility *)

(** C6, as amended.  The predicate answers false exactly when Shift is
    held, or the key is Tab (whether or not a toolbar is open), or the key
    is Enter while the toolbox, the block settings or the inline toolbar is
    open; it answers true for every other event. *)
Theorem needToolbarClosing_false_iff (event : KeyboardEvent) (w : World) :
  BlockEvents.needToolbarClosing event w = false <->
  (shiftKey event = true
   \/ keyCode event = keyCodes.TAB
   \/ (keyCode event = keyCodes.ENTER
       /\ (toolboxOpened w = true \/ blockSettingsOpened w = true
           \/ inlineToolbarOpened w = true))).
Proof.
  unfold BlockEvents.needToolbarClosing.
  rewrite negb_false_iff, !orb_true_iff, !andb_true_iff, !Z.eqb_eq.
  tauto.
Qed.

(** C6, as worded: a plain Tab while every toolbar is closed cycles no
    toolbar item, so the worded predicate answers true; the handler's
    predicate answers false. *)
Lemma needToolbarClosing_plain_tab_differs :
  let event := Sample.pressed keyCodes.TAB false in
  let w := Sample.world Sample.twoBlocks 0 (Some (0, 0, 0)%nat) in
  toolbarOpened w = false
  /\ UI.someToolbarOpened w = false
  /\ Worded.needsToolbarClosing event w = true
  /\ BlockEvents.needToolbarClosing event w = false.
Proof. repeat split. Qed.

(** ** Absent referents *)

Lemma delete_without_current_block (env : Env) (event : KeyboardEvent)
      (w : World) :
  BlockManager.currentBlock w = None ->
  isCollapsed w = true ->
  BlockEvents.delete env event w = (TypeError, w).
Proof.
  intros Hcur Hcol.
  unfold BlockEvents.delete, bind, gets.
  rewrite Hcur, Hcol. reflexivity.
Qed.

Lemma slashPressed_without_current_block (event : KeyboardEvent)
      (w : World) :
  BlockManager.currentBlock w = None ->
  BlockEvents.slashPressed event w = (TypeError, w).
Proof.
  intros Hcur. unfold BlockEvents.slashPressed, bind, gets.
  rewrite Hcur. reflexivity.
Qed.

Lemma dragOver_unowned_target (event : DragEvent) (w : World) :
  BlockManager.getBlockByChildNode w (target event) = None ->
  BlockEvents.dragOver event w = (TypeError, w)
  /\ BlockEvents.dragLeave event w = (TypeError, w).
Proof.
  intros Hnone. unfold BlockEvents.dragOver, BlockEvents.dragLeave, bind, gets.
  rewrite Hnone. split; reflexivity.
Qed.

(** The sibling handlers do guard the same read. *)
Lemma backspace_without_current_block (env : Env) (event : KeyboardEvent)
      (w : World) :
  BlockManager.currentBlock w = None ->
  BlockEvents.backspace env event w = (Normal tt, w)
  /\ BlockEvents.enter env event w = (Normal tt, w).
Proof.
  intros Hcur. unfold BlockEvents.backspace, BlockEvents.enter, bind, gets.
  rewrite Hcur. split; reflexivity.
Qed.

(** C2.  With no current block and a collapsed selection the Delete handler
    does not return: it reads [currentInput] of [undefined]; so does the
    Slash handler with [isEmpty], and so do drag-over and drag-leave when no
    block owns the event target, writing [dropTarget] of [undefined]. *)
Theorem absent_referent_faults :
  let w := Sample.world Sample.twoBlocks (-1) None in
  let stray := mkDrag Detached "" in
  BlockManager.currentBlock w = None
  /\ BlockManager.getBlockByChildNode w (target stray) = None
  /\ BlockEvents.delete Sample.env (Sample.pressed keyCodes.DELETE false) w
     = (TypeError, w)
  /\ BlockEvents.slashPressed (Sample.pressed 191 false) w = (TypeError, w)
  /\ BlockEvents.dragOver stray w = (TypeError, w)
  /\ BlockEvents.dragLeave stray w = (TypeError, w).
Proof. repeat split. Qed.

(** ** Backspace at the start of the document *)

Section DocumentStart.
Variable env : Env.

Lemma backspace_at_document_start (event : KeyboardEvent) (w : World)
      (cb : Block) (rest : list Block) :
  isCollapsed w = true ->
  currentBlockIndex w = 0%Z ->
  blocks w = cb :: rest ->
  currentInput cb = Some 0%nat ->
  firstInput cb = Some 0%nat ->
  caret w = Some (bid cb, 0, 0)%nat ->
  BlockEvents.backspace env event w = (Normal tt, absorbed w).
Proof.
  intros Hcol Hidx Hbs Hcur Hin Hcar.
  unfold BlockEvents.backspace, bind, gets.
  unfold BlockManager.currentBlock, BlockManager.previousBlock.
  rewrite Hidx, Hbs.
  cbn [BlockManager.nthZ Z.ltb Z.compare Z.sub Z.add Z.opp Z.to_nat
       nth_error Z.pos_sub].
  rewrite Hcol. cbn [negb].
  unfold caretUtils.isCaretAtStartOfInput.
  rewrite Hcur, Hcar, !Nat.eqb_refl.
  cbn [BlockEvents.defined negb andb orb].
  rewrite Hin. reflexivity.
Qed.

(** C8.  Backspace pressed any number of times with a collapsed selection
    and the caret at the very start of the first input of the very first
    block: every press returns, and the block sequence (hence every
    block's content), the current index and the caret are as before. *)
Theorem backspace_at_document_start_idempotent
        (event : KeyboardEvent) (n : nat) (w : World)
        (cb : Block) (rest : list Block) :
  isCollapsed w = true ->
  currentBlockIndex w = 0%Z ->
  blocks w = cb :: rest ->
  currentInput cb = Some 0%nat ->
  firstInput cb = Some 0%nat ->
  caret w = Some (bid cb, 0, 0)%nat ->
  exists w',
    times n (BlockEvents.backspace env event) w = (Normal tt, w')
    /\ blocks w' = blocks w
    /\ currentBlockIndex w' = currentBlockIndex w
    /\ caret w' = caret w
    /\ isCollapsed w' = isCollapsed w.
Proof.
  revert w. induction n as [|n IH]; intros w Hcol Hidx Hbs Hcur Hin Hcar.
  - exists w. repeat split.
  - destruct (IH (absorbed w)) as (w' & Hrun & Hb & Hi & Hc & Hs);
      try assumption.
    exists w'. cbn [times]. unfold bind at 1.
    rewrite (backspace_at_document_start event w cb rest); try assumption.
    rewrite Hrun. repeat split; assumption.
Qed.
End DocumentStart.

Lemma backspace_at_document_start_idempotent_witness :
exists w',
  times 3 (BlockEvents.backspace Sample.env
             (Sample.pressed keyCodes.BACKSPACE false))
    (Sample.world Sample.twoBlocks 0 (Some (0, 0, 0)%nat))
  = (Normal tt, w')
  /\ blocks w' = Sample.twoBlocks
  /\ currentBlockIndex w' = 0%Z
  /\ caret w' = Some (0, 0, 0)%nat
  /\ isCollapsed w' = true.
Proof.
apply (backspace_at_document_start_idempotent Sample.env
         (Sample.pressed keyCodes.BACKSPACE false) 3
         (Sample.world Sample.twoBlocks 0 (Some (0, 0, 0)%nat))
         (Sample.text 0 "ab") [Sample.text 1 "xyz"]);
  reflexivity.
Defined.

(** ** Arrows and cross-block selection *)

Section Arrows.
Variable env : Env.

(** C4, as amended.  Shift+Down with the caret at the end of the focused
    input, or with some block already selected: the toolbar is closed,
    the event goes to toggleBlockSelectedState, and that is all; no caret
    call is made, and the caret, the text of every block and the current
    index stay as they were.  Shift+Right is not part of this path. *)
Theorem shift_down_extends_selection (event : KeyboardEvent) (w : World) :
  shiftKey event = true ->
  keyCode event = keyCodes.DOWN ->
  caretAtEndOfCurrentInput w || BlockSelection.anyBlockSelected w = true ->
  exists w',
    BlockEvents.arrowRightAndDown env event w = (Normal tt, w')
    /\ newCalls w w'
       = [Toolbar_close; CrossBlockSelection_toggleBlockSelectedState true]
    /\ existsb isCaretCall (newCalls w w') = false
    /\ caret w' = caret w
    /\ map inputs (blocks w') = map inputs (blocks w)
    /\ currentBlockIndex w' = currentBlockIndex w.
Proof.
  intros Hshift Hkey Hcbs.
  exists (log (CrossBlockSelection_toggleBlockSelectedState true)
            (set_toolbarOpened false (log Toolbar_close w))).
  assert (Hrun : BlockEvents.arrowRightAndDown env event w
                 = (Normal tt,
                    log (CrossBlockSelection_toggleBlockSelectedState true)
                      (set_toolbarOpened false (log Toolbar_close w)))).
  { unfold BlockEvents.arrowRightAndDown.
    rewrite Hshift, Hkey. cbn [negb orb].
    replace (keyCodes.DOWN =? keyCodes.TAB)%Z with false by reflexivity.
    rewrite andb_false_r.
    unfold bind, gets. rewrite andb_false_r.
    cbn [Toolbar.close bind call modify fst snd].
    unfold Toolbar.close, bind, call, modify.
    cbn [andb Z.eqb keyCodes.DOWN Pos.eqb].
    unfold caretAtEndOfCurrentInput in Hcbs.
    unfold BlockManager.currentBlock in *.
    cbn [blocks currentBlockIndex set_toolbarOpened log].
    unfold BlockSelection.anyBlockSelected in *.
    cbn [blocks set_toolbarOpened log].
    destruct (BlockManager.nthZ (blocks w) (currentBlockIndex w)) as [cb|].
    - unfold caretUtils.isCaretAtEndOfInput in *.
      cbn [caret set_toolbarOpened log].
      destruct (currentInput cb); cbn [BlockEvents.defined];
        rewrite Hcbs; reflexivity.
    - rewrite Hcbs. reflexivity. }
  split; [exact Hrun|].
  assert (Hcalls : newCalls w
            (log (CrossBlockSelection_toggleBlockSelectedState true)
               (set_toolbarOpened false (log Toolbar_close w)))
          = [Toolbar_close;
             CrossBlockSelection_toggleBlockSelectedState true]).
  { apply newCalls_app. cbn. rewrite <- app_assoc. reflexivity. }
  rewrite Hcalls. repeat split.
Qed.
End Arrows.

Lemma shift_down_extends_selection_witness :
exists w',
  BlockEvents.arrowRightAndDown Sample.env
    (Sample.pressed keyCodes.DOWN true)
    (Sample.world Sample.twoBlocks 0 (Some (0, 0, 2)%nat))
  = (Normal tt, w')
  /\ newCalls (Sample.world Sample.twoBlocks 0 (Some (0, 0, 2)%nat)) w'
     = [Toolbar_close; CrossBlockSelection_toggleBlockSelectedState true]
  /\ existsb isCaretCall
       (newCalls (Sample.world Sample.twoBlocks 0 (Some (0, 0, 2)%nat)) w')
     = false
  /\ caret w' = Some (0, 0, 2)%nat
  /\ map inputs (blocks w') = map inputs Sample.twoBlocks
  /\ currentBlockIndex w' = 0%Z.
Proof.
apply (shift_down_extends_selection Sample.env
         (Sample.pressed keyCodes.DOWN true)
         (Sample.world Sample.twoBlocks 0 (Some (0, 0, 2)%nat)));
  reflexivity.
Defined.

(** C4, as worded: Shift+Right in a left-to-right layout with the caret at
  the end of its input is a forward arrow, yet the handler does not
  delegate; it asks the caret service to navigate, and the caret moves
  into the next block. *)
Lemma shift_right_moves_caret :
let event := Sample.pressed keyCodes.RIGHT true in
let w := Sample.world Sample.twoBlocks 0 (Some (0, 0, 2)%nat) in
let w' := snd (BlockEvents.arrowRightAndDown Sample.env event w) in
Worded.isShiftForwardArrow Sample.env event = true
/\ caretAtEndOfCurrentInput w = true
/\ UI.someToolbarOpened w = false
/\ newCalls w w'
   = [Toolbar_close; Caret_navigateNext false; Event_preventDefault]
/\ caret w = Some (0, 0, 2)%nat
/\ caret w' = Some (1, 0, 0)%nat
/\ currentBlockIndex w' = 1%Z.
Proof. repeat split. Qed.


(** ** Tab *)

Lemma setToBlock_w_trace (b : BlockId) (p : Position) (w : World) :
  trace (Caret.setToBlock_w b p w) = trace w.
Proof.
  unfold Caret.setToBlock_w.
  destruct (BlockManager.findBlock b (blocks w)); reflexivity.
Qed.

Lemma navigateNext_w_trace (f : bool) (w : World) :
  trace (snd (Caret.navigateNext_w f w)) = trace w.
Proof.
  unfold Caret.navigateNext_w.
  destruct (BlockManager.currentBlock w) as [cb|]; [|reflexivity].
  destruct (f || _); [|reflexivity].
  destruct (match currentInput cb with Some _ => _ | None => _ end);
    [reflexivity|].
  destruct (BlockManager.nextBlock w); [|reflexivity].
  apply setToBlock_w_trace.
Qed.

Lemma navigatePrevious_w_trace (f : bool) (w : World) :
  trace (snd (Caret.navigatePrevious_w f w)) = trace w.
Proof.
  unfold Caret.navigatePrevious_w.
  destruct (BlockManager.currentBlock w) as [cb|]; [|reflexivity].
  destruct (f || _); [|reflexivity].
  destruct (match currentInput cb with Some _ => _ | None => _ end);
    [reflexivity|].
  destruct (BlockManager.previousBlock w); [|reflexivity].
  apply setToBlock_w_trace.
Qed.

(** C5, as amended.  When the inline toolbar is open the handler does
    nothing at all, so the current index cannot change.  Otherwise,
    whatever other overlay is open, it asks the caret service for the
    previous input (Shift+Tab) or the next one (Tab), and calls
    preventDefault exactly when the service answers that the focus
    moved. *)
Theorem tabPressed_navigates (event : KeyboardEvent) (w : World) :
  exists w',
    BlockEvents.tabPressed event w = (Normal tt, w')
    /\ w' = (if inlineToolbarOpened w then w
             else if fst (tabNavigation event w)
                  then log Event_preventDefault (snd (tabNavigation event w))
                  else snd (tabNavigation event w))
    /\ newCalls w w'
       = (if inlineToolbarOpened w then []
          else (if shiftKey event then Caret_navigatePrevious true
                else Caret_navigateNext true)
               :: (if fst (tabNavigation event w)
                   then [Event_preventDefault] else [])).
Proof.
  unfold BlockEvents.tabPressed, bind, gets.
  destruct (inlineToolbarOpened w).
  - exists w. repeat split. apply newCalls_same.
  - unfold tabNavigation. destruct (shiftKey event).
    + unfold Caret.navigatePrevious, bind, call, modify.
      pose proof (navigatePrevious_w_trace true
                    (log (Caret_navigatePrevious true) w)) as Htr.
      destruct (Caret.navigatePrevious_w true
                  (log (Caret_navigatePrevious true) w)) as [moved w1].
      cbn [fst snd] in *.
      destruct moved; eexists; (split; [reflexivity|]);
        (split; [reflexivity|]); apply newCalls_app; cbn; rewrite Htr; cbn;
        rewrite <- ?app_assoc; reflexivity.
    + unfold Caret.navigateNext, bind, call, modify.
      pose proof (navigateNext_w_trace true
                    (log (Caret_navigateNext true) w)) as Htr.
      destruct (Caret.navigateNext_w true
                  (log (Caret_navigateNext true) w)) as [moved w1].
      cbn [fst snd] in *.
      destruct moved; eexists; (split; [reflexivity|]);
        (split; [reflexivity|]); apply newCalls_app; cbn; rewrite Htr; cbn;
        rewrite <- ?app_assoc; reflexivity.
Qed.

(** C5, as worded: the toolbox is open and a button of its flipper holds
    the focus, the inline toolbar is closed.  Tab still navigates: the
    caret service is called and the current index goes from 0 to 1. *)
Lemma tab_navigates_under_open_toolbox :
  let event := Sample.pressed keyCodes.TAB false in
  let w := mkWorld Sample.twoBlocks 0 100 (Some (0, 0, 0)%nat) true true
             true true false false true [] in
  let w' := snd (BlockEvents.tabPressed event w) in
  Worded.overlayConsumesTab w = true
  /\ toolboxOpened w = true
  /\ newCalls w w' = [Caret_navigateNext true; Event_preventDefault]
  /\ currentBlockIndex w = 0%Z
  /\ currentBlockIndex w' = 1%Z.
Proof. repeat split. Qed.

(** ** Drop *)

Section Drop.
Import DragNDrop BlockManager.

Lemma resolveDropTarget_total (e : DragEvent) (w : World) :
  blocks w <> [] -> exists tb, resolveDropTarget e w = Some tb.
Proof.
  intros Hne. unfold resolveDropTarget.
  destruct (getBlockByChildNode w (target e)); [eauto|].
  now apply lastBlock_nonempty.
Qed.

Lemma resolveDropTarget_In (e : DragEvent) (w : World) (tb : Block) :
  resolveDropTarget e w = Some tb -> In tb (blocks w).
Proof.
  unfold resolveDropTarget, getBlockByChildNode.
  destruct (target e) as [o|].
  - destruct (findBlock o (blocks w)) eqn:E.
    + intros [= <-]. now apply findBlock_Some in E.
    + apply nthZ_In.
  - apply nthZ_In.
Qed.

(** The drop, run: where it lands, which calls it makes, and the world
    it leaves. *)
Lemma processDrop_run (e : DragEvent) (self : Self) (w : World)
      (tb : Block) :
  resolveDropTarget e w = Some tb ->
  exists fb w',
    processDrop e (self, w) = (Normal tt, (mkSelf false, w'))
    /\ findBlock (bid tb) (blocks w) = Some fb
    /\ trace w' = trace w ++ dropCalls e self w tb
    /\ caret w' = Caret.blockPosition fb END
    /\ currentBlockIndex w' = indexZ (bid tb) (blocks w)
    /\ blocks w'
       = updateBlock (bid tb) (set_currentInput (lastInput fb))
           (map (set_dropTarget false) (blocks w)).
Proof.
  intros Hres.
  pose proof (resolveDropTarget_In e w tb Hres) as Hin.
  destruct (findBlock_In _ _ Hin) as (fb & Hfb & Hbid).
  exists fb.
  assert (Hmap : forall b, findBlock b (map (set_dropTarget false) (blocks w))
                 = option_map (set_dropTarget false) (findBlock b (blocks w)))
    by (intros b; apply findBlock_map; reflexivity).
  assert (Hidx : forall b, indexZ b (map (set_dropTarget false) (blocks w))
                 = indexZ b (blocks w)).
  { intros b. unfold indexZ. rewrite indexOf_map; reflexivity. }
  unfold dropCalls, ownsTarget, deletesDragged.
  unfold resolveDropTarget in Hres.
  runM.
  destruct (isAtEditor w && negb (isCollapsed w) && isStartedAtEditor self);
    runM; unfold getBlockByChildNode in *; runM.
  all: destruct (target e) as [o|] eqn:Et.
  all: try (rewrite Hmap; destruct (findBlock o (blocks w)) as [ob|] eqn:Eo;
            [ injection Hres as ->;
              pose proof (proj2 (findBlock_Some _ _ _ Eo)) as Ho; subst o;
              rewrite Hfb in Eo; injection Eo as -> | ]).
  all: cbn [option_map]; runM.
  all: try (rewrite (lastBlock_map (set_dropTarget false) _ w)
              by reflexivity;
            rewrite Hres; cbn [option_map]; runM;
            cbn [holder bid set_dropTarget]; runM;
            rewrite Hmap, Hfb; cbn [option_map]; runM).
  all: eexists; (split; [reflexivity|]).
  all: unfold Caret.setToBlock_w; cbn [bid set_dropTarget]; runM;
    rewrite ?Hbid, Hmap, Hfb; cbn [option_map]; runM.
  all: rewrite ?Hidx, <- ?app_assoc; cbn [app].
  all: repeat split.
  all: f_equal; f_equal; unfold Caret.inputOf, Caret.blockPosition, lastInput;
    cbn [inputs set_dropTarget]; destruct (inputs _); reflexivity.
Qed.

(** C7.  On every drop over a non-empty, duplicate-free block list: the
    handler completes; it calls preventDefault; the selection is deleted
    exactly when the selection is in the editor, is not collapsed and the
    drag started in the editor, and this comes before anything else is
    resolved; the target block is the owner of the event target, or the
    last block when no block owns it; and the hand-over of the payload to
    the paste module is the last step.  It is made in a world in which
    every block has its drop-target flag cleared, the target block is the
    current one and the caret is at the end of it. *)
Theorem processDrop_steps (e : DragEvent) (self : Self) (w : World) :
  blocks w <> [] ->
  NoDup (map bid (blocks w)) ->
  exists tb w1 w',
    processDrop e (self, w) = (Normal tt, (mkSelf false, w'))
    /\ resolveDropTarget e w = Some tb
    /\ newCalls w w' = dropCalls e self w tb
    /\ Paste.processDataTransfer (dataTransfer e) true w1 = (Normal tt, w')
    /\ Forall (fun b => dropTarget b = false) (blocks w1)
    /\ exists cur,
         currentBlock w1 = Some cur
         /\ bid cur = bid tb
         /\ caret w1 = Caret.blockPosition cur END.
Proof.
  intros Hne Hnd.
  destruct (resolveDropTarget_total e w Hne) as (tb & Hres).
  destruct (processDrop_run e self w tb Hres)
    as (fb & w' & Hrun & Hfb & Htr & Hcar & Hidx & Hbs).
  pose proof (resolveDropTarget_In e w tb Hres) as Hin.
  rewrite (findBlock_NoDup _ _ Hnd Hin) in Hfb. injection Hfb as <-.
  assert (Hf : findBlock (bid tb) (blocks w')
               = Some (set_currentInput (lastInput tb)
                         (set_dropTarget false tb))).
  { rewrite Hbs. unfold updateBlock. rewrite map_map.
    rewrite (findBlock_map _ (bid tb) (blocks w)).
    - rewrite (findBlock_NoDup _ _ Hnd Hin).
      cbn [option_map bid set_dropTarget].
      rewrite Nat.eqb_refl. reflexivity.
    - intros x. cbn [bid set_dropTarget].
      destruct (Nat.eqb (bid x) (bid tb)); reflexivity. }
  assert (Hcur : currentBlock w'
                 = Some (set_currentInput (lastInput tb)
                           (set_dropTarget false tb))).
  { apply (currentBlock_at_indexZ w' (bid tb) _ Hf).
    rewrite Hidx, Hbs. unfold indexZ, updateBlock. rewrite map_map.
    rewrite indexOf_map; [reflexivity|].
    intros x. cbn [bid set_dropTarget].
    destruct (Nat.eqb (bid x) (bid tb)); reflexivity. }
  set (front := Event_preventDefault
                  :: (if deletesDragged self w
                      then [document_execCommand_delete] else [])
                  ++ BlockManager_setCurrentBlockByChildNode (target e)
                  :: (if ownsTarget e w then []
                      else [BlockManager_setCurrentBlockByChildNode
                              (holder tb)])
                  ++ [Caret_setToBlock (bid tb) END]).
  assert (Hdc : dropCalls e self w tb
                = front
                  ++ [Paste_processDataTransfer (dataTransfer e) true]).
  { unfold dropCalls, front.
    destruct (deletesDragged self w), (ownsTarget e w); reflexivity. }
  exists tb,
    (mkWorld (blocks w') (currentBlockIndex w') (nextId w') (caret w')
       (isCollapsed w') (isAtEditor w') (toolbarOpened w') (toolboxOpened w')
       (blockSettingsOpened w') (inlineToolbarOpened w')
       (someFlipperButtonFocused w') (trace w ++ front)),
    w'.
  split; [exact Hrun|]. split; [exact Hres|].
  split; [now apply newCalls_app|].
  split.
  { unfold Paste.processDataTransfer, call, modify, log. projW.
    f_equal. rewrite <- app_assoc, <- Hdc, <- Htr.
    destruct w'; reflexivity. }
  split.
  { projW. rewrite Hbs. unfold updateBlock. rewrite map_map.
    apply Forall_forall. intros x Hx. apply in_map_iff in Hx as (y & <- & _).
    cbn [bid set_dropTarget].
    destruct (Nat.eqb (bid y) (bid tb)); reflexivity. }
  exists (set_currentInput (lastInput tb) (set_dropTarget false tb)).
  split; [exact Hcur|]. split; [reflexivity|].
  projW. exact Hcar.
Qed.

(** C9.  Whatever the private flag says about where the drag started,
    a drop makes exactly one call to the paste module, as its last call,
    with the event's payload and the flag true. *)
Theorem processDrop_always_internal (e : DragEvent) (self : Self)
        (w : World) :
  blocks w <> [] ->
  exists w' pre,
    processDrop e (self, w) = (Normal tt, (mkSelf false, w'))
    /\ newCalls w w'
       = pre ++ [Paste_processDataTransfer (dataTransfer e) true]
    /\ existsb isPasteCall pre = false.
Proof.
  intros Hne.
  destruct (resolveDropTarget_total e w Hne) as (tb & Hres).
  destruct (processDrop_run e self w tb Hres)
    as (fb & w' & Hrun & _ & Htr & _).
  exists w'.
  exists (Event_preventDefault
            :: (if deletesDragged self w
                then [document_execCommand_delete] else [])
            ++ BlockManager_setCurrentBlockByChildNode (target e)
            :: (if ownsTarget e w then []
                else [BlockManager_setCurrentBlockByChildNode (holder tb)])
            ++ [Caret_setToBlock (bid tb) END]).
  split; [assumption|]. split.
  - rewrite (newCalls_app _ _ _ Htr). unfold dropCalls.
    destruct (deletesDragged self w), (ownsTarget e w); reflexivity.
  - destruct (deletesDragged self w), (ownsTarget e w); reflexivity.
Qed.
End Drop.

Lemma processDrop_steps_witness :
  let e := mkDrag Detached "payload" in
  let w := Sample.world Sample.twoBlocks 0 (Some (0, 0, 0)%nat) in
  exists tb w1 w',
    DragNDrop.processDrop e (DragNDrop.mkSelf true, w)
    = (Normal tt, (DragNDrop.mkSelf false, w'))
    /\ resolveDropTarget e w = Some tb
    /\ newCalls w w' = dropCalls e (DragNDrop.mkSelf true) w tb
    /\ Paste.processDataTransfer "payload" true w1 = (Normal tt, w')
    /\ Forall (fun b => dropTarget b = false) (blocks w1)
    /\ exists cur,
         BlockManager.currentBlock w1 = Some cur
         /\ bid cur = bid tb
         /\ caret w1 = Caret.blockPosition cur END.
Proof.
  intros e w.
  apply (processDrop_steps e (DragNDrop.mkSelf true) w).
  - discriminate.
  - apply (uniqueIds_NoDup []). reflexivity.
Defined.

Lemma processDrop_always_internal_witness :
  exists w' pre,
    DragNDrop.processDrop (mkDrag (ChildOf 0) "payload")
      (DragNDrop.mkSelf false,
       Sample.world Sample.twoBlocks 1 (Some (1, 0, 0)%nat))
    = (Normal tt, (DragNDrop.mkSelf false, w'))
    /\ newCalls (Sample.world Sample.twoBlocks 1 (Some (1, 0, 0)%nat)) w'
       = pre ++ [Paste_processDataTransfer "payload" true]
    /\ existsb isPasteCall pre = false.
Proof.
  apply (processDrop_always_internal (mkDrag (ChildOf 0) "payload")
           (DragNDrop.mkSelf false)
           (Sample.world Sample.twoBlocks 1 (Some (1, 0, 0)%nat))).
  discriminate.
Defined.

(** ** The internal-drag flag *)
Section DragFlag.
Import DragNDrop DragSession.

Lemma processDragStart_flag (s : St) :
  flag (snd (processDragStart s)) = selectionInEditor s || flag s.
Proof.
  destruct s as [[f] w]. unfold flag, selectionInEditor. runM.
  destruct (isAtEditor w && negb (isCollapsed w)); reflexivity.
Qed.

(** Every drop resets the flag, also one that does not complete. *)
Lemma processDrop_resets (e : DragEvent) (s : St) :
  flag (snd (processDrop e s)) = false.
Proof.
  destruct s as [self w]. unfold flag. runM.
  destruct (isAtEditor w && negb (isCollapsed w) && isStartedAtEditor self);
    runM;
    (destruct (BlockManager.getBlockByChildNode _ (target e)); runM;
     [reflexivity|]);
    (destruct (BlockManager.lastBlock _) as [lb|]; runM; [|reflexivity]);
    (destruct (BlockManager.getBlockByChildNode _ (holder lb)); runM;
     reflexivity).
Qed.

Lemma step_sets_flag (ev : Event) (s : St) :
  flag s = false -> flag (step ev s) = true ->
  ev = DragStarted /\ selectionInEditor s = true.
Proof.
  intros Hoff Hon. destruct ev as [|e|e|f]; cbn [step] in Hon.
  - rewrite processDragStart_flag, Hoff, orb_false_r in Hon. auto.
  - rewrite processDrop_resets in Hon. discriminate.
  - destruct s as [self w]. unfold flag in *. cbn in *. congruence.
  - destruct s as [self w]. unfold flag in *. cbn in *. congruence.
Qed.

Lemma run_app (l1 l2 : list Event) (s : St) :
  run (l1 ++ l2) s = run l2 (run l1 s).
Proof. revert s. induction l1; intros s; cbn; auto. Qed.

Lemma flag_has_origin (evs : list Event) (s0 : St) :
  flag s0 = false ->
  flag (run evs s0) = true ->
  exists pre post,
    evs = pre ++ DragStarted :: post
    /\ selectionInEditor (run pre s0) = true
    /\ existsb isDrop post = false.
Proof.
  intros Hoff. induction evs as [|ev evs IH] using rev_ind; intros Hon.
  - cbn in Hon. congruence.
  - rewrite run_app in Hon. cbn [run] in Hon.
    destruct (flag (run evs s0)) eqn:Hprev.
    + destruct (IH eq_refl) as (pre & post & -> & Hsel & Hnd).
      exists pre, (post ++ [ev]). rewrite <- app_assoc. repeat split; auto.
      rewrite existsb_app, Hnd. cbn. rewrite orb_false_r.
      destruct ev; try reflexivity.
      cbn [step] in Hon. rewrite processDrop_resets in Hon. discriminate.
    + destruct (step_sets_flag _ _ Hprev Hon) as [-> Hsel].
      exists evs, []. repeat split; auto.
Qed.

Lemma deletesSelection_needs_flag (e : DragEvent) (s : St) :
  deletesSelection e s = true -> flag s = true.
Proof.
  destruct s as [self w]. unfold deletesSelection, flag. cbn [fst snd].
  destruct (isStartedAtEditor self) eqn:Hf; [reflexivity|].
  intros H. exfalso. revert H.
  assert (Hnc : forall w1 w2 l, trace w2 = trace w1 ++ l ->
                existsb isExecDelete l = false ->
                existsb isExecDelete (newCalls w1 w2) = true -> False).
  { intros w1 w2 l Ht Hl. unfold newCalls. rewrite Ht.
    rewrite skipn_app, skipn_all, Nat.sub_diag. cbn. congruence. }
  runM. rewrite Hf, andb_false_r. runM.
  destruct (BlockManager.getBlockByChildNode _ (target e)); runM.
  - unfold Caret.setToBlock_w. runM.
    destruct (BlockManager.findBlock _ _); runM;
      (eapply Hnc; [runM; rewrite <- ?app_assoc; reflexivity | reflexivity]).
  - destruct (BlockManager.lastBlock _) as [lb|]; runM.
    + destruct (BlockManager.getBlockByChildNode _ (holder lb)); runM.
      * unfold Caret.setToBlock_w. runM.
        destruct (BlockManager.findBlock _ _); runM;
          (eapply Hnc; [runM; rewrite <- ?app_assoc; reflexivity | reflexivity]).
      * (eapply Hnc; [runM; rewrite <- ?app_assoc; reflexivity | reflexivity]).
    + (eapply Hnc; [runM; rewrite <- ?app_assoc; reflexivity | reflexivity]).
Qed.

(** C10.  The flag goes from false to true only in a drag-start that
    finds a non-collapsed selection inside the editor; every drop leaves
    it false; hence, starting with the flag down (as it is initially and
    after any drop), a drop runs the delete-the-selection branch only if
    such a drag-start happened before it with no drop in between. *)
Theorem internal_drag_flag :
  (forall ev s, flag s = false -> flag (step ev s) = true ->
                ev = DragStarted /\ selectionInEditor s = true)
  /\ (forall e s, flag (step (Dropped e) s) = false)
  /\ (forall evs e s0,
        flag s0 = false ->
        deletesSelection e (run evs s0) = true ->
        exists pre post,
          evs = pre ++ DragStarted :: post
          /\ selectionInEditor (run pre s0) = true
          /\ existsb isDrop post = false).
Proof.
  split; [exact step_sets_flag|]. split.
  - intros e s. cbn [step]. apply processDrop_resets.
  - intros evs e s0 Hoff Hdel.
    apply flag_has_origin; [assumption|].
    now apply (deletesSelection_needs_flag e).
Qed.
End DragFlag.

Lemma internal_drag_flag_witness :
let selecting :=
  mkWorld Sample.twoBlocks 0 100 (Some (0, 0, 0)%nat) false true
    false false false false false [] in
let evs := [DragSession.DragStarted; DragSession.Other (fun w => w)] in
let s0 := (DragNDrop.mkSelf false, selecting) in
exists pre post,
  evs = pre ++ DragSession.DragStarted :: post
  /\ selectionInEditor (DragSession.run pre s0) = true
  /\ existsb DragSession.isDrop post = false.
Proof.
intros selecting evs s0.
apply (proj2 (proj2 internal_drag_flag) evs (mkDrag (ChildOf 1) "payload")
         s0); reflexivity.
Defined.

(** ** Removal and merge in the store *)

Lemma removeAt_w_caret (t : Tool) (n : nat) (w : World) :
caret (removeAt_w t n w) = caret w.
Proof.
unfold removeAt_w. destruct (removeAt n (blocks w)); reflexivity.
Qed.

Lemma removeBlock_w_caret (t : Tool) (b : BlockId) (w : World) :
caret (removeBlock_w t b w) = caret w.
Proof.
unfold removeBlock_w. destruct (indexOf b (blocks w)); [|reflexivity].
apply removeAt_w_caret.
Qed.

Lemma mergeBlocks_w_caret (t : Tool) (a b : BlockId) (w : World) :
caret (mergeBlocks_w t a b w) = caret w.
Proof.
unfold mergeBlocks_w.
destruct (findBlock a (blocks w)) as [tb|]; [|reflexivity].
destruct (findBlock b (blocks w)); [|reflexivity].
destruct (lastInput tb); [|reflexivity].
cbn [caret set_currentBlockIndex]. rewrite removeBlock_w_caret. reflexivity.
Qed.

Lemma removeBlock_w_middle (t : Tool) (w : World) (pre post : list Block)
    (x : Block) :
blocks w = pre ++ x :: post ->
~ In (bid x) (map bid pre) ->
pre ++ post <> [] ->
blocks (removeBlock_w t (bid x) w) = pre ++ post.
Proof.
intros Hbs Hpre Hne. unfold removeBlock_w.
rewrite Hbs, (indexOf_middle (bid x) pre post x Hpre eq_refl).
unfold removeAt_w. rewrite Hbs, removeAt_middle.
destruct (pre ++ post) eqn:E; [congruence|]. reflexivity.
Qed.

(** Merging a block into its predecessor. *)
Lemma mergeBlocks_w_adjacent (t : Tool) (w : World) (pre post : list Block)
    (pb cb : Block) :
blocks w = pre ++ pb :: cb :: post ->
NoDup (map bid (blocks w)) ->
inputs pb <> [] ->
blocks (mergeBlocks_w t (bid pb) (bid cb) w) = pre ++ mergeWith cb pb :: post
/\ currentBlockIndex (mergeBlocks_w t (bid pb) (bid cb) w)
   = Z.of_nat (List.length pre).
Proof.
intros Hbs Hnd Hin. rewrite Hbs in Hnd.
destruct (NoDup_middle pre (cb :: post) pb Hnd) as (Hp1 & Hp2 & Hnd').
destruct (NoDup_middle pre post cb Hnd') as (Hc1 & Hc2 & _).
assert (Hne : bid pb <> bid cb).
{ intros E. apply Hp2. cbn [map In]. now left. }
assert (Hmid : ~ In (bid cb) (map bid (pre ++ [mergeWith cb pb]))).
{ rewrite map_app, in_app_iff. cbn [map In].
  assert (bid (mergeWith cb pb) = bid pb)
    by (unfold mergeWith; destruct (lastInput pb); reflexivity).
  intros [H1|[H1|[]]]; [tauto|congruence]. }
assert (Hbm : bid (mergeWith cb pb) = bid pb)
  by (unfold mergeWith; destruct (lastInput pb); reflexivity).
unfold mergeBlocks_w.
rewrite Hbs, (findBlock_middle (bid pb) pre (cb :: post) pb Hp1 eq_refl).
replace (pre ++ pb :: cb :: post) with ((pre ++ [pb]) ++ cb :: post)
  by (rewrite <- app_assoc; reflexivity).
rewrite (findBlock_middle (bid cb) (pre ++ [pb]) post cb).
2:{ rewrite map_app, in_app_iff. cbn [map In].
    intros [H1|[H1|[]]]; [tauto|congruence]. }
2: reflexivity.
destruct (lastInput pb) eqn:El.
2:{ unfold lastInput in El. destruct (inputs pb); congruence. }
set (w1 := set_blocks (updateBlock (bid pb) (mergeWith cb)) w).
assert (Hb1 : blocks w1 = (pre ++ [mergeWith cb pb]) ++ cb :: post).
{ subst w1. cbn [blocks set_blocks]. rewrite Hbs.
  rewrite (updateBlock_middle (bid pb) _ pre (cb :: post) pb Hp1 Hp2 eq_refl).
  rewrite <- app_assoc. reflexivity. }
assert (Hb2 : blocks (removeBlock_w t (bid cb) w1)
              = (pre ++ [mergeWith cb pb]) ++ post).
{ apply removeBlock_w_middle; try assumption.
  destruct pre; discriminate. }
cbn [blocks currentBlockIndex set_currentBlockIndex].
rewrite Hb2, <- app_assoc. split; [reflexivity|].
unfold indexZ. cbn [app].
rewrite (indexOf_middle (bid pb) pre post (mergeWith cb pb) Hp1 Hbm).
reflexivity.
Qed.

Lemma setToBlock_w_found (b : BlockId) (p : Position) (w : World)
    (blk : Block) :
findBlock b (blocks w) = Some blk ->
Caret.setToBlock_w b p w
= set_caret (Caret.blockPosition blk p)
    (set_currentBlockIndex (indexZ b (blocks w))
       (set_blocks
          (updateBlock b
             (set_currentInput (Caret.inputOf (Caret.blockPosition blk p))))
          w)).
Proof. intros H. unfold Caret.setToBlock_w. rewrite H. reflexivity. Qed.

Lemma inputOf_END (b : Block) :
Caret.inputOf (Caret.blockPosition b END) = lastInput b.
Proof.
unfold Caret.inputOf, Caret.blockPosition.
destruct (lastInput b); reflexivity.
Qed.

(** ** Backspace between two blocks *)

Section Backspace.
Variable env : Env.

(** C1.  Backspace with a collapsed selection and the caret at the start
    of the first input of [cb], whose predecessor [pb] and which itself
    are not empty.  If the two are mergeable, [cb] is merged into [pb]:
    the merged block stands where [pb] stood, its content is the content
    of [pb] followed by that of [cb], and there is one block less.  If
    they are not, no block is removed or changes content, and besides
    the closing of the toolbar that precedes every case the only effect
    is that the caret goes to the end of [pb], which becomes current. *)
Theorem backspace_merges_or_moves (event : KeyboardEvent) (w : World)
        (pre post : list Block) (pb cb : Block) :
  blocks w = pre ++ pb :: cb :: post ->
  currentBlockIndex w = Z.of_nat (S (List.length pre)) ->
  NoDup (map bid (blocks w)) ->
  isCollapsed w = true ->
  currentInput cb = Some 0%nat ->
  caret w = Some (bid cb, 0, 0)%nat ->
  isEmpty pb = false ->
  isEmpty cb = false ->
  exists w',
    BlockEvents.backspace env event w = (Normal tt, w')
    /\ caret w' = Caret.blockPosition pb END
    /\ currentBlockIndex w' = Z.of_nat (List.length pre)
    /\ if areBlocksMergeable env pb cb then
         blocks w' = pre ++ mergeWith cb pb :: post
         /\ content (mergeWith cb pb)
            = String.append (content pb) (content cb)
         /\ S (List.length (blocks w')) = List.length (blocks w)
       else
         blocks w' = pre ++ set_currentInput (lastInput pb) pb :: cb :: post
         /\ map inputs (blocks w') = map inputs (blocks w)
         /\ List.length (blocks w') = List.length (blocks w)
         /\ newCalls w w'
            = [Event_preventDefault; Toolbar_close;
               Caret_setToBlock (bid pb) END].
Proof.
  intros Hbs Hidx Hnd Hcol Hcur Hcar Hpb Hcb.
  destruct (isEmpty_false_inputs _ Hpb) as (px & pr & Hpin).
  destruct (isEmpty_false_inputs _ Hcb) as (cx & cr & Hcin).
  rewrite Hbs in Hnd.
  destruct (NoDup_middle pre (cb :: post) pb Hnd) as (Hp1 & Hp2 & Hnd').
  destruct (NoDup_middle pre post cb Hnd') as (Hc1 & Hc2 & _).
  assert (Hne : bid pb <> bid cb).
  { intros E. apply Hp2. cbn [map In]. now left. }
  assert (Hp3 : ~ In (bid pb) (map bid post)).
  { intros Hin. apply Hp2. cbn [map In]. now right. }
  assert (Hcurb : currentBlock w = Some cb).
  { unfold currentBlock. rewrite Hbs, Hidx.
    replace (pre ++ pb :: cb :: post) with ((pre ++ [pb]) ++ cb :: post)
      by (rewrite <- app_assoc; reflexivity).
    replace (S (List.length pre)) with (List.length (pre ++ [pb]))
      by (rewrite length_app; cbn; lia).
    apply nthZ_middle. }
  assert (Hprevb : previousBlock w = Some pb).
  { unfold previousBlock. rewrite Hbs, Hidx.
    replace (Z.of_nat (S (List.length pre)) - 1)%Z
      with (Z.of_nat (List.length pre)) by lia.
    apply nthZ_middle. }
  assert (Hfp : findBlock (bid pb) (blocks w) = Some pb).
  { rewrite Hbs. now apply findBlock_middle. }
  runB. rewrite Hcurb, Hprevb. runB. rewrite Hcol. do 2 runB.
  unfold caretUtils.isCaretAtStartOfInput. rewrite Hcur, Hcar.
  rewrite !Nat.eqb_refl. do 2 runB.
  unfold firstInput. rewrite Hcin. cbn [Nat.eqb]. do 2 runB.
  rewrite Hpb, Hcb. do 2 runB.
  assert (Hpne : inputs pb <> []) by (rewrite Hpin; discriminate).
  destruct (areBlocksMergeable env pb cb).
  - unfold lastInput at 1. rewrite Hpin. runB. rewrite Hfp.
    eexists. split; [reflexivity|].
    projW. rewrite mergeBlocks_w_caret. projW.
    match goal with
    | |- context [mergeBlocks_w ?t ?a ?b ?w0] =>
        destruct (mergeBlocks_w_adjacent t w0 pre post pb cb Hbs)
          as [Hmb Hmi]
    end.
    { projW. rewrite Hbs. assumption. }
    { assumption. }
    rewrite Hmb, Hmi. split.
    { unfold Caret.blockPosition, lastInput. rewrite Hpin. reflexivity. }
    split; [reflexivity|]. split; [reflexivity|].
    split; [now apply mergeWith_content|].
    rewrite Hbs, !length_app. cbn [List.length]. lia.
  - rewrite (setToBlock_w_found _ _ _ pb) by (projW; assumption).
    eexists. split; [reflexivity|]. projW. rewrite inputOf_END.
    split; [reflexivity|].
    rewrite Hbs.
    rewrite (updateBlock_middle (bid pb) _ pre (cb :: post) pb Hp1 Hp2
               eq_refl).
    unfold indexZ.
    rewrite (indexOf_middle (bid pb) pre (cb :: post) pb Hp1 eq_refl).
    split; [reflexivity|]. split; [reflexivity|].
    split; [rewrite !map_app; reflexivity|].
    split; [rewrite !length_app; reflexivity|].
    apply newCalls_app. projW. rewrite <- !app_assoc. reflexivity.
Qed.
End Backspace.

Lemma backspace_merges_or_moves_witness :
exists w',
  BlockEvents.backspace Sample.env (Sample.pressed keyCodes.BACKSPACE false)
    (Sample.world Sample.twoBlocks 1 (Some (1, 0, 0)%nat))
  = (Normal tt, w')
  /\ caret w' = Some (0, 0, 2)%nat
  /\ currentBlockIndex w' = 0%Z
  /\ blocks w' = [Sample.text 0 "abxyz"]
  /\ content (mergeWith (Sample.text 1 "xyz") (Sample.text 0 "ab")) = "abxyz"
  /\ S (List.length (blocks w')) = 2%nat.
Proof.
apply (backspace_merges_or_moves Sample.env
         (Sample.pressed keyCodes.BACKSPACE false)
         (Sample.world Sample.twoBlocks 1 (Some (1, 0, 0)%nat))
         [] [] (Sample.text 0 "ab") (Sample.text 1 "xyz"));
  try reflexivity.
apply (uniqueIds_NoDup []). reflexivity.
Defined.

(** ** Enter *)

Lemma substring_halves (s : string) (o : nat) :
(o <= String.length s)%nat ->
String.append (substring 0 o s) (substring o (String.length s - o) s) = s.
Proof.
revert o. induction s as [|c s IH]; intros o Ho.
- destruct o; reflexivity.
- destruct o as [|o].
  + cbn [substring String.append Nat.sub String.length].
    clear. f_equal. induction s as [|d s IH]; cbn; [reflexivity|].
    now rewrite IH.
  + cbn [String.length] in *. cbn [substring String.append Nat.sub].
    f_equal. apply IH. lia.
Qed.

Lemma splitHalves_bid (w : World) (cb : Block) :
bid (fst (splitHalves w cb)) = bid cb
/\ bid (snd (splitHalves w cb)) = nextId w
/\ tool (snd (splitHalves w cb)) = tool cb
/\ currentInput (snd (splitHalves w cb)) = Some 0%nat.
Proof.
unfold splitHalves. destruct (caret w) as [[[b i] o]|];
  [destruct (Nat.eqb b (bid cb))|]; repeat split.
Qed.

(** The two halves hold, in order, the text of the split input. *)
Lemma splitHalves_text (w : World) (cb : Block) (i o : nat) :
caret w = Some (bid cb, i, o) ->
(o <= String.length (inputText cb i))%nat ->
inputs (fst (splitHalves w cb))
= setNth i (substring 0 o (inputText cb i)) (inputs cb)
/\ exists tl,
     inputs (snd (splitHalves w cb)) = [tl]
     /\ String.append (substring 0 o (inputText cb i)) tl = inputText cb i.
Proof.
intros Hc Ho. unfold splitHalves. rewrite Hc, Nat.eqb_refl.
cbn [fst snd inputs set_inputs composeBlock]. split; [reflexivity|].
eexists. split; [reflexivity|]. now apply substring_halves.
Qed.

Lemma set_currentInput_same (b : Block) :
set_currentInput (Caret.inputOf (Caret.blockPosition b DEFAULT)) b = b.
Proof.
destruct b as [i t ins ci hm dt sel].
unfold Caret.inputOf, Caret.blockPosition. cbn [currentInput].
destruct ci; reflexivity.
Qed.

(** The common tail of the three cases: focus, toolbar, preventDefault. *)
Lemma focus_phase (w1 : World) (pre post : list Block) (f : Block) :
blocks w1 = pre ++ f :: post ->
~ In (bid f) (map bid pre) ->
~ In (bid f) (map bid post) ->
let w' :=
  log Event_preventDefault
    (set_toolbarOpened true
       (log (Toolbar_moveAndOpen (Some (bid f)))
          (Caret.setToBlock_w (bid f) DEFAULT
             (log (Caret_setToBlock (bid f) DEFAULT) w1)))) in
blocks w' = pre ++ f :: post
/\ currentBlock w' = Some f
/\ caret w' = Caret.blockPosition f DEFAULT
/\ toolbarOpened w' = true
/\ trace w'
   = trace w1 ++ [Caret_setToBlock (bid f) DEFAULT;
                  Toolbar_moveAndOpen (Some (bid f)); Event_preventDefault].
Proof.
intros Hbs Hpre Hpost w'. subst w'.
unfold Caret.setToBlock_w. projW.
rewrite Hbs, (findBlock_middle (bid f) pre post f Hpre eq_refl).
cbv iota.
repeat split; unfold currentBlock; projW;
  rewrite ?Hbs,
    ?(updateBlock_middle (bid f) _ pre post f Hpre Hpost eq_refl),
    ?set_currentInput_same; unfold indexZ;
  rewrite ?(indexOf_middle (bid f) pre post f Hpre eq_refl);
  try reflexivity.
- apply nthZ_middle.
- rewrite <- !app_assoc. reflexivity.
Qed.

Lemma wellFormed_fresh (w : World) :
wellFormed w -> ~ In (nextId w) (map bid (blocks w)).
Proof.
intros [_ Hlt] Hin. apply in_map_iff in Hin as (b & Hb & Hin).
rewrite Forall_forall in Hlt. specialize (Hlt b Hin). lia.
Qed.

Lemma split_w_blocks (dflt : Tool) (w : World) (pre post : list Block)
    (cb : Block) :
blocks w = pre ++ cb :: post ->
currentBlockIndex w = Z.of_nat (List.length pre) ->
NoDup (map bid (blocks w)) ->
blocks (split_w dflt w)
= pre ++ fst (splitHalves w cb) :: snd (splitHalves w cb) :: post
/\ trace (split_w dflt w) = trace w.
Proof.
intros Hbs Hidx Hnd. rewrite Hbs in Hnd.
destruct (NoDup_middle pre post cb Hnd) as (Hc1 & Hc2 & _).
assert (Hcur : currentBlock w = Some cb).
{ unfold currentBlock. rewrite Hbs, Hidx. apply nthZ_middle. }
assert (Hins : forall (x nb : Block) (l : list Block),
           l = pre ++ x :: post ->
           insertAt (Z.to_nat (Z.of_nat (List.length pre) + 1)) nb l
           = pre ++ x :: nb :: post).
{ intros x nb l ->.
  replace (Z.to_nat (Z.of_nat (List.length pre) + 1))
    with (List.length (pre ++ [x])) by (rewrite length_app; cbn; lia).
  replace (pre ++ x :: post) with ((pre ++ [x]) ++ post)
    by (rewrite <- app_assoc; reflexivity).
  rewrite insertAt_middle, <- app_assoc. reflexivity. }
unfold split_w, splitHalves. rewrite Hcur.
destruct (caret w) as [[[b i] o]|];
  [destruct (Nat.eqb b (bid cb))|];
  unfold insert_w; projW; cbn [fst snd]; rewrite Hidx;
  (split; [|reflexivity]); apply Hins; rewrite Hbs; [|reflexivity..].
rewrite (updateBlock_middle (bid cb) _ pre post cb Hc1 Hc2 eq_refl).
reflexivity.
Qed.

Section Enter.
Variable env : Env.

(** C3, as amended.  Enter with a current block [cb] whose tool does not
    enable line breaks, no flipper button of an open toolbar focused, and
    not a plain Shift+Enter off iOS.  If the caret is at the start of the
    focused input of [cb] and [cb] has no media, a new empty default
    block is put before [cb] and [cb] keeps the focus; else if the caret
    is at the end of the focused input, the new block is put after [cb]
    and gets the focus; otherwise [cb] is split at the caret and the
    second half gets the focus.  In all three cases the caret is set to
    the focused block, the toolbar is moved to it and opened, and
    preventDefault is called last. *)
Theorem enter_inserts_or_splits (event : KeyboardEvent) (w : World)
        (pre post : list Block) (cb : Block) :
  blocks w = pre ++ cb :: post ->
  currentBlockIndex w = Z.of_nat (List.length pre) ->
  wellFormed w ->
  isLineBreaksEnabled (tool cb) = false ->
  UI.someToolbarOpened w && someFlipperButtonFocused w = false ->
  shiftKey event && negb (isIosDevice env) = false ->
  let fresh := composeBlock (nextId w) (defaultTool env) "" in
  let atStart :=
    BlockEvents.defined (currentInput cb)
    && caretUtils.isCaretAtStartOfInput w cb (currentInput cb) in
  let atEnd :=
    BlockEvents.defined (currentInput cb)
    && caretUtils.isCaretAtEndOfInput w cb (currentInput cb) in
  exists w' focused structural,
    BlockEvents.enter env event w = (Normal tt, w')
    /\ currentBlock w' = Some focused
    /\ caret w' = Caret.blockPosition focused DEFAULT
    /\ toolbarOpened w' = true
    /\ newCalls w w'
       = [structural; Caret_setToBlock (bid focused) DEFAULT;
          Toolbar_moveAndOpen (Some (bid focused)); Event_preventDefault]
    /\ if atStart && negb (hasMedia cb) then
         blocks w' = pre ++ fresh :: cb :: post /\ focused = cb
       else if atEnd then
         blocks w' = pre ++ cb :: fresh :: post /\ focused = fresh
       else
         blocks w' = pre ++ fst (splitHalves w cb)
                         :: snd (splitHalves w cb) :: post
         /\ focused = snd (splitHalves w cb).
Proof.
  intros Hbs Hidx Hwf Hlb Htb Hshift fresh atStart atEnd.
  pose proof (wellFormed_fresh w Hwf) as Hfresh.
  destruct Hwf as [Hnd Hlt].
  pose proof Hnd as Hnd0. rewrite Hbs in Hnd.
  destruct (NoDup_middle pre post cb Hnd) as (Hc1 & Hc2 & _).
  rewrite Hbs, map_app, in_app_iff in Hfresh. cbn [map In] in Hfresh.
  assert (Hcur : currentBlock w = Some cb).
  { unfold currentBlock. rewrite Hbs, Hidx. apply nthZ_middle. }
  assert (Hpre : ~ In (nextId w) (map bid pre)) by tauto.
  assert (Hpost : ~ In (nextId w) (map bid post)) by tauto.
  assert (Hne : bid cb <> nextId w) by tauto.
  assert (Happ : forall (x y : Block),
             pre ++ x :: y :: post = (pre ++ [x]) ++ y :: post)
    by (intros; rewrite <- app_assoc; reflexivity).
  assert (Hmid : forall (x : Block) (n : BlockId),
             ~ In n (map bid pre) -> bid x <> n ->
             ~ In n (map bid (pre ++ [x]))).
  { intros x n H1 H2. rewrite map_app, in_app_iff. cbn [map In]. tauto. }
  runB. rewrite Hcur. runB. rewrite Hlb. runB. rewrite Htb. runB.
  rewrite Hshift. runB.
  subst atStart atEnd. unfold BlockEvents.defined.
  destruct (match currentInput cb with Some _ => true | None => false end
            && caretUtils.isCaretAtStartOfInput w cb (currentInput cb)
            && negb (hasMedia cb)) eqn:E1; runB.
  - (* a new block before, the focus stays *)
    set (w1 := insert_w (defaultTool env) "" (currentBlockIndex w) false
                 (log (BlockManager_insertDefaultBlockAtIndex
                         (currentBlockIndex w) false) w)).
    assert (Hb1 : blocks w1 = (pre ++ [fresh]) ++ cb :: post).
    { subst w1. unfold insert_w. projW. rewrite Hidx, Nat2Z.id, Hbs.
      rewrite insertAt_middle. apply Happ. }
    destruct (focus_phase w1 (pre ++ [fresh]) post cb Hb1)
      as (Hb & Hc & Hcar & Htbo & Htr).
    { apply Hmid; [assumption|]. cbn [bid fresh composeBlock]. congruence. }
    { assumption. }
    eexists. exists cb. eexists. split; [reflexivity|].
    split; [exact Hc|]. split; [exact Hcar|]. split; [exact Htbo|].
    split.
    + apply newCalls_app. etransitivity; [exact Htr|]. subst w1.
      unfold insert_w. projW. rewrite <- app_assoc. reflexivity.
    + split; [|reflexivity]. etransitivity; [exact Hb|].
      symmetry. apply Happ.
  - destruct (match currentInput cb with Some _ => true | None => false end
              && caretUtils.isCaretAtEndOfInput w cb (currentInput cb))
      eqn:E2; runB.
    + (* a new block after, with the focus *)
      set (w1 := insert_w (defaultTool env) "" (currentBlockIndex w + 1)
                   false
                   (log (BlockManager_insertDefaultBlockAtIndex
                           (currentBlockIndex w + 1) false) w)).
      assert (Hb1 : blocks w1 = (pre ++ [cb]) ++ fresh :: post).
      { subst w1. unfold insert_w. projW. rewrite Hidx, Hbs.
        replace (Z.to_nat (Z.of_nat (List.length pre) + 1))
          with (List.length (pre ++ [cb])) by (rewrite length_app; cbn; lia).
        replace (pre ++ cb :: post) with ((pre ++ [cb]) ++ post)
          by (rewrite <- app_assoc; reflexivity).
        rewrite insertAt_middle. reflexivity. }
      destruct (focus_phase w1 (pre ++ [cb]) post fresh Hb1)
        as (Hb & Hc & Hcar & Htbo & Htr).
      { apply Hmid; assumption. }
      { assumption. }
      eexists. exists fresh. eexists. split; [reflexivity|].
      split; [exact Hc|]. split; [exact Hcar|]. split; [exact Htbo|].
      split.
      * apply newCalls_app. etransitivity; [exact Htr|]. subst w1.
        unfold insert_w. projW. rewrite <- app_assoc. reflexivity.
      * split; [|reflexivity]. etransitivity; [exact Hb|].
        symmetry. apply Happ.
    + (* the block is split, the second half has the focus *)
      set (w0 := log BlockManager_split w).
      destruct (split_w_blocks (defaultTool env) w0 pre post cb Hbs Hidx
                  Hnd0) as [Hsb Hst].
      change (splitHalves w0 cb) with (splitHalves w cb) in Hsb.
      destruct (splitHalves_bid w cb) as (Hf1 & Hf2 & _).
      set (first := fst (splitHalves w cb)) in *.
      set (second := snd (splitHalves w cb)) in *.
      rewrite Happ in Hsb.
      assert (Hfind : findBlock (nextId w)
                        (blocks (split_w (defaultTool env) w0))
                      = Some second).
      { rewrite Hsb. apply findBlock_middle; [|assumption].
        apply Hmid; [assumption|congruence]. }
      rewrite Hfind.
      destruct (focus_phase (split_w (defaultTool env) w0)
                  (pre ++ [first]) post second Hsb)
        as (Hb & Hc & Hcar & Htbo & Htr).
      { rewrite Hf2. apply Hmid; [assumption|congruence]. }
      { rewrite Hf2. assumption. }
      eexists. exists second. eexists. split; [reflexivity|].
      split; [exact Hc|]. split; [exact Hcar|]. split; [exact Htbo|].
      split.
      * apply newCalls_app. etransitivity; [exact Htr|]. rewrite Hst. subst w0.
        projW. rewrite <- app_assoc. reflexivity.
      * split; [|reflexivity]. etransitivity; [exact Hb|].
        symmetry. apply Happ.
Qed.
End Enter.

Lemma enter_inserts_or_splits_witness :
exists w' focused structural,
  BlockEvents.enter Sample.env (Sample.pressed keyCodes.ENTER false)
    (Sample.world [Sample.text 0 "abcd"] 0 (Some (0, 0, 2)%nat))
  = (Normal tt, w')
  /\ BlockManager.currentBlock w' = Some focused
  /\ caret w' = Caret.blockPosition focused DEFAULT
  /\ toolbarOpened w' = true
  /\ newCalls (Sample.world [Sample.text 0 "abcd"] 0 (Some (0, 0, 2)%nat)) w'
     = [structural; Caret_setToBlock (bid focused) DEFAULT;
        Toolbar_moveAndOpen (Some (bid focused)); Event_preventDefault]
  /\ blocks w' = [Sample.text 0 "ab"; Sample.text 100 "cd"]
  /\ focused = Sample.text 100 "cd".
Proof.
apply (enter_inserts_or_splits Sample.env
         (Sample.pressed keyCodes.ENTER false)
         (Sample.world [Sample.text 0 "abcd"] 0 (Some (0, 0, 2)%nat))
         [] [] (Sample.text 0 "abcd")); try reflexivity.
split.
- apply (uniqueIds_NoDup []). reflexivity.
- repeat constructor.
Defined.

(** C3, as worded: the caret is at the start of the caption of a quote,
  which is neither the start nor the end of the block, so the block
  should be split; the handler puts an empty block before it instead
  and leaves the quote whole. *)
Lemma enter_at_caption_start_inserts_before :
let q := Sample.captioned 0 "ab" "cd" in
let w := Sample.world [q] 0 (Some (0, 1, 0)%nat) in
let w' := snd (BlockEvents.enter Sample.env
                 (Sample.pressed keyCodes.ENTER false) w) in
Worded.isCaretAtStartOfBlock w q = false
/\ Worded.isCaretAtEndOfBlock w q = false
/\ blocks w' = [Sample.text 100 ""; q]
/\ blocks w' <> [fst (splitHalves w q); snd (splitHalves w q)]
/\ newCalls w w'
   = [BlockManager_insertDefaultBlockAtIndex 0 false;
      Caret_setToBlock 0 DEFAULT; Toolbar_moveAndOpen (Some 0%nat);
      Event_preventDefault].
Proof. repeat split. discriminate. Qed.

(** * Further properties of the handlers *)

Ltac runH :=
  cbv beta iota zeta delta
      [BlockEvents.backspace BlockEvents.delete BlockEvents.enter
       BlockEvents.mergeBlocks BlockEvents.defined
       BlockEvents.slashPressed BlockEvents.commandSlashPressed
       BlockEvents.activateToolbox BlockEvents.activateBlockSettings
       BlockEvents.beforeKeydownProcessing BlockEvents.tabPressed
       BlockEvents.arrowRightAndDown BlockEvents.arrowLeftAndUp
       BlockEvents.dragOver BlockEvents.dragLeave BlockEvents.keyup
       BlockEvents.handleCommandC BlockEvents.handleCommandX
       bind call modify gets ret deref throw
       Toolbar.close Toolbar.moveAndOpen Toolbar.toolbox_open
       BlockSettings.open InlineToolbar.close UI.closeAllToolbars
       UI.checkEmptiness BlockSelection.clearSelection
       BlockSelection.copySelectedBlocks
       CrossBlockSelection.toggleBlockSelectedState
       Caret.setToBlock Caret.focus Caret.navigatePrevious
       Caret.navigateNext Caret.insertContentAtCaretPosition
       BlockManager.removeBlock BlockManager.mergeBlocks
       BlockManager.insertDefaultBlockAtIndex BlockManager.split
       BlockManager.removeSelectedBlocks
       fst snd];
  projW; cbn [negb andb orb].

(** ** Delete between two blocks *)

Lemma nthZ_past_end {A} (l : list A) (i : Z) :
  (Z.of_nat (List.length l) <= i)%Z -> nthZ l i = None.
Proof.
  intros H. unfold nthZ. destruct (i <? 0)%Z; [reflexivity|].
  apply nth_error_None. lia.
Qed.

Lemma nthZ_second {A} (pre post : list A) (x y : A) :
  nthZ (pre ++ x :: y :: post) (Z.of_nat (List.length pre) + 1) = Some y.
Proof.
  replace (pre ++ x :: y :: post) with ((pre ++ [x]) ++ y :: post)
    by (rewrite <- app_assoc; reflexivity).
  replace (Z.of_nat (List.length pre) + 1)%Z
    with (Z.of_nat (List.length (pre ++ [x])))
    by (rewrite length_app; cbn [List.length]; lia).
  apply nthZ_middle.
Qed.

Lemma inputOf_START (b : Block) :
  Caret.inputOf (Caret.blockPosition b START) = firstInput b.
Proof.
  unfold Caret.inputOf, Caret.blockPosition.
  destruct (firstInput b); reflexivity.
Qed.

Section Delete.
Variable env : Env.

Lemma delete_passes_guards (event : KeyboardEvent) (w : World)
      (cb : Block) (li : nat) :
  currentBlock w = Some cb ->
  atEndOfBlock w cb li ->
  BlockEvents.delete env event w
  = match nextBlock w with
    | None => (Normal tt, absorbed w)
    | Some nb =>
        (if isEmpty nb then BlockManager.removeBlock env nb
         else if isEmpty cb then
           bind (BlockManager.removeBlock env cb)
                (fun _ => Caret.setToBlock nb START)
         else if areBlocksMergeable env cb nb
              then BlockEvents.mergeBlocks env cb nb
              else Caret.setToBlock nb START) (absorbed w)
    end.
Proof.
  intros Hcur (Hcol & Hci & Hli & Hcar).
  unfold BlockEvents.delete.
  unfold bind at 1. unfold gets at 1. rewrite Hcur.
  unfold bind at 1. unfold gets at 1.
  unfold bind at 1. unfold gets at 1. rewrite Hcol. cbn [negb].
  unfold bind at 1. cbn [deref ret].
  unfold bind at 1. unfold gets at 1.
  unfold caretUtils.isCaretAtEndOfInput. rewrite Hci, Hcar.
  rewrite !Nat.eqb_refl. cbn [andb negb].
  rewrite Hli, Nat.eqb_refl. cbn [negb].
  unfold bind at 1. cbn [call modify].
  unfold bind at 1. unfold Toolbar.close at 1, bind at 1. cbn [call modify].
  fold (absorbed w).
  destruct (nextBlock w); reflexivity.
Qed.

Lemma absorbed_fields (w : World) :
  blocks (absorbed w) = blocks w
  /\ currentBlockIndex (absorbed w) = currentBlockIndex w
  /\ caret (absorbed w) = caret w
  /\ isCollapsed (absorbed w) = isCollapsed w
  /\ nextId (absorbed w) = nextId w
  /\ trace (absorbed w) = trace w ++ [Event_preventDefault; Toolbar_close].
Proof.
  unfold absorbed. projW. rewrite <- app_assoc. repeat split.
Qed.

(** X1.  Delete with a collapsed selection and the caret at the end of
    the last input of [cb], whose successor [nb] and which itself are
    not empty.  If the two are mergeable, [nb] is merged into [cb]: the
    merged block stands where [cb] stood, its content is that of [cb]
    followed by that of [nb], there is one block less, and caret and
    current index stay.  If they are not, no block is removed or
    changes content, and the caret goes to the start of [nb], which
    becomes current. *)
Theorem delete_merges_or_moves (event : KeyboardEvent) (w : World)
        (pre post : list Block) (cb nb : Block) (li : nat) :
  blocks w = pre ++ cb :: nb :: post ->
  currentBlockIndex w = Z.of_nat (List.length pre) ->
  NoDup (map bid (blocks w)) ->
  atEndOfBlock w cb li ->
  isEmpty cb = false ->
  isEmpty nb = false ->
  exists w',
    BlockEvents.delete env event w = (Normal tt, w')
    /\ if areBlocksMergeable env cb nb then
         blocks w' = pre ++ mergeWith nb cb :: post
         /\ content (mergeWith nb cb)
            = String.append (content cb) (content nb)
         /\ S (List.length (blocks w')) = List.length (blocks w)
         /\ caret w' = caret w
         /\ currentBlockIndex w' = currentBlockIndex w
       else
         blocks w' = pre ++ cb :: set_currentInput (firstInput nb) nb :: post
         /\ map inputs (blocks w') = map inputs (blocks w)
         /\ caret w' = Caret.blockPosition nb START
         /\ currentBlockIndex w' = (currentBlockIndex w + 1)%Z
         /\ newCalls w w'
            = [Event_preventDefault; Toolbar_close;
               Caret_setToBlock (bid nb) START].
Proof.
  intros Hbs Hidx Hnd Hend Hcb Hnb.
  pose proof Hend as (Hcol & Hci & Hli & Hcar).
  assert (Hcur : currentBlock w = Some cb).
  { unfold currentBlock. rewrite Hbs, Hidx. apply nthZ_middle. }
  assert (Hnext : nextBlock w = Some nb).
  { unfold nextBlock. rewrite Hbs, Hidx. apply nthZ_second. }
  rewrite (delete_passes_guards event w cb li Hcur Hend), Hnext, Hnb, Hcb.
  destruct (absorbed_fields w) as (Ab & Ai & Ac & _ & _ & At).
  pose proof Hnd as Hnd0. rewrite Hbs in Hnd.
  destruct (NoDup_middle pre (nb :: post) cb Hnd) as (Hc1 & Hc2 & Hnd').
  destruct (NoDup_middle pre post nb Hnd') as (Hn1 & Hn2 & _).
  assert (Hne : bid cb <> bid nb).
  { intros E. apply Hc2. cbn [map In]. now left. }
  assert (Hcne : inputs cb <> []).
  { destruct (isEmpty_false_inputs _ Hcb) as (x & r & ->). discriminate. }
  destruct (areBlocksMergeable env cb nb).
  - unfold BlockEvents.mergeBlocks. rewrite Hli. runH.
    rewrite Ab, Hbs, (findBlock_middle (bid cb) pre (nb :: post) cb Hc1
                        eq_refl).
    eexists. split; [reflexivity|]. projW.
    match goal with
    | |- context [mergeBlocks_w ?t ?a ?b ?w0] =>
        destruct (mergeBlocks_w_adjacent t w0 pre post cb nb)
          as [Hmb Hmi]
    end.
    { projW. rewrite Ab. assumption. }
    { projW. rewrite Ab, Hbs. assumption. }
    { assumption. }
    rewrite Hmb, Hmi, mergeBlocks_w_caret. projW.
    split; [reflexivity|]. split; [now apply mergeWith_content|].
    split; [rewrite !length_app; cbn [List.length]; lia|].
    split; [congruence|]. congruence.
  - assert (Hmid : ~ In (bid nb) (map bid (pre ++ [cb]))).
    { rewrite map_app, in_app_iff. cbn [map In].
      intros [H1|[H1|[]]]; [tauto|congruence]. }
    assert (Happ : pre ++ cb :: nb :: post = (pre ++ [cb]) ++ nb :: post)
      by (rewrite <- app_assoc; reflexivity).
    runH.
    rewrite (setToBlock_w_found _ _ _ nb).
    2:{ projW. rewrite Ab, Hbs, Happ. now apply findBlock_middle. }
    eexists. split; [reflexivity|]. projW. rewrite inputOf_START.
    rewrite Ab, Hbs, Happ.
    rewrite (updateBlock_middle (bid nb) _ (pre ++ [cb]) post nb Hmid Hn2
               eq_refl).
    unfold indexZ.
    rewrite (indexOf_middle (bid nb) (pre ++ [cb]) post nb Hmid eq_refl).
    split; [rewrite <- app_assoc; reflexivity|].
    split; [rewrite !map_app; reflexivity|].
    split; [reflexivity|].
    split; [rewrite Hidx, length_app; cbn [List.length]; lia|].
    apply newCalls_app. projW. rewrite At, <- !app_assoc. reflexivity.
Qed.

(** X2.  Delete at the end of the last block, pressed any number of
    times: every press returns, and blocks, current index and caret
    are as before. *)
Theorem delete_at_document_end_idempotent
        (event : KeyboardEvent) (n : nat) (w : World)
        (pre : list Block) (cb : Block) (li : nat) :
  blocks w = pre ++ [cb] ->
  currentBlockIndex w = Z.of_nat (List.length pre) ->
  atEndOfBlock w cb li ->
  exists w',
    times n (BlockEvents.delete env event) w = (Normal tt, w')
    /\ blocks w' = blocks w
    /\ currentBlockIndex w' = currentBlockIndex w
    /\ caret w' = caret w.
Proof.
  revert w. induction n as [|n IH]; intros w Hbs Hidx Hend.
  - exists w. repeat split.
  - assert (Hcur : currentBlock w = Some cb).
    { unfold currentBlock. rewrite Hbs, Hidx. apply nthZ_middle. }
    assert (Hnext : nextBlock w = None).
    { unfold nextBlock. apply nthZ_past_end.
      rewrite Hbs, Hidx, length_app. cbn [List.length]. lia. }
    destruct (absorbed_fields w) as (Ab & Ai & Ac & Acol & _).
    destruct (IH (absorbed w)) as (w' & Hrun & Hb & Hi & Hc).
    { congruence. } { congruence. }
    { destruct Hend as (H1 & H2 & H3 & H4).
      repeat split; congruence. }
    exists w'. cbn [times]. unfold bind at 1.
    rewrite (delete_passes_guards event w cb li Hcur Hend), Hnext, Hrun.
    repeat split; congruence.
Qed.

(** X3.  Delete before an empty block removes that block like a
    character: the other blocks, the current block and the caret stay
    as they are. *)
Theorem delete_removes_empty_next (event : KeyboardEvent) (w : World)
        (pre post : list Block) (cb nb : Block) (li : nat) :
  blocks w = pre ++ cb :: nb :: post ->
  currentBlockIndex w = Z.of_nat (List.length pre) ->
  NoDup (map bid (blocks w)) ->
  atEndOfBlock w cb li ->
  isEmpty nb = true ->
  exists w',
    BlockEvents.delete env event w = (Normal tt, w')
    /\ blocks w' = pre ++ cb :: post
    /\ currentBlockIndex w' = currentBlockIndex w
    /\ caret w' = caret w
    /\ newCalls w w'
       = [Event_preventDefault; Toolbar_close;
          BlockManager_removeBlock (bid nb)].
Proof.
  intros Hbs Hidx Hnd Hend Hnb.
  assert (Hcur : currentBlock w = Some cb).
  { unfold currentBlock. rewrite Hbs, Hidx. apply nthZ_middle. }
  assert (Hnext : nextBlock w = Some nb).
  { unfold nextBlock. rewrite Hbs, Hidx. apply nthZ_second. }
  rewrite (delete_passes_guards event w cb li Hcur Hend), Hnext, Hnb.
  destruct (absorbed_fields w) as (Ab & Ai & Ac & _ & _ & At).
  rewrite Hbs in Hnd.
  destruct (NoDup_middle pre (nb :: post) cb Hnd) as (Hc1 & Hc2 & Hnd').
  destruct (NoDup_middle pre post nb Hnd') as (Hn1 & Hn2 & _).
  assert (Hmid : ~ In (bid nb) (map bid (pre ++ [cb]))).
  { rewrite map_app, in_app_iff. cbn [map In].
    intros [H1|[H1|[]]]; [tauto|]. apply Hc2. cbn [map In]. now left. }
  runH. eexists. split; [reflexivity|].
  unfold removeBlock_w. projW. rewrite Ab, Hbs.
  replace (pre ++ cb :: nb :: post) with ((pre ++ [cb]) ++ nb :: post)
    by (rewrite <- app_assoc; reflexivity).
  rewrite (indexOf_middle (bid nb) (pre ++ [cb]) post nb Hmid eq_refl).
  unfold removeAt_w. projW. rewrite Ab, Hbs.
  replace (pre ++ cb :: nb :: post) with ((pre ++ [cb]) ++ nb :: post)
    by (rewrite <- app_assoc; reflexivity).
  rewrite removeAt_middle, <- app_assoc. cbn [app].
  destruct (pre ++ cb :: post) eqn:E; [destruct pre; discriminate|].
  rewrite <- E. projW. rewrite ?Ai, ?Ac, ?Hidx, ?length_app.
  cbn [List.length].
  replace (Nat.eqb (List.length pre + 1) 0) with false
    by (symmetry; apply Nat.eqb_neq; lia).
  replace (Z.of_nat (List.length pre + 1) <=? Z.of_nat (List.length pre))%Z
    with false by (symmetry; apply Z.leb_gt; lia).
  repeat split.
  apply newCalls_app. projW. rewrite At, <- !app_assoc. reflexivity.
Qed.

(** X4.  Delete at the end of an empty block before a block that is not
    empty removes the empty block; the next block takes its place,
    becomes current, and the caret goes to its start. *)
Theorem delete_removes_empty_current (event : KeyboardEvent) (w : World)
        (pre post : list Block) (cb nb : Block) (li : nat) :
  blocks w = pre ++ cb :: nb :: post ->
  currentBlockIndex w = Z.of_nat (List.length pre) ->
  NoDup (map bid (blocks w)) ->
  atEndOfBlock w cb li ->
  isEmpty nb = false ->
  isEmpty cb = true ->
  exists w',
    BlockEvents.delete env event w = (Normal tt, w')
    /\ blocks w' = pre ++ set_currentInput (firstInput nb) nb :: post
    /\ currentBlockIndex w' = currentBlockIndex w
    /\ caret w' = Caret.blockPosition nb START
    /\ newCalls w w'
       = [Event_preventDefault; Toolbar_close;
          BlockManager_removeBlock (bid cb);
          Caret_setToBlock (bid nb) START].
Proof.
  intros Hbs Hidx Hnd Hend Hnb Hcb.
  assert (Hcur : currentBlock w = Some cb).
  { unfold currentBlock. rewrite Hbs, Hidx. apply nthZ_middle. }
  assert (Hnext : nextBlock w = Some nb).
  { unfold nextBlock. rewrite Hbs, Hidx. apply nthZ_second. }
  rewrite (delete_passes_guards event w cb li Hcur Hend), Hnext, Hnb, Hcb.
  destruct (absorbed_fields w) as (Ab & Ai & Ac & _ & _ & At).
  rewrite Hbs in Hnd.
  destruct (NoDup_middle pre (nb :: post) cb Hnd) as (Hc1 & Hc2 & Hnd').
  destruct (NoDup_middle pre post nb Hnd') as (Hn1 & Hn2 & _).
  runH.
  set (w1 := removeBlock_w (defaultTool env) (bid cb)
               (log (BlockManager_removeBlock (bid cb)) (absorbed w))).
  assert (Hb1 : blocks w1 = pre ++ nb :: post).
  { subst w1. apply removeBlock_w_middle; [|assumption|destruct pre; discriminate].
    projW. congruence. }
  assert (Ht1 : trace w1 = trace w ++ [Event_preventDefault; Toolbar_close;
                                       BlockManager_removeBlock (bid cb)]).
  { subst w1. unfold removeBlock_w. projW.
    destruct (indexOf (bid cb) (blocks (absorbed w))).
    - unfold removeAt_w. projW.
      destruct (removeAt n (blocks (absorbed w))); projW;
        rewrite At, <- app_assoc; reflexivity.
    - projW. rewrite At, <- app_assoc. reflexivity. }
  rewrite (setToBlock_w_found _ _ _ nb).
  2:{ projW. rewrite Hb1. now apply findBlock_middle. }
  eexists. split; [reflexivity|]. projW. rewrite inputOf_START, Hb1.
  rewrite (updateBlock_middle (bid nb) _ pre post nb Hn1 Hn2 eq_refl).
  unfold indexZ.
  rewrite (indexOf_middle (bid nb) pre post nb Hn1 eq_refl).
  split; [reflexivity|]. split; [congruence|]. split; [reflexivity|].
  apply newCalls_app. projW. rewrite Ht1, <- !app_assoc. reflexivity.
Qed.
End Delete.

(** ** Backspace: the other branches *)

Lemma removeBlock_w_trace (t : Tool) (b : BlockId) (w : World) :
  trace (removeBlock_w t b w) = trace w.
Proof.
  unfold removeBlock_w. destruct (indexOf b (blocks w)); [|reflexivity].
  unfold removeAt_w. destruct (removeAt n (blocks w)); reflexivity.
Qed.

Lemma mergeBlocks_w_trace (t : Tool) (a b : BlockId) (w : World) :
  trace (mergeBlocks_w t a b w) = trace w.
Proof.
  unfold mergeBlocks_w.
  destruct (findBlock a (blocks w)) as [tb|]; [|reflexivity].
  destruct (findBlock b (blocks w)); [|reflexivity].
  destruct (lastInput tb); [|reflexivity].
  cbn [trace set_currentBlockIndex]. rewrite removeBlock_w_trace.
  reflexivity.
Qed.

Section BackspaceBranches.
Variable env : Env.

Lemma backspace_passes_guards (event : KeyboardEvent) (w : World)
      (cb : Block) :
  currentBlock w = Some cb ->
  atStartOfBlock w cb ->
  BlockEvents.backspace env event w
  = match previousBlock w with
    | None => (Normal tt, absorbed w)
    | Some pb =>
        (if isEmpty pb then BlockManager.removeBlock env pb
         else if isEmpty cb then
           bind (BlockManager.removeBlock env cb)
             (fun _ =>
                bind (gets currentBlock)
                  (fun newCurrentBlock =>
                     bind (deref newCurrentBlock)
                       (fun nb => Caret.setToBlock nb END)))
         else if areBlocksMergeable env pb cb
              then BlockEvents.mergeBlocks env pb cb
              else Caret.setToBlock pb END) (absorbed w)
    end.
Proof.
  intros Hcur (Hcol & Hci & Hfi & Hcar).
  unfold BlockEvents.backspace.
  unfold bind at 1. unfold gets at 1. rewrite Hcur.
  unfold bind at 1. unfold gets at 1.
  unfold bind at 1. unfold gets at 1. rewrite Hcol. cbn [negb].
  unfold bind at 1. unfold gets at 1.
  unfold caretUtils.isCaretAtStartOfInput. rewrite Hci, Hcar.
  rewrite !Nat.eqb_refl. cbn [BlockEvents.defined andb negb orb].
  rewrite Hfi. cbn [Nat.eqb negb].
  unfold bind at 1. cbn [call modify].
  unfold bind at 1. unfold Toolbar.close at 1, bind at 1. cbn [call modify].
  fold (absorbed w).
  destruct (previousBlock w); reflexivity.
Qed.

(** X5.  Backspace after an empty block removes that block like a
    character: the other blocks stay, the block the caret is in is
    still the current one, and the caret stays. *)
Theorem backspace_removes_empty_previous (event : KeyboardEvent)
        (w : World) (pre post : list Block) (pb cb : Block) :
  blocks w = pre ++ pb :: cb :: post ->
  currentBlockIndex w = Z.of_nat (S (List.length pre)) ->
  NoDup (map bid (blocks w)) ->
  atStartOfBlock w cb ->
  isEmpty pb = true ->
  exists w',
    BlockEvents.backspace env event w = (Normal tt, w')
    /\ blocks w' = pre ++ cb :: post
    /\ currentBlock w' = Some cb
    /\ caret w' = caret w
    /\ newCalls w w'
       = [Event_preventDefault; Toolbar_close;
          BlockManager_removeBlock (bid pb)].
Proof.
  intros Hbs Hidx Hnd Hstart Hpb.
  assert (Hcur : currentBlock w = Some cb).
  { unfold currentBlock. rewrite Hbs, Hidx.
    replace (Z.of_nat (S (List.length pre)))
      with (Z.of_nat (List.length pre) + 1)%Z by lia.
    apply nthZ_second. }
  assert (Hprev : previousBlock w = Some pb).
  { unfold previousBlock. rewrite Hbs, Hidx.
    replace (Z.of_nat (S (List.length pre)) - 1)%Z
      with (Z.of_nat (List.length pre)) by lia.
    apply nthZ_middle. }
  rewrite (backspace_passes_guards event w cb Hcur Hstart), Hprev, Hpb.
  destruct (absorbed_fields w) as (Ab & Ai & Ac & _ & _ & At).
  rewrite Hbs in Hnd.
  destruct (NoDup_middle pre (cb :: post) pb Hnd) as (Hp1 & Hp2 & _).
  runH. eexists. split; [reflexivity|].
  unfold removeBlock_w. projW. rewrite Ab, Hbs.
  rewrite (indexOf_middle (bid pb) pre (cb :: post) pb Hp1 eq_refl).
  unfold removeAt_w, currentBlock. projW. rewrite Ab, Hbs.
  rewrite removeAt_middle.
  destruct (pre ++ cb :: post) eqn:E; [destruct pre; discriminate|].
  rewrite <- E. projW. rewrite ?Ai, ?Ac, ?Hidx.
  replace (Z.of_nat (List.length pre) <=? Z.of_nat (S (List.length pre)))%Z
    with true by (symmetry; apply Z.leb_le; lia).
  replace (Z.of_nat (S (List.length pre)) - 1)%Z
    with (Z.of_nat (List.length pre)) by lia.
  split; [reflexivity|]. split.
  { destruct pre as [|b0 pre']; [reflexivity|].
    cbn [Nat.eqb List.length]. exact (nthZ_middle (b0 :: pre') post cb). }
  split; [reflexivity|].
  apply newCalls_app. projW. rewrite At, <- !app_assoc. reflexivity.
Qed.

(** X6.  Backspace at the start of an empty block after a block that is
    not empty removes the empty block; the previous block becomes
    current and the caret goes to its end. *)
Theorem backspace_removes_empty_current (event : KeyboardEvent)
        (w : World) (pre post : list Block) (pb cb : Block) :
  blocks w = pre ++ pb :: cb :: post ->
  currentBlockIndex w = Z.of_nat (S (List.length pre)) ->
  NoDup (map bid (blocks w)) ->
  atStartOfBlock w cb ->
  isEmpty pb = false ->
  isEmpty cb = true ->
  exists w',
    BlockEvents.backspace env event w = (Normal tt, w')
    /\ blocks w' = pre ++ set_currentInput (lastInput pb) pb :: post
    /\ currentBlockIndex w' = Z.of_nat (List.length pre)
    /\ caret w' = Caret.blockPosition pb END
    /\ newCalls w w'
       = [Event_preventDefault; Toolbar_close;
          BlockManager_removeBlock (bid cb);
          Caret_setToBlock (bid pb) END].
Proof.
  intros Hbs Hidx Hnd Hstart Hpb Hcb.
  assert (Hcur : currentBlock w = Some cb).
  { unfold currentBlock. rewrite Hbs, Hidx.
    replace (Z.of_nat (S (List.length pre)))
      with (Z.of_nat (List.length pre) + 1)%Z by lia.
    apply nthZ_second. }
  assert (Hprev : previousBlock w = Some pb).
  { unfold previousBlock. rewrite Hbs, Hidx.
    replace (Z.of_nat (S (List.length pre)) - 1)%Z
      with (Z.of_nat (List.length pre)) by lia.
    apply nthZ_middle. }
  rewrite (backspace_passes_guards event w cb Hcur Hstart), Hprev, Hpb, Hcb.
  destruct (absorbed_fields w) as (Ab & Ai & Ac & _ & _ & At).
  rewrite Hbs in Hnd.
  destruct (NoDup_middle pre (cb :: post) pb Hnd) as (Hp1 & Hp2 & Hnd').
  destruct (NoDup_middle pre post cb Hnd') as (Hc1 & Hc2 & _).
  assert (Hp3 : ~ In (bid pb) (map bid post)).
  { intros Hin. apply Hp2. cbn [map In]. now right. }
  assert (Hmid : ~ In (bid cb) (map bid (pre ++ [pb]))).
  { rewrite map_app, in_app_iff. cbn [map In].
    intros [H1|[H1|[]]]; [tauto|]. apply Hp2. cbn [map In]. now left. }
  runH.
  set (w0 := log (BlockManager_removeBlock (bid cb)) (absorbed w)).
  assert (Hrm : removeBlock_w (defaultTool env) (bid cb) w0
                = set_currentBlockIndex (Z.of_nat (List.length pre))
                    (set_blocks (fun _ => pre ++ pb :: post) w0)).
  { unfold removeBlock_w. subst w0. projW. rewrite Ab, Hbs.
    replace (pre ++ pb :: cb :: post) with ((pre ++ [pb]) ++ cb :: post)
      by (rewrite <- app_assoc; reflexivity).
    rewrite (indexOf_middle (bid cb) (pre ++ [pb]) post cb Hmid eq_refl).
    unfold removeAt_w. projW. rewrite Ab, Hbs.
    replace (pre ++ pb :: cb :: post) with ((pre ++ [pb]) ++ cb :: post)
      by (rewrite <- app_assoc; reflexivity).
    rewrite removeAt_middle, <- app_assoc. cbn [app].
    destruct (pre ++ pb :: post) eqn:E; [destruct pre; discriminate|].
    rewrite Ai, Hidx, length_app. cbn [List.length].
    replace (Nat.eqb (List.length pre + 1) 0) with false
      by (symmetry; apply Nat.eqb_neq; lia).
    replace (Z.of_nat (List.length pre + 1)
             <=? Z.of_nat (S (List.length pre)))%Z
      with true by (symmetry; apply Z.leb_le; lia).
    replace (Z.of_nat (S (List.length pre)) - 1)%Z
      with (Z.of_nat (List.length pre)) by lia.
    reflexivity. }
  rewrite Hrm. unfold currentBlock at 1. projW. rewrite nthZ_middle.
  cbv iota.
  rewrite (setToBlock_w_found _ _ _ pb).
  2:{ projW. now apply findBlock_middle. }
  eexists. split; [reflexivity|]. projW. rewrite inputOf_END.
  rewrite (updateBlock_middle (bid pb) _ pre post pb Hp1 Hp3 eq_refl).
  unfold indexZ.
  rewrite (indexOf_middle (bid pb) pre post pb Hp1 eq_refl).
  split; [reflexivity|]. split; [reflexivity|]. split; [reflexivity|].
  apply newCalls_app. subst w0. projW. rewrite At, <- !app_assoc.
  reflexivity.
Qed.
End BackspaceBranches.

(** ** Inside a block with several inputs *)

Section InnerInputs.
Variable env : Env.

(** X7.  Backspace at the start of an input that is not the first one
    of its block only moves the caret to the end of the input before
    it: no block is removed or changes content and the current block
    stays. *)
Theorem backspace_goes_to_previous_input (event : KeyboardEvent)
        (w : World) (cb : Block) (i : nat) :
  currentBlock w = Some cb ->
  isCollapsed w = true ->
  currentInput cb = Some (S i) ->
  caret w = Some (bid cb, S i, 0)%nat ->
  exists w',
    BlockEvents.backspace env event w = (Normal tt, w')
    /\ caret w' = Some (bid cb, i, String.length (inputText cb i))
    /\ map inputs (blocks w') = map inputs (blocks w)
    /\ currentBlockIndex w' = currentBlockIndex w
    /\ newCalls w w'
       = [Event_preventDefault; Toolbar_close;
          Caret_navigatePrevious false].
Proof.
  intros Hcur Hcol Hci Hcar.
  runH. rewrite Hcur. runH. rewrite Hcol. do 2 runH.
  unfold caretUtils.isCaretAtStartOfInput. rewrite Hci, Hcar.
  rewrite !Nat.eqb_refl. do 2 runH.
  assert (Hnf : match firstInput cb with
                | Some j => Nat.eqb (S i) j
                | None => false
                end = false).
  { unfold firstInput. destruct (inputs cb); reflexivity. }
  rewrite Hnf. do 2 runH.
  unfold Caret.navigatePrevious_w, currentBlock, previousBlock.
  projW. fold (currentBlock w). rewrite Hcur.
  unfold caretUtils.isCaretAtStartOfInput. projW.
  rewrite Hci, Hcar, !Nat.eqb_refl. cbn [andb orb].
  eexists. split; [reflexivity|].
  unfold Caret.setToInput_w. projW.
  split; [reflexivity|].
  split; [apply updateBlock_inputs; reflexivity|].
  split; [reflexivity|].
  apply newCalls_app. projW. rewrite <- ?app_assoc. reflexivity.
Qed.

(** X8.  Delete at the end of an input that is not the last one of its
    block only moves the caret to the start of the input after it. *)
Theorem delete_goes_to_next_input (event : KeyboardEvent)
        (w : World) (cb : Block) (i : nat) :
  currentBlock w = Some cb ->
  isCollapsed w = true ->
  currentInput cb = Some i ->
  (S i < List.length (inputs cb))%nat ->
  caret w = Some (bid cb, i, String.length (inputText cb i)) ->
  exists w',
    BlockEvents.delete env event w = (Normal tt, w')
    /\ caret w' = Some (bid cb, S i, 0)%nat
    /\ map inputs (blocks w') = map inputs (blocks w)
    /\ currentBlockIndex w' = currentBlockIndex w
    /\ newCalls w w'
       = [Event_preventDefault; Toolbar_close; Caret_navigateNext false].
Proof.
  intros Hcur Hcol Hci Hlt Hcar.
  runH. rewrite Hcur, Hcol. do 2 runH.
  unfold caretUtils.isCaretAtEndOfInput. rewrite Hci, Hcar.
  rewrite !Nat.eqb_refl. do 2 runH.
  assert (Hnl : match lastInput cb with
                | Some j => Nat.eqb i j
                | None => false
                end = false).
  { unfold lastInput. destruct (inputs cb) as [|x r]; [reflexivity|].
    cbn [List.length] in Hlt. apply Nat.eqb_neq. lia. }
  rewrite Hnl. do 2 runH.
  unfold Caret.navigateNext_w, currentBlock, nextBlock.
  projW. fold (currentBlock w). rewrite Hcur.
  unfold caretUtils.isCaretAtEndOfInput. projW.
  rewrite Hci, Hcar, !Nat.eqb_refl. cbn [andb orb].
  replace (S i <? List.length (inputs cb))%nat with true
    by (symmetry; apply Nat.ltb_lt; assumption).
  eexists. split; [reflexivity|].
  unfold Caret.setToInput_w. projW.
  split; [reflexivity|].
  split; [apply updateBlock_inputs; reflexivity|].
  split; [reflexivity|].
  apply newCalls_app. projW. rewrite <- ?app_assoc. reflexivity.
Qed.
End InnerInputs.

(** ** Faults and the native action *)

Lemma removeAt_length (n : nat) (bs : list Block) :
  (n < List.length bs)%nat ->
  List.length (removeAt n bs) = (List.length bs - 1)%nat.
Proof.
  intros H. unfold removeAt.
  rewrite length_app, length_firstn, length_skipn. lia.
Qed.

Lemma indexOf_le (bs : list Block) (k : nat) (x : Block) :
  nth_error bs k = Some x ->
  exists n, indexOf (bid x) bs = Some n /\ (n <= k)%nat.
Proof.
  revert k. induction bs as [|y r IH]; intros k H.
  - destruct k; discriminate.
  - cbn [indexOf]. destruct (Nat.eqb (bid y) (bid x)) eqn:E.
    + exists 0%nat. split; [reflexivity|lia].
    + destruct k as [|k]; cbn [nth_error] in H.
      * injection H as ->. rewrite Nat.eqb_refl in E. discriminate.
      * destruct (IH k H) as (n & -> & Hn). exists (S n).
        split; [reflexivity|lia].
Qed.

(** After the current block, which has a predecessor, is removed, some
    block is current. *)
Lemma currentBlock_after_removeBlock (t : Tool) (w : World) (cb pb : Block) :
  currentBlock w = Some cb ->
  previousBlock w = Some pb ->
  exists nb, currentBlock (removeBlock_w t (bid cb) w) = Some nb.
Proof.
  unfold currentBlock, previousBlock, nthZ. intros Hc Hp.
  destruct (currentBlockIndex w <? 0)%Z eqn:E0; [discriminate|].
  destruct (currentBlockIndex w - 1 <? 0)%Z eqn:E1; [discriminate|].
  apply Z.ltb_ge in E0, E1.
  destruct (indexOf_le _ _ _ Hc) as (n & Hn & Hle).
  assert (Hlen : (Z.to_nat (currentBlockIndex w) < List.length (blocks w))%nat)
    by (apply nth_error_Some; congruence).
  unfold removeBlock_w. rewrite Hn. unfold removeAt_w.
  pose proof (removeAt_length n (blocks w) ltac:(lia)) as Hrl.
  destruct (removeAt n (blocks w)) as [|y r] eqn:Er.
  { cbn [List.length] in Hrl. lia. }
  cbn [blocks currentBlockIndex set_blocks set_currentBlockIndex].
  replace (Z.of_nat n <=? currentBlockIndex w)%Z with true
    by (symmetry; apply Z.leb_le; lia).
  destruct (Nat.eqb n 0).
  - cbn. eauto.
  - replace (currentBlockIndex w - 1 <? 0)%Z with false
      by (symmetry; apply Z.ltb_ge; lia).
    destruct (nth_error (y :: r) (Z.to_nat (currentBlockIndex w - 1)))
      eqn:En; [eauto|].
    apply nth_error_None in En. lia.
Qed.

Lemma setToBlock_w_toolbarOpened (b : BlockId) (p : Position) (w : World) :
  toolbarOpened (Caret.setToBlock_w b p w) = toolbarOpened w.
Proof.
  unfold Caret.setToBlock_w. destruct (findBlock b (blocks w)); reflexivity.
Qed.

Lemma removeBlock_w_toolbarOpened (t : Tool) (b : BlockId) (w : World) :
  toolbarOpened (removeBlock_w t b w) = toolbarOpened w.
Proof.
  unfold removeBlock_w. destruct (indexOf b (blocks w)); [|reflexivity].
  unfold removeAt_w. destruct (removeAt n (blocks w)); reflexivity.
Qed.

Lemma navigatePrevious_w_toolbarOpened (f : bool) (w : World) :
  toolbarOpened (snd (Caret.navigatePrevious_w f w)) = toolbarOpened w.
Proof.
  unfold Caret.navigatePrevious_w.
  destruct (currentBlock w) as [cb|]; [|reflexivity].
  destruct (f || _); [|reflexivity].
  destruct (match currentInput cb with Some (S i) => _ | _ => _ end);
    [reflexivity|].
  destruct (previousBlock w); [|reflexivity].
  apply setToBlock_w_toolbarOpened.
Qed.

Lemma navigateNext_w_toolbarOpened (f : bool) (w : World) :
  toolbarOpened (snd (Caret.navigateNext_w f w)) = toolbarOpened w.
Proof.
  unfold Caret.navigateNext_w.
  destruct (currentBlock w) as [cb|]; [|reflexivity].
  destruct (f || _); [|reflexivity].
  destruct (match currentInput cb with Some _ => _ | None => _ end);
    [reflexivity|].
  destruct (nextBlock w); [|reflexivity].
  apply setToBlock_w_toolbarOpened.
Qed.

Section NativeOrCustom.
Variable env : Env.

Lemma backspace_outcome (event : KeyboardEvent) (w : World) :
  exists w',
    BlockEvents.backspace env event w = (Normal tt, w')
    /\ if backspaceTakesOver w then
         toolbarOpened w' = false
         /\ exists rest,
              newCalls w w' = Event_preventDefault :: Toolbar_close :: rest
       else w' = w.
Proof.
  unfold backspaceTakesOver.
  destruct (currentBlock w) as [cb|] eqn:Hcur.
  2:{ exists w. runH. rewrite Hcur. split; reflexivity. }
  runH. rewrite Hcur. runH.
  destruct (isCollapsed w) eqn:Hcol; do 2 runH; [|eauto].
  destruct (currentInput cb) as [ci|] eqn:Hci; do 2 runH; [|eauto].
  destruct (caretUtils.isCaretAtStartOfInput w cb (Some ci)) eqn:Hat;
    do 2 runH; [|eauto].
  fold (absorbed w).
  destruct (absorbed_fields w) as (Ab & Ai & Ac & _ & _ & At).
  assert (Htb : toolbarOpened (absorbed w) = false) by reflexivity.
  assert (Hfin : forall w' l,
             toolbarOpened w' = false ->
             trace w' = trace (absorbed w) ++ l ->
             toolbarOpened w' = false
             /\ exists rest,
                  newCalls w w'
                  = Event_preventDefault :: Toolbar_close :: rest).
  { intros w' l H1 H2. split; [assumption|]. exists l.
    apply newCalls_app. rewrite H2, At, <- app_assoc. reflexivity. }
  destruct (negb match firstInput cb with
                 | Some j => Nat.eqb ci j
                 | None => false
                 end) eqn:Hfirst; do 2 runH.
  - (* the previous input of the same block *)
    pose proof (navigatePrevious_w_trace false
                  (log (Caret_navigatePrevious false) (absorbed w))) as Ht.
    pose proof (navigatePrevious_w_toolbarOpened false
                  (log (Caret_navigatePrevious false) (absorbed w))) as Ho.
    destruct (Caret.navigatePrevious_w false
                (log (Caret_navigatePrevious false) (absorbed w)))
      as [moved w1].
    cbn [fst snd] in *. eexists. split; [reflexivity|].
    eapply Hfin; [rewrite Ho; reflexivity|rewrite Ht; reflexivity].
  - destruct (previousBlock w) as [pb|] eqn:Hprev; do 2 runH.
    2:{ eexists. split; [reflexivity|].
        apply (Hfin _ []); [reflexivity|now rewrite app_nil_r]. }
    destruct (isEmpty pb); do 2 runH.
    { eexists. split; [reflexivity|].
      eapply Hfin;
        [rewrite removeBlock_w_toolbarOpened; reflexivity
        |rewrite removeBlock_w_trace; reflexivity]. }
    destruct (isEmpty cb); do 2 runH.
    { destruct (currentBlock_after_removeBlock (defaultTool env)
                  (log (BlockManager_removeBlock (bid cb)) (absorbed w))
                  cb pb) as (nb & Hnb).
      { unfold currentBlock. projW. rewrite Ab, Ai. exact Hcur. }
      { unfold previousBlock. projW. rewrite Ab, Ai. exact Hprev. }
      rewrite Hnb. runH. eexists. split; [reflexivity|].
      eapply Hfin.
      - rewrite setToBlock_w_toolbarOpened. projW.
        rewrite removeBlock_w_toolbarOpened. reflexivity.
      - rewrite setToBlock_w_trace. projW.
        rewrite removeBlock_w_trace. projW.
        rewrite <- app_assoc. reflexivity. }
    destruct (areBlocksMergeable env pb cb); do 2 runH.
    + destruct (lastInput pb) as [li|]; do 2 runH.
      * eexists. split; [reflexivity|].
        eapply Hfin; [reflexivity|].
        projW. rewrite mergeBlocks_w_trace. projW.
        destruct (findBlock (bid pb) (blocks (absorbed w))); projW;
          rewrite <- !app_assoc; reflexivity.
      * eexists. split; [reflexivity|].
        apply (Hfin _ []); [reflexivity|now rewrite app_nil_r].
    + eexists. split; [reflexivity|].
      eapply Hfin.
      * rewrite setToBlock_w_toolbarOpened. reflexivity.
      * rewrite setToBlock_w_trace. projW. reflexivity.
Qed.

(** X9.  Backspace never faults.  When the selection is not collapsed,
    or no input is focused, or the caret is not at the start of the
    focused input, or no block is current, it leaves the world as it
    is, for the browser to act.  In every other case its first two
    calls are preventDefault and Toolbar.close, and the toolbar is
    closed when it returns. *)
Theorem backspace_native_or_custom (event : KeyboardEvent) (w : World) :
  exists w',
    BlockEvents.backspace env event w = (Normal tt, w')
    /\ if backspaceTakesOver w then
         toolbarOpened w' = false
         /\ exists rest,
              newCalls w w' = Event_preventDefault :: Toolbar_close :: rest
       else w' = w.
Proof. apply backspace_outcome. Qed.
End NativeOrCustom.

Section DeleteFault.
Variable env : Env.

(** X10.  The Delete handler throws in exactly one situation: the
    selection is collapsed and no block is current.  In every other
    world it returns. *)
Theorem delete_faults_iff (event : KeyboardEvent) (w : World) :
  fst (BlockEvents.delete env event w) = TypeError
  <-> isCollapsed w = true /\ currentBlock w = None.
Proof.
  split.
  - runH. destruct (isCollapsed w); do 2 runH; [|discriminate].
    destruct (currentBlock w) as [cb|]; do 2 runH; [|auto].
    intros H. exfalso. revert H.
    destruct (caretUtils.isCaretAtEndOfInput w cb (currentInput cb));
      do 2 runH; [|discriminate].
    destruct (negb match currentInput cb with
                   | Some i => match lastInput cb with
                               | Some j => Nat.eqb i j
                               | None => false
                               end
                   | None => match lastInput cb with
                             | Some _ => false
                             | None => true
                             end
                   end); do 2 runH.
    + destruct (Caret.navigateNext_w false _); discriminate.
    + destruct (nextBlock w) as [nb|]; do 2 runH; [|discriminate].
      destruct (isEmpty nb); do 2 runH; [discriminate|].
      destruct (isEmpty cb); do 2 runH; [discriminate|].
      destruct (areBlocksMergeable env cb nb); do 2 runH; [|discriminate].
      destruct (lastInput cb); do 2 runH; discriminate.
  - intros [Hcol Hcur].
    rewrite (delete_without_current_block env event w Hcur Hcol).
    reflexivity.
Qed.
End DeleteFault.

(** ** Enter in any world *)

Lemma insertAt_length (n : nat) (b : Block) (bs : list Block) :
  List.length (insertAt n b bs) = S (List.length bs).
Proof.
  unfold insertAt. rewrite length_app. cbn [List.length].
  rewrite length_firstn, length_skipn. lia.
Qed.

Lemma insertAt_In (n : nat) (b : Block) (bs : list Block) :
  In b (insertAt n b bs).
Proof. unfold insertAt. apply in_or_app. right. now left. Qed.

Lemma updateBlock_length (b : BlockId) (f : Block -> Block)
      (bs : list Block) :
  List.length (updateBlock b f bs) = List.length bs.
Proof. unfold updateBlock. apply length_map. Qed.

Lemma setToBlock_w_length (b : BlockId) (p : Position) (w : World) :
  List.length (blocks (Caret.setToBlock_w b p w)) = List.length (blocks w).
Proof.
  unfold Caret.setToBlock_w. destruct (findBlock b (blocks w)); [|reflexivity].
  cbn [blocks set_blocks set_caret set_currentBlockIndex].
  apply updateBlock_length.
Qed.

(** A split adds one block, which carries the fresh id, and logs
    nothing. *)
Lemma split_w_adds_one (dflt : Tool) (w : World) :
  List.length (blocks (split_w dflt w)) = S (List.length (blocks w))
  /\ (exists fb, findBlock (nextId w) (blocks (split_w dflt w)) = Some fb)
  /\ trace (split_w dflt w) = trace w
  /\ toolbarOpened (split_w dflt w) = toolbarOpened w.
Proof.
  assert (Hfind : forall n t s bs,
             exists fb,
               findBlock (nextId w) (insertAt n (composeBlock (nextId w) t s) bs)
               = Some fb).
  { intros n t s bs.
    destruct (findBlock_In _ _ (insertAt_In n (composeBlock (nextId w) t s) bs))
      as (fb & Hfb & _).
    eauto. }
  unfold split_w.
  destruct (currentBlock w) as [cb|].
  - destruct (caret w) as [[[b i] o]|]; [destruct (Nat.eqb b (bid cb))|];
      unfold insert_w;
      cbn [blocks trace toolbarOpened nextId currentBlockIndex set_blocks
           set_nextId set_currentBlockIndex];
      rewrite insertAt_length, ?updateBlock_length; repeat split;
      apply Hfind.
  - unfold insert_w;
      cbn [blocks trace toolbarOpened nextId currentBlockIndex set_blocks
           set_nextId set_currentBlockIndex].
    rewrite insertAt_length. repeat split. apply Hfind.
Qed.

Section EnterAnywhere.
Variable env : Env.

Lemma enter_outcome (event : KeyboardEvent) (w : World) :
  exists w',
    BlockEvents.enter env event w = (Normal tt, w')
    /\ if enterTakesOver env event w then
         List.length (blocks w') = S (List.length (blocks w))
         /\ toolbarOpened w' = true
         /\ exists structural focused,
              newCalls w w'
              = [structural; Caret_setToBlock focused DEFAULT;
                 Toolbar_moveAndOpen (Some focused); Event_preventDefault]
       else w' = w.
Proof.
  unfold enterTakesOver.
  destruct (currentBlock w) as [cb|] eqn:Hcur.
  2:{ exists w. runH. rewrite Hcur. split; reflexivity. }
  runH. rewrite Hcur. runH.
  destruct (isLineBreaksEnabled (tool cb)); do 2 runH; [eauto|].
  destruct (UI.someToolbarOpened w && someFlipperButtonFocused w);
    do 2 runH; [eauto|].
  destruct (shiftKey event && negb (isIosDevice env)); do 2 runH; [eauto|].
  assert (Hfin : forall (w1 : World) (f : Block) (c : Call),
             List.length (blocks w1) = S (List.length (blocks w)) ->
             trace w1 = trace w ++ [c] ->
             let w' :=
               log Event_preventDefault
                 (set_toolbarOpened true
                    (log (Toolbar_moveAndOpen (Some (bid f)))
                       (Caret.setToBlock_w (bid f) DEFAULT
                          (log (Caret_setToBlock (bid f) DEFAULT) w1)))) in
             List.length (blocks w') = S (List.length (blocks w))
             /\ toolbarOpened w' = true
             /\ exists structural focused,
                  newCalls w w'
                  = [structural; Caret_setToBlock focused DEFAULT;
                     Toolbar_moveAndOpen (Some focused);
                     Event_preventDefault]).
  { intros w1 f c Hlen Htr w'. subst w'. projW.
    rewrite setToBlock_w_length. projW. split; [assumption|].
    split; [reflexivity|]. exists c, (bid f).
    apply newCalls_app. projW. rewrite setToBlock_w_trace. projW.
    rewrite Htr, <- !app_assoc. reflexivity. }
  destruct (match currentInput cb with Some _ => true | None => false end
            && caretUtils.isCaretAtStartOfInput w cb (currentInput cb)
            && negb (hasMedia cb)); do 2 runH.
  - eexists. split; [reflexivity|].
    apply (Hfin _ cb (BlockManager_insertDefaultBlockAtIndex
                        (currentBlockIndex w) false)).
    + unfold insert_w. projW. apply insertAt_length.
    + unfold insert_w. projW. reflexivity.
  - destruct (match currentInput cb with Some _ => true | None => false end
              && caretUtils.isCaretAtEndOfInput w cb (currentInput cb));
      do 2 runH.
    + eexists. split; [reflexivity|].
      apply (Hfin _ (composeBlock (nextId w) (defaultTool env) "")
               (BlockManager_insertDefaultBlockAtIndex
                  (currentBlockIndex w + 1) false)).
      * unfold insert_w. projW. apply insertAt_length.
      * unfold insert_w. projW. reflexivity.
    + destruct (split_w_adds_one (defaultTool env)
                  (log BlockManager_split w))
        as (Hlen & (fb & Hfb) & Htr & _).
      projW. cbn [nextId log] in Hfb. rewrite Hfb. runH.
      eexists. split; [reflexivity|].
      apply (Hfin _ fb BlockManager_split).
      * rewrite Hlen. reflexivity.
      * rewrite Htr. reflexivity.
Qed.

(** X11.  Enter never faults.  With no current block, a tool that
    enables line breaks, a focused flipper button of an open toolbar,
    or Shift held off iOS, it leaves the world as it is.  In every
    other case, whatever the state of the store, exactly one block is
    added, the toolbar is open when it returns, and the last three
    calls set the caret to a block, move the toolbar to that same
    block and call preventDefault. *)
Theorem enter_native_or_custom (event : KeyboardEvent) (w : World) :
  exists w',
    BlockEvents.enter env event w = (Normal tt, w')
    /\ if enterTakesOver env event w then
         List.length (blocks w') = S (List.length (blocks w))
         /\ toolbarOpened w' = true
         /\ exists structural focused,
              newCalls w w'
              = [structural; Caret_setToBlock focused DEFAULT;
                 Toolbar_moveAndOpen (Some focused); Event_preventDefault]
       else w' = w.
Proof. apply enter_outcome. Qed.
End EnterAnywhere.

(** ** Enter, then Backspace *)

Lemma setNth_length {A} (n : nat) (x : A) (l : list A) :
  List.length (setNth n x l) = List.length l.
Proof.
  revert n. induction l as [|y r IH]; intros [|n]; cbn; auto.
Qed.

Lemma nth_setNth {A} (n : nat) (x d : A) (l : list A) :
  (n < List.length l)%nat -> nth n (setNth n x l) d = x.
Proof.
  revert n. induction l as [|y r IH]; intros [|n] H; cbn in *;
    try lia; auto. apply IH. lia.
Qed.

Lemma setNth_setNth {A} (n : nat) (x y : A) (l : list A) :
  setNth n y (setNth n x l) = setNth n y l.
Proof.
  revert n. induction l as [|z r IH]; intros [|n]; cbn; auto.
  now rewrite IH.
Qed.

Lemma setNth_nth {A} (n : nat) (d : A) (l : list A) :
  setNth n (nth n l d) l = l.
Proof.
  revert n. induction l as [|z r IH]; intros [|n]; cbn; auto.
  now rewrite IH.
Qed.

Lemma substring_length (n m : nat) (s : string) :
  (n + m <= String.length s)%nat -> String.length (substring n m s) = m.
Proof.
  revert n m. induction s as [|c s IH]; intros n m H; cbn in H.
  - destruct n, m; cbn; lia.
  - destruct n as [|n].
    + destruct m as [|m]; cbn; [reflexivity|]. rewrite IH; lia.
    + cbn. apply IH. lia.
Qed.

Lemma isEmpty_false_at (b : Block) (i : nat) :
  (i < List.length (inputs b))%nat ->
  (0 < String.length (inputText b i))%nat ->
  isEmpty b = false.
Proof.
  unfold isEmpty, inputText. intros Hi Hlen.
  destruct (forallb (fun s => String.eqb s "") (inputs b)) eqn:E;
    [|reflexivity].
  rewrite forallb_forall in E.
  specialize (E (nth i (inputs b) "") (nth_In _ _ Hi)).
  apply String.eqb_eq in E. rewrite E in Hlen. cbn in Hlen. lia.
Qed.

Lemma lastInput_lt (b : Block) (li : nat) :
  lastInput b = Some li -> (li < List.length (inputs b))%nat.
Proof.
  unfold lastInput. destruct (inputs b) as [|x r]; [discriminate|].
  intros [= <-]. cbn. lia.
Qed.

Lemma lastInput_length (b : Block) :
  lastInput b = match List.length (inputs b) with
                | O => None
                | S n => Some n
                end.
Proof. unfold lastInput. destruct (inputs b); reflexivity. Qed.

Lemma split_w_isCollapsed (dflt : Tool) (w : World) :
  isCollapsed (split_w dflt w) = isCollapsed w.
Proof.
  unfold split_w. destruct (currentBlock w) as [cb|]; [|reflexivity].
  destruct (caret w) as [[[b i] o]|]; [destruct (Nat.eqb b (bid cb))|];
    reflexivity.
Qed.

Lemma set_inputs_same (b : Block) : set_inputs (inputs b) b = b.
Proof. destruct b; reflexivity. Qed.

Lemma NoDup_insert_fresh {A} (l1 l2 : list A) (a n : A) :
  NoDup (l1 ++ a :: l2) -> ~ In n (l1 ++ a :: l2) ->
  NoDup (l1 ++ a :: n :: l2).
Proof.
  induction l1 as [|x r IH]; cbn [app]; intros Hnd Hn.
  - inversion Hnd as [|? ? Ha Hl2]; subst. cbn [In] in Hn.
    constructor.
    + cbn [In]. intros [E|E]; [apply Hn; now left|contradiction].
    + constructor; [tauto|assumption].
  - inversion Hnd as [|? ? Hx Hr]; subst. cbn [In] in Hn.
    constructor.
    + rewrite in_app_iff in *. cbn [In] in *.
      intros [H|[H|[H|H]]]; try tauto. apply Hn. now left.
    + apply IH; [assumption|tauto].
Qed.

Section RoundTrip.
Variable env : Env.

(** Enter with the caret strictly inside the focused input runs the
    split branch. *)
Lemma enter_split_run (entered : KeyboardEvent) (w : World)
      (cb second : Block) (li o : nat) :
  currentBlock w = Some cb ->
  isLineBreaksEnabled (tool cb) = false ->
  UI.someToolbarOpened w && someFlipperButtonFocused w = false ->
  shiftKey entered && negb (isIosDevice env) = false ->
  currentInput cb = Some li ->
  caret w = Some (bid cb, li, o) ->
  (0 < o < String.length (inputText cb li))%nat ->
  findBlock (nextId w)
    (blocks (split_w (defaultTool env) (log BlockManager_split w)))
  = Some second ->
  BlockEvents.enter env entered w
  = (Normal tt,
     log Event_preventDefault
       (set_toolbarOpened true
          (log (Toolbar_moveAndOpen (Some (bid second)))
             (Caret.setToBlock_w (bid second) DEFAULT
                (log (Caret_setToBlock (bid second) DEFAULT)
                   (split_w (defaultTool env)
                      (log BlockManager_split w))))))).
Proof.
  intros Hcur Hlb Htb Hshift Hci Hcar Ho Hfind.
  runH. rewrite Hcur. runH. rewrite Hlb. runH. rewrite Htb. runH.
  rewrite Hshift. runH.
  unfold caretUtils.isCaretAtStartOfInput,
    caretUtils.isCaretAtEndOfInput.
  rewrite Hci, Hcar, !Nat.eqb_refl.
  replace (Nat.eqb o 0) with false
    by (symmetry; apply Nat.eqb_neq; lia).
  replace (Nat.eqb o (String.length (inputText cb li))) with false
    by (symmetry; apply Nat.eqb_neq; lia).
  do 2 runH. rewrite Hfind. runH. reflexivity.
Qed.

(** The block is split at the caret, and the second half is the current
    block with the caret at its start. *)
Lemma enter_splits_inside (entered : KeyboardEvent)
      (w : World) (pre post : list Block) (cb : Block) (li o : nat) :
  blocks w = pre ++ cb :: post ->
  currentBlockIndex w = Z.of_nat (List.length pre) ->
  wellFormed w ->
  isCollapsed w = true ->
  isLineBreaksEnabled (tool cb) = false ->
  UI.someToolbarOpened w && someFlipperButtonFocused w = false ->
  shiftKey entered && negb (isIosDevice env) = false ->
  currentInput cb = Some li ->
  lastInput cb = Some li ->
  caret w = Some (bid cb, li, o) ->
  (0 < o < String.length (inputText cb li))%nat ->
  exists w1,
    BlockEvents.enter env entered w = (Normal tt, w1)
    /\ blocks w1 = pre ++ fst (splitHalves w cb) :: snd (splitHalves w cb)
                     :: post
    /\ currentBlockIndex w1 = Z.of_nat (S (List.length pre))
    /\ isCollapsed w1 = true
    /\ caret w1 = Some (nextId w, 0, 0)%nat.
Proof.
  intros Hbs Hidx Hwf Hcol Hlb Htb Hshift Hci Hli Hcar Ho.
  pose proof (wellFormed_fresh w Hwf) as Hfresh.
  destruct Hwf as [Hnd0 Hlt].
  rewrite Hbs, map_app, in_app_iff in Hfresh. cbn [map In] in Hfresh.
  assert (Hcur : currentBlock w = Some cb).
  { unfold currentBlock. rewrite Hbs, Hidx. apply nthZ_middle. }
  destruct (split_w_blocks (defaultTool env) (log BlockManager_split w)
              pre post cb Hbs Hidx Hnd0) as [Hsb _].
  change (splitHalves (log BlockManager_split w) cb)
    with (splitHalves w cb) in Hsb.
  remember (fst (splitHalves w cb)) as first eqn:Ef.
  remember (snd (splitHalves w cb)) as second eqn:Es.
  assert (Hbf : bid first = bid cb).
  { subst first. unfold splitHalves. rewrite Hcar, Nat.eqb_refl.
    reflexivity. }
  assert (Hsecond : second
                    = composeBlock (nextId w) (tool cb)
                        (substring o (String.length (inputText cb li) - o)
                           (inputText cb li))).
  { subst second. unfold splitHalves. rewrite Hcar, Nat.eqb_refl.
    reflexivity. }
  assert (Hbsec : bid second = nextId w) by (now rewrite Hsecond).
  replace (pre ++ first :: second :: post)
    with ((pre ++ [first]) ++ second :: post) in Hsb
    by (rewrite <- app_assoc; reflexivity).
  assert (Hmid : ~ In (bid second) (map bid (pre ++ [first]))).
  { rewrite Hbsec, map_app, in_app_iff. cbn [map In]. rewrite Hbf.
    tauto. }
  assert (Hpost : ~ In (bid second) (map bid post))
    by (rewrite Hbsec; tauto).
  remember (split_w (defaultTool env) (log BlockManager_split w))
    as ws eqn:Ews.
  assert (Hfind : findBlock (nextId w) (blocks ws) = Some second).
  { rewrite Hsb, <- Hbsec. now apply findBlock_middle. }
  assert (Hcolws : isCollapsed ws = true).
  { subst ws. rewrite split_w_isCollapsed. exact Hcol. }
  destruct (focus_phase ws (pre ++ [first]) post second Hsb Hmid Hpost)
    as (Hb1 & Hc1 & Hcar1 & _ & _).
  eexists. split.
  { apply (enter_split_run entered w cb second li o); try assumption.
    rewrite <- Ews. exact Hfind. }
  rewrite <- Ews.
  split; [rewrite Hb1, <- app_assoc; reflexivity|].
  split.
  { projW. rewrite (setToBlock_w_found _ _ _ second)
      by (projW; rewrite Hbsec; exact Hfind).
    projW. unfold indexZ. rewrite Hsb.
    rewrite (indexOf_middle (bid second) (pre ++ [first]) post second
               Hmid eq_refl).
    rewrite length_app. cbn [List.length]. f_equal. lia. }
  split.
  { projW. rewrite (setToBlock_w_found _ _ _ second)
      by (projW; rewrite Hbsec; exact Hfind).
    projW. exact Hcolws. }
  rewrite Hcar1, Hsecond. reflexivity.
Qed.

(** Backspace at the start of a block that its predecessor can take in:
    the two become one, and the caret stands where they were joined. *)
Lemma backspace_merges_back (erased : KeyboardEvent) (w : World)
      (pre post : list Block) (pb cb : Block) (li : nat) :
  blocks w = pre ++ pb :: cb :: post ->
  currentBlockIndex w = Z.of_nat (S (List.length pre)) ->
  NoDup (map bid (blocks w)) ->
  atStartOfBlock w cb ->
  isEmpty pb = false ->
  isEmpty cb = false ->
  areBlocksMergeable env pb cb = true ->
  lastInput pb = Some li ->
  exists w',
    BlockEvents.backspace env erased w = (Normal tt, w')
    /\ blocks w' = pre ++ mergeWith cb pb :: post
    /\ currentBlockIndex w' = Z.of_nat (List.length pre)
    /\ caret w' = Some (bid pb, li, String.length (inputText pb li)).
Proof.
  intros Hbs Hidx Hnd Hstart Hpb Hcb Hmerge Hli.
  pose proof Hnd as Hnd0. rewrite Hbs in Hnd.
  destruct (NoDup_middle pre (cb :: post) pb Hnd) as (Hp1 & Hp2 & _).
  assert (Hcurb : currentBlock w = Some cb).
  { unfold currentBlock. rewrite Hbs, Hidx.
    replace (pre ++ pb :: cb :: post) with ((pre ++ [pb]) ++ cb :: post)
      by (rewrite <- app_assoc; reflexivity).
    replace (S (List.length pre)) with (List.length (pre ++ [pb]))
      by (rewrite length_app; cbn; lia).
    apply nthZ_middle. }
  assert (Hprev : previousBlock w = Some pb).
  { unfold previousBlock. rewrite Hbs, Hidx.
    replace (Z.of_nat (S (List.length pre)) - 1)%Z
      with (Z.of_nat (List.length pre)) by lia.
    apply nthZ_middle. }
  rewrite (backspace_passes_guards env erased w cb Hcurb Hstart).
  rewrite Hprev, Hpb, Hcb, Hmerge.
  destruct (absorbed_fields w) as (Ab & Ai & Ac & _ & _ & At).
  unfold BlockEvents.mergeBlocks. rewrite Hli. runH.
  rewrite Ab.
  assert (Hff : findBlock (bid pb) (blocks w) = Some pb).
  { rewrite Hbs. now apply findBlock_middle. }
  rewrite Hff.
  eexists. split; [reflexivity|].
  projW.
  match goal with
  | |- context [mergeBlocks_w ?t ?a ?b ?wx] =>
      destruct (mergeBlocks_w_adjacent t wx pre post pb cb)
        as [Hmb Hmi]
  end.
  { projW. rewrite Ab. exact Hbs. }
  { projW. rewrite Ab. exact Hnd0. }
  { intros E. unfold lastInput in Hli. rewrite E in Hli. discriminate. }
  rewrite Hmb, Hmi, mergeBlocks_w_caret. projW.
  repeat split.
Qed.

(** X12.  Enter with the caret strictly inside the last input of a
    block, followed by Backspace, is a round trip when the block's
    type merges with itself: Enter adds a block, Backspace takes it
    away again, and the block list, the current index and the caret
    are exactly as they were before the two keys. *)
Theorem enter_then_backspace_restores (entered erased : KeyboardEvent)
        (w : World) (pre post : list Block) (cb : Block) (li o : nat) :
  blocks w = pre ++ cb :: post ->
  currentBlockIndex w = Z.of_nat (List.length pre) ->
  wellFormed w ->
  isCollapsed w = true ->
  isLineBreaksEnabled (tool cb) = false ->
  UI.someToolbarOpened w && someFlipperButtonFocused w = false ->
  shiftKey entered && negb (isIosDevice env) = false ->
  currentInput cb = Some li ->
  lastInput cb = Some li ->
  caret w = Some (bid cb, li, o) ->
  (0 < o < String.length (inputText cb li))%nat ->
  compatible env (toolName (tool cb)) (toolName (tool cb)) = true ->
  exists w1 w2,
    BlockEvents.enter env entered w = (Normal tt, w1)
    /\ BlockEvents.backspace env erased w1 = (Normal tt, w2)
    /\ List.length (blocks w1) = S (List.length (blocks w))
    /\ blocks w2 = blocks w
    /\ currentBlockIndex w2 = currentBlockIndex w
    /\ caret w2 = caret w.
Proof.
  intros Hbs Hidx Hwf Hcol Hlb Htb Hshift Hci Hli Hcar Ho Hcompat.
  destruct (enter_splits_inside entered w pre post cb li o Hbs Hidx Hwf
              Hcol Hlb Htb Hshift Hci Hli Hcar Ho)
    as (w1 & Henter & Hb1 & Hidx1 & Hcol1 & Hcar1).
  pose proof (wellFormed_fresh w Hwf) as Hfresh.
  destruct Hwf as [Hnd _].
  rewrite Hbs in Hnd, Hfresh.
  pose proof (lastInput_lt cb li Hli) as Hlilt.
  remember (inputText cb li) as s eqn:Es.
  remember (substring 0 o s) as hd eqn:Ehd.
  remember (substring o (String.length s - o) s) as tl eqn:Etl.
  assert (Hhalves : splitHalves w cb
                    = (set_inputs (setNth li hd (inputs cb)) cb,
                       composeBlock (nextId w) (tool cb) tl)).
  { unfold splitHalves. rewrite Hcar, Nat.eqb_refl. subst. reflexivity. }
  rewrite Hhalves in Hb1. cbn [fst snd] in Hb1.
  remember (set_inputs (setNth li hd (inputs cb)) cb) as first eqn:Ef.
  remember (composeBlock (nextId w) (tool cb) tl) as second eqn:Esec.
  assert (Hlen_hd : String.length hd = o).
  { subst hd. apply substring_length. lia. }
  assert (Hlen_tl : String.length tl = (String.length s - o)%nat).
  { subst tl. apply substring_length. lia. }
  assert (Hbf : bid first = bid cb) by (subst first; reflexivity).
  assert (Hif : inputs first = setNth li hd (inputs cb))
    by (subst first; reflexivity).
  assert (Htf : tool first = tool cb) by (subst first; reflexivity).
  assert (Hfirst_text : inputText first li = hd).
  { unfold inputText. rewrite Hif. now apply nth_setNth. }
  assert (Hefirst : isEmpty first = false).
  { apply (isEmpty_false_at first li).
    - now rewrite Hif, setNth_length.
    - rewrite Hfirst_text, Hlen_hd. lia. }
  assert (Hesecond : isEmpty second = false).
  { apply (isEmpty_false_at second 0); subst second; cbn; lia. }
  assert (Hlast_first : lastInput first = Some li).
  { rewrite lastInput_length in *. rewrite Hif, setNth_length.
    assumption. }
  assert (Hmerged : mergeWith second first = cb).
  { unfold mergeWith. rewrite Hlast_first, Hfirst_text, Hif.
    rewrite setNth_setNth.
    replace (content second) with tl
      by (subst second; reflexivity).
    assert (Hcat : String.append hd tl = s)
      by (subst hd tl; apply substring_halves; lia).
    rewrite Hcat, Es. unfold inputText. rewrite setNth_nth.
    subst first. destruct cb; reflexivity. }
  assert (Hstart : atStartOfBlock w1 second).
  { subst second. repeat split; [exact Hcol1|exact Hcar1]. }
  assert (Hnd1 : NoDup (map bid (blocks w1))).
  { rewrite Hb1, map_app. cbn [map]. rewrite Hbf.
    replace (bid second) with (nextId w) by (subst second; reflexivity).
    rewrite map_app in Hnd, Hfresh. cbn [map] in Hnd, Hfresh.
    now apply NoDup_insert_fresh. }
  assert (Hmg : areBlocksMergeable env first second = true).
  { unfold areBlocksMergeable. rewrite Htf. subst second.
    cbn [tool composeBlock]. exact Hcompat. }
  destruct (backspace_merges_back erased w1 pre post first second li
              Hb1 Hidx1 Hnd1 Hstart Hefirst Hesecond Hmg Hlast_first)
    as (w2 & Hback & Hb2 & Hidx2 & Hcar2).
  exists w1, w2.
  split; [exact Henter|]. split; [exact Hback|].
  split; [rewrite Hb1, Hbs, !length_app; cbn [List.length]; lia|].
  split; [rewrite Hb2, Hmerged, Hbs; reflexivity|].
  split; [congruence|].
  rewrite Hcar2, Hbf, Hfirst_text, Hlen_hd, Hcar. reflexivity.
Qed.
End RoundTrip.

Lemma enter_then_backspace_restores_witness :
  exists w1 w2,
    BlockEvents.enter Sample.env (Sample.pressed keyCodes.ENTER false)
      (Sample.world [Sample.text 0 "abcd"] 0 (Some (0, 0, 2)%nat))
    = (Normal tt, w1)
    /\ BlockEvents.backspace Sample.env
         (Sample.pressed keyCodes.BACKSPACE false) w1 = (Normal tt, w2)
    /\ List.length (blocks w1) = 2%nat
    /\ blocks w2 = [Sample.text 0 "abcd"]
    /\ currentBlockIndex w2 = 0%Z
    /\ caret w2 = Some (0, 0, 2)%nat.
Proof.
  apply (enter_then_backspace_restores Sample.env
           (Sample.pressed keyCodes.ENTER false)
           (Sample.pressed keyCodes.BACKSPACE false)
           (Sample.world [Sample.text 0 "abcd"] 0 (Some (0, 0, 2)%nat))
           [] [] (Sample.text 0 "abcd") 0 2); try reflexivity.
  - split; [apply (uniqueIds_NoDup []); reflexivity|repeat constructor].
  - cbn. lia.
Defined.

(** ** Arrows *)

Lemma clearSelection_none (bs : list Block) :
  existsb selected (map (set_selected false) bs) = false.
Proof. induction bs as [|b r IH]; [reflexivity|]. cbn. exact IH. Qed.

Section MoreArrows.
Variable env : Env.

(** X13.  Shift+Up with the caret at the start of the focused input, or
    with some block already selected: every open overlay is closed,
    the toolbar is closed, the event goes to
    toggleBlockSelectedState(false), and that is all: no caret call is
    made, and the caret, the text of every block and the current index
    stay as they were. *)
Theorem shift_up_extends_selection (event : KeyboardEvent) (w : World) :
  shiftKey event = true ->
  keyCode event = keyCodes.UP ->
  caretAtStartOfCurrentInput w || BlockSelection.anyBlockSelected w = true ->
  exists w',
    BlockEvents.arrowLeftAndUp env event w = (Normal tt, w')
    /\ newCalls w w'
       = (if UI.someToolbarOpened w then [UI_closeAllToolbars] else [])
         ++ [Toolbar_close;
             CrossBlockSelection_toggleBlockSelectedState false]
    /\ existsb isCaretCall (newCalls w w') = false
    /\ toolbarOpened w' = false
    /\ caret w' = caret w
    /\ map inputs (blocks w') = map inputs (blocks w)
    /\ currentBlockIndex w' = currentBlockIndex w.
Proof.
  intros Hshift Hkey Hcbs.
  unfold caretAtStartOfCurrentInput, BlockSelection.anyBlockSelected,
    currentBlock in Hcbs.
  assert (Hat : forall cb : Block,
             (if BlockEvents.defined (currentInput cb)
              then caretUtils.isCaretAtStartOfInput w cb (currentInput cb)
              else false)
             = caretUtils.isCaretAtStartOfInput w cb (currentInput cb)).
  { intros cb. unfold caretUtils.isCaretAtStartOfInput.
    destruct (currentInput cb); reflexivity. }
  unfold BlockEvents.arrowLeftAndUp. rewrite Hshift, Hkey.
  cbn [negb orb].
  replace (keyCodes.UP =? keyCodes.TAB)%Z with false by reflexivity.
  rewrite andb_false_r.
  unfold bind at 1. unfold gets at 1. rewrite andb_false_r.
  destruct (UI.someToolbarOpened w) eqn:Hopen; runH;
    unfold currentBlock, BlockSelection.anyBlockSelected,
      caretUtils.isCaretAtStartOfInput in *; projW;
    (destruct (nthZ (blocks w) (currentBlockIndex w)) as [cb|];
     [destruct (currentInput cb)|]);
    cbn [orb] in *; rewrite Hcbs; runH;
    (eexists; split; [reflexivity|]);
    (match goal with
     | |- newCalls ?a ?b = ?l /\ _ =>
         assert (Hcalls : newCalls a b = l)
           by (apply newCalls_app; projW; rewrite <- ?app_assoc;
               reflexivity);
         rewrite Hcalls
     end);
    repeat split.
Qed.

Lemma arrowRightAndDown_run (event : KeyboardEvent) (w : World) :
  flipperOwnsKey env event w = false ->
  shiftKey event && (keyCode event =? keyCodes.DOWN)%Z
  && (caretAtEndOfCurrentInput w || BlockSelection.anyBlockSelected w)
  = false ->
  BlockEvents.arrowRightAndDown env event w
  = let r := forwardNavigation env event w in
    if fst r then (Normal tt, log Event_preventDefault (snd r))
    else (Normal tt,
          set_blocks (map (set_selected false))
            (log BlockSelection_clearSelection
               (log delay_updateCurrentInput (snd r)))).
Proof.
  intros Hflip Hcbs.
  unfold flipperOwnsKey in Hflip.
  unfold caretAtEndOfCurrentInput, BlockSelection.anyBlockSelected,
    currentBlock in Hcbs.
  unfold BlockEvents.arrowRightAndDown.
  unfold bind at 1. unfold gets at 1. rewrite Hflip.
  unfold bind at 1. unfold Toolbar.close at 1, bind at 1.
  cbn [call modify]. fold (toolbarClosed w).
  unfold bind at 1. unfold gets at 1.
  unfold bind at 1. unfold gets at 1.
  unfold bind at 1. unfold gets at 1.
  assert (Hsame :
            (match currentBlock (toolbarClosed w) with
             | Some cb =>
                 if BlockEvents.defined (currentInput cb)
                 then caretUtils.isCaretAtEndOfInput (toolbarClosed w) cb
                        (currentInput cb)
                 else false
             | None => false
             end || BlockSelection.anyBlockSelected (toolbarClosed w))
            = (match nthZ (blocks w) (currentBlockIndex w) with
               | Some cb =>
                   caretUtils.isCaretAtEndOfInput w cb (currentInput cb)
               | None => false
               end || existsb selected (blocks w))).
  { unfold currentBlock, BlockSelection.anyBlockSelected, toolbarClosed.
    projW. f_equal.
    destruct (nthZ (blocks w) (currentBlockIndex w)) as [cb|];
      [|reflexivity].
    unfold caretUtils.isCaretAtEndOfInput. projW.
    destruct (currentInput cb); reflexivity. }
  rewrite Hsame, Hcbs.
  unfold forwardNavigation.
  destruct ((keyCode event =? keyCodes.DOWN)%Z
            || ((keyCode event =? keyCodes.RIGHT)%Z && negb (isRtl env))).
  - unfold Caret.navigateNext, bind, call, modify. cbv zeta.
    destruct (Caret.navigateNext_w false
                (log (Caret_navigateNext false) (toolbarClosed w)))
      as [[|] w1]; reflexivity.
  - unfold Caret.navigatePrevious, bind, call, modify. cbv zeta.
    destruct (Caret.navigatePrevious_w false
                (log (Caret_navigatePrevious false) (toolbarClosed w)))
      as [[|] w1]; reflexivity.
Qed.

(** What the navigation of Right / Down leaves of the toolbar and of the
    trace. *)
Lemma forwardNavigation_fields (event : KeyboardEvent) (w : World) :
  toolbarOpened (snd (forwardNavigation env event w)) = false
  /\ trace (snd (forwardNavigation env event w))
     = trace w ++ [Toolbar_close; forwardCall env event].
Proof.
  unfold forwardNavigation, forwardCall.
  destruct ((keyCode event =? keyCodes.DOWN)%Z
            || ((keyCode event =? keyCodes.RIGHT)%Z && negb (isRtl env))).
  - rewrite navigateNext_w_toolbarOpened, navigateNext_w_trace.
    unfold toolbarClosed. projW. rewrite <- app_assoc. split; reflexivity.
  - rewrite navigatePrevious_w_toolbarOpened, navigatePrevious_w_trace.
    unfold toolbarClosed. projW. rewrite <- app_assoc. split; reflexivity.
Qed.

(** X14.  A Right or Down key that neither belongs to an open toolbar's
    flipper nor extends the block selection: the toolbar is closed and
    the caret service is called to navigate (forwards, or backwards for
    Right in a right-to-left layout), and the handler leaves the world
    the service has navigated.  When the service answers that it moved,
    the only further call is preventDefault; when it did not, the resync
    of the focused input is scheduled and the block selection is
    cleared, so that no block is selected any more.  The toolbar is
    closed in both cases. *)
Theorem arrow_forward_navigates (event : KeyboardEvent) (w : World) :
  flipperOwnsKey env event w = false ->
  shiftKey event && (keyCode event =? keyCodes.DOWN)%Z
  && (caretAtEndOfCurrentInput w || BlockSelection.anyBlockSelected w)
  = false ->
  exists w',
    BlockEvents.arrowRightAndDown env event w = (Normal tt, w')
    /\ w' = (if fst (forwardNavigation env event w)
             then log Event_preventDefault
                    (snd (forwardNavigation env event w))
             else set_blocks (map (set_selected false))
                    (log BlockSelection_clearSelection
                       (log delay_updateCurrentInput
                          (snd (forwardNavigation env event w)))))
    /\ newCalls w w'
       = Toolbar_close :: forwardCall env event
         :: (if fst (forwardNavigation env event w)
             then [Event_preventDefault]
             else [delay_updateCurrentInput; BlockSelection_clearSelection])
    /\ toolbarOpened w' = false
    /\ (fst (forwardNavigation env event w) = false ->
        BlockSelection.anyBlockSelected w' = false).
Proof.
  intros Hflip Hcbs.
  rewrite (arrowRightAndDown_run event w Hflip Hcbs). cbv zeta.
  destruct (forwardNavigation_fields event w) as [Hto Htr].
  destruct (forwardNavigation env event w) as [moved w1].
  cbn [fst snd] in *.
  destruct moved; (eexists; split; [reflexivity|]);
    (split; [reflexivity|]).
  - split; [apply newCalls_app; projW; rewrite Htr, <- app_assoc;
            reflexivity|].
    split; [exact Hto|discriminate].
  - split; [apply newCalls_app; projW; rewrite Htr, <- !app_assoc;
            reflexivity|].
    split; [exact Hto|]. intros _.
    unfold BlockSelection.anyBlockSelected. projW.
    apply clearSelection_none.
Qed.
End MoreArrows.

(** ** Before every keydown, and keys with no handler *)

Lemma returns_bind {S} (m k : M S unit) :
  returns m -> returns k -> returns (bind m (fun _ => k)).
Proof.
  intros Hm Hk s. destruct (Hm s) as (s1 & H1). destruct (Hk s1) as (s2 & H2).
  exists s2. unfold bind. rewrite H1. exact H2.
Qed.

Lemma returns_ret {S} : returns (@ret S unit tt).
Proof. intros s. exists s. reflexivity. Qed.

Lemma returns_if {S} (b : bool) (m k : M S unit) :
  returns m -> returns k -> returns (if b then m else k).
Proof. destruct b; auto. Qed.

Section BeforeKeydown.
Variable env : Env.

Lemma beforeKeydownProcessing_run (event : KeyboardEvent) (w : World) :
  exists w',
    BlockEvents.beforeKeydownProcessing env event w = (Normal tt, w')
    /\ caret w' = caret w
    /\ currentBlockIndex w' = currentBlockIndex w
    /\ map inputs (blocks w') = map inputs (blocks w)
    /\ existsb isPreventDefault (newCalls w w') = false
    /\ if BlockEvents.needToolbarClosing event w
          && isPrintableKey env (keyCode event)
       then toolbarOpened w' = false
            /\ if isShortcut event then blocks w' = blocks w
               else BlockSelection.anyBlockSelected w' = false
       else w' = w.
Proof.
  unfold isShortcut. runH.
  destruct (BlockEvents.needToolbarClosing event w); do 2 runH.
  2:{ exists w. rewrite newCalls_same. repeat split. }
  destruct (isPrintableKey env (keyCode event)); do 2 runH.
  2:{ exists w. rewrite newCalls_same. repeat split. }
  destruct (ctrlKey event || metaKey event || altKey event
            || shiftKey event); do 2 runH;
    (eexists; split; [reflexivity|]); projW.
  - rewrite (newCalls_app _ _ [Toolbar_close]) by reflexivity.
    repeat split.
  - rewrite (newCalls_app _ _ [Toolbar_close;
                               BlockSelection_clearSelection])
      by (projW; rewrite <- app_assoc; reflexivity).
    repeat split.
    + rewrite map_map. reflexivity.
    + unfold BlockSelection.anyBlockSelected. projW.
      apply clearSelection_none.
Qed.



End BeforeKeydown.

(** ** Which keydowns can fault *)

Ltac branches :=
  repeat (match goal with
          | |- context [match ?x with _ => _ end] =>
              match x with
              | context [match _ with _ => _ end] => fail 1
              | _ => destruct x eqn:?
              end
          end; runH).

Section Returns.
Variable env : Env.

Lemma tabPressed_returns (event : KeyboardEvent) :
  returns (BlockEvents.tabPressed event).
Proof. intros w. runH. branches; eauto. Qed.

Lemma arrowRightAndDown_returns (event : KeyboardEvent) :
  returns (BlockEvents.arrowRightAndDown env event).
Proof. intros w. runH. branches; eauto. Qed.

Lemma arrowLeftAndUp_returns (event : KeyboardEvent) :
  returns (BlockEvents.arrowLeftAndUp env event).
Proof. intros w. runH. branches; eauto. Qed.

Lemma commandSlashPressed_returns :
  returns BlockEvents.commandSlashPressed.
Proof. intros w. runH. branches; eauto. Qed.

Lemma backspace_returns (event : KeyboardEvent) :
  returns (BlockEvents.backspace env event).
Proof.
  intros w. destruct (backspace_outcome env event w) as (w' & H & _).
  eauto.
Qed.

Lemma enter_returns (event : KeyboardEvent) :
  returns (BlockEvents.enter env event).
Proof.
  intros w. destruct (enter_outcome env event w) as (w' & H & _). eauto.
Qed.

Lemma beforeKeydownProcessing_returns (event : KeyboardEvent) :
  returns (BlockEvents.beforeKeydownProcessing env event).
Proof.
  intros w. destruct (beforeKeydownProcessing_run env event w)
    as (w' & H & _).
  eauto.
Qed.

(** X17.  A keydown can fault only through the Delete handler or the
    slash handler: for every other key, in every world, it returns. *)
Theorem keydown_returns_unless_delete_or_slash
        (event : KeyboardEvent) (w : World) :
  keyCode event <> keyCodes.DELETE ->
  String.eqb (key event) "/" && negb (ctrlKey event)
  && negb (metaKey event) = false ->
  exists w', BlockEvents.keydown env event w = (Normal tt, w').
Proof.
  intros Hdel Hslash. revert w.
  change (returns (BlockEvents.keydown env event)).
  unfold BlockEvents.keydown. rewrite Hslash.
  apply Z.eqb_neq in Hdel. rewrite Hdel.
  apply returns_bind; [apply beforeKeydownProcessing_returns|].
  apply returns_bind.
  { repeat apply returns_if;
      auto using backspace_returns, enter_returns,
        arrowRightAndDown_returns, arrowLeftAndUp_returns,
        tabPressed_returns, returns_ret. }
  apply returns_bind; [apply returns_ret|].
  apply returns_if; [|apply returns_ret].
  apply returns_bind; [|apply commandSlashPressed_returns].
  intros s. eexists. reflexivity.
Qed.
End Returns.

(** ** Slash *)

Lemma isEmpty_true_text (b : Block) (i : nat) :
  isEmpty b = true -> inputText b i = "".
Proof.
  unfold isEmpty, inputText. intros H.
  destruct (Nat.lt_ge_cases i (List.length (inputs b))) as [Hlt|Hge].
  - rewrite forallb_forall in H.
    apply String.eqb_eq. apply H. now apply nth_In.
  - now apply nth_overflow.
Qed.

Section Slash.

(** X18.  A slash typed in an empty current block: the native insertion
    is suppressed and the character is inserted by hand at the caret,
    so the focused input holds exactly the slash with the caret after
    it; the toolbar is moved and opened only if it was closed, and the
    toolbox is opened last.  Toolbar and toolbox are open on return. *)
Theorem slashPressed_opens_toolbox (event : KeyboardEvent) (w : World)
        (pre post : list Block) (cb : Block) (i : nat) :
  blocks w = pre ++ cb :: post ->
  currentBlockIndex w = Z.of_nat (List.length pre) ->
  NoDup (map bid (blocks w)) ->
  isEmpty cb = true ->
  caret w = Some (bid cb, i, 0)%nat ->
  exists w',
    BlockEvents.slashPressed event w = (Normal tt, w')
    /\ blocks w' = pre ++ set_inputs (setNth i "/" (inputs cb)) cb :: post
    /\ caret w' = Some (bid cb, i, 1)%nat
    /\ toolbarOpened w' = true
    /\ toolboxOpened w' = true
    /\ newCalls w w'
       = [Event_preventDefault; Caret_insertContentAtCaretPosition "/"]
         ++ (if toolbarOpened w then [] else [Toolbar_moveAndOpen None])
         ++ [Toolbox_open].
Proof.
  intros Hbs Hidx Hnd Hemp Hcar.
  assert (Hcur : currentBlock w = Some cb).
  { unfold currentBlock. rewrite Hbs, Hidx. apply nthZ_middle. }
  rewrite Hbs in Hnd.
  destruct (NoDup_middle pre post cb Hnd) as (Hc1 & Hc2 & _).
  runH. rewrite Hcur. runH. rewrite Hemp. do 2 runH.
  set (wi := Caret.insertContent_w "/"
               (log (Caret_insertContentAtCaretPosition "/")
                  (log Event_preventDefault w))).
  assert (Hwi : blocks wi
                = pre ++ set_inputs (setNth i "/" (inputs cb)) cb :: post
                /\ caret wi = Some (bid cb, i, 1)%nat
                /\ toolbarOpened wi = toolbarOpened w
                /\ trace wi
                   = trace w ++ [Event_preventDefault;
                                 Caret_insertContentAtCaretPosition "/"]).
  { subst wi. unfold Caret.insertContent_w. projW. rewrite Hcar. projW.
    rewrite Hbs.
    rewrite (updateBlock_middle (bid cb) _ pre post cb Hc1 Hc2 eq_refl).
    rewrite (isEmpty_true_text cb i Hemp).
    rewrite <- app_assoc. repeat split. }
  destruct Hwi as (Hb & Hc & Ho & Ht). rewrite Ho.
  destruct (toolbarOpened w) eqn:Hopen; do 2 runH;
    (eexists; split; [reflexivity|]); projW;
    (split; [assumption|]); (split; [assumption|]);
    (split; [try reflexivity; congruence|]); (split; [reflexivity|]);
    apply newCalls_app; projW; rewrite Ht, <- ?app_assoc; reflexivity.
Qed.

(** X19.  Ctrl or Cmd with Slash: with more than one block selected
    nothing happens; otherwise the toolbar and the block settings are
    open on return, and the handler has reached a fixed point: a second
    press changes nothing and makes no call. *)
Theorem commandSlashPressed_settles (w : World) :
  exists w',
    BlockEvents.commandSlashPressed w = (Normal tt, w')
    /\ if (1 <? List.length (BlockSelection.selectedBlocks w))%nat
       then w' = w
       else toolbarOpened w' = true
            /\ blockSettingsOpened w' = true
            /\ blocks w' = blocks w
            /\ BlockEvents.commandSlashPressed w' = (Normal tt, w').
Proof.
  runH. unfold BlockSelection.selectedBlocks.
  destruct (1 <? List.length (filter selected (blocks w)))%nat eqn:Hsel;
    do 2 runH; [eauto|].
  destruct (toolbarOpened w) eqn:Ho; do 2 runH;
    destruct (blockSettingsOpened w) eqn:Hs; do 2 runH;
    (eexists; split; [reflexivity|]); projW;
    rewrite ?Ho, ?Hs; repeat split;
    unfold BlockSelection.selectedBlocks; projW;
    rewrite Hsel; do 3 (runH; rewrite ?Ho, ?Hs); reflexivity.
Qed.
End Slash.

(** ** Drop-target highlight *)

Lemma set_blocks_same (w : World) (bs : list Block) :
  blocks w = bs -> set_blocks (fun _ => bs) w = w.
Proof. intros <-. destruct w; reflexivity. Qed.

Lemma set_dropTarget_same (b : Block) (v : bool) :
  dropTarget b = v -> set_dropTarget v b = b.
Proof. intros <-. destruct b; reflexivity. Qed.

(** X20.  Drag-over marks the block that owns the event target, and only
    that block; drag-leave on the same target takes the mark off again.
    Neither makes any call, and when the block was not marked before,
    the pair leaves the world exactly as it found it. *)
Theorem dragOver_dragLeave_round_trip (event : DragEvent) (w : World)
        (pre post : list Block) (b : Block) :
  blocks w = pre ++ b :: post ->
  NoDup (map bid (blocks w)) ->
  target event = ChildOf (bid b) ->
  exists w1 w2,
    BlockEvents.dragOver event w = (Normal tt, w1)
    /\ blocks w1 = pre ++ set_dropTarget true b :: post
    /\ BlockEvents.dragLeave event w1 = (Normal tt, w2)
    /\ blocks w2 = pre ++ set_dropTarget false b :: post
    /\ trace w2 = trace w
    /\ (dropTarget b = false -> w2 = w).
Proof.
  intros Hbs Hnd Htarget.
  rewrite Hbs in Hnd.
  destruct (NoDup_middle pre post b Hnd) as (Hb1 & Hb2 & _).
  assert (H1 : BlockEvents.dragOver event w
               = (Normal tt,
                  set_blocks (fun _ => pre ++ set_dropTarget true b :: post)
                    w)).
  { runH. unfold getBlockByChildNode. rewrite Htarget, Hbs.
    rewrite (findBlock_middle (bid b) pre post b Hb1 eq_refl). runH.
    unfold set_blocks. rewrite Hbs.
    rewrite (updateBlock_middle (bid b) _ pre post b Hb1 Hb2 eq_refl).
    reflexivity. }
  set (w1 := set_blocks (fun _ => pre ++ set_dropTarget true b :: post) w)
    in *.
  assert (H2 : BlockEvents.dragLeave event w1
               = (Normal tt,
                  set_blocks (fun _ => pre ++ set_dropTarget false b :: post)
                    w)).
  { runH. unfold getBlockByChildNode. rewrite Htarget. subst w1. projW.
    rewrite (findBlock_middle (bid b) pre post (set_dropTarget true b) Hb1
               eq_refl). runH.
    unfold set_blocks. projW.
    rewrite (updateBlock_middle (bid b) _ pre post (set_dropTarget true b)
               Hb1 Hb2 eq_refl).
    reflexivity. }
  exists w1, (set_blocks (fun _ => pre ++ set_dropTarget false b :: post) w).
  repeat split; try assumption.
  intros Hd. apply set_blocks_same.
  rewrite (set_dropTarget_same b false Hd). assumption.
Qed.

(** ** Drop on an empty sequence, and the internal drag *)

Section MoreDrop.
Import DragNDrop DragSession.

(** X21.  A drop faults in exactly one situation: the block list is
    empty, so that neither the event target nor a last block gives a
    block to put the caret in. *)
Theorem processDrop_faults_iff (e : DragEvent) (self : Self) (w : World) :
  fst (processDrop e (self, w)) = TypeError <-> blocks w = [].
Proof.
  split.
  - intros Hf. destruct (blocks w) as [|b r] eqn:Hb; [reflexivity|].
    exfalso.
    assert (Hne : blocks w <> []) by (rewrite Hb; discriminate).
    destruct (resolveDropTarget_total e w Hne) as (tb & Hres).
    destruct (processDrop_run e self w tb Hres) as (fb & w' & Hrun & _).
    rewrite Hrun in Hf. discriminate.
  - intros Hb. destruct w as [bs ci ni ca col ate tbo txo bso ito sff tr].
    cbn [blocks] in Hb. subst bs. destruct self as [started].
    destruct e as [[o|] d]; destruct ate, col, started; reflexivity.
Qed.

(** X22.  A drag that starts while a non-collapsed selection is inside
    the editor is an internal one: if the selection is still there,
    the drop that follows deletes it, wherever it lands. *)
Theorem internal_drag_deletes_selection (e : DragEvent) (s : St) :
  selectionInEditor s = true ->
  flag (step DragStarted s) = true
  /\ deletesSelection e (step DragStarted s) = true.
Proof.
  destruct s as [self w]. unfold selectionInEditor, flag, deletesSelection.
  cbn [fst snd step]. intros Hsel.
  assert (Hstart : snd (processDragStart (self, w))
                   = (mkSelf true,
                      set_inlineToolbarOpened false
                        (log InlineToolbar_close w))).
  { runM. rewrite Hsel. runM. reflexivity. }
  rewrite Hstart. cbn [fst snd isStartedAtEditor]. split; [reflexivity|].
  set (w0 := set_inlineToolbarOpened false (log InlineToolbar_close w)).
  assert (Hhas : forall w' l,
             trace w' = trace w0
                        ++ Event_preventDefault
                        :: document_execCommand_delete :: l ->
             existsb isExecDelete (newCalls w0 w') = true).
  { intros w' l Ht. rewrite (newCalls_app _ _ _ Ht). reflexivity. }
  runM. fold w0.
  replace (isAtEditor w0) with (isAtEditor w) by reflexivity.
  replace (isCollapsed w0) with (isCollapsed w) by reflexivity.
  rewrite Hsel. cbn [andb isStartedAtEditor]. runM.
  destruct (getBlockByChildNode _ (target e)); runM.
  - unfold Caret.setToBlock_w. runM.
    destruct (findBlock _ _); runM;
      (eapply Hhas; runM; rewrite <- ?app_assoc; reflexivity).
  - destruct (lastBlock _) as [lb|]; runM.
    + destruct (getBlockByChildNode _ (holder lb)); runM.
      * unfold Caret.setToBlock_w. runM.
        destruct (findBlock _ _); runM;
          (eapply Hhas; runM; rewrite <- ?app_assoc; reflexivity).
      * eapply Hhas; runM; rewrite <- ?app_assoc; reflexivity.
    + eapply Hhas; runM; rewrite <- ?app_assoc; reflexivity.
Qed.
End MoreDrop.

(** ** Cut *)

Lemma firstSelectedIndex_some (bs : list Block) :
  existsb selected bs = true -> exists i, firstSelectedIndex bs = Some i.
Proof.
  induction bs as [|b r IH]; [discriminate|].
  cbn [existsb firstSelectedIndex]. destruct (selected b); [eauto|].
  cbn [orb]. intros H. destruct (IH H) as (i & ->). cbn. eauto.
Qed.

(** The blocks before the first selected one survive the removal, in
    place. *)
Lemma firstSelectedIndex_split (bs : list Block) (i : nat) :
  firstSelectedIndex bs = Some i ->
  List.length (firstn i bs) = i
  /\ Forall (fun b => selected b = false) (firstn i bs)
  /\ filter unselected bs = firstn i bs ++ filter unselected (skipn i bs).
Proof.
  revert i. induction bs as [|b r IH]; intros i; [discriminate|].
  cbn [firstSelectedIndex]. destruct (selected b) eqn:E.
  - intros [= <-]. repeat split. constructor.
  - destruct (firstSelectedIndex r) as [j|]; [|discriminate].
    intros [= <-]. destruct (IH j eq_refl) as (Hl & Hf & Hs).
    cbn [firstn skipn List.length filter]. unfold unselected at 1.
    rewrite E. cbn [negb]. 
    split; [now rewrite Hl|]. split; [now constructor|].
    cbn [app]. now rewrite Hs.
Qed.

Lemma clearSelection_unselected (bs : list Block) :
  Forall (fun b => selected b = false) bs ->
  map (set_selected false) bs = bs.
Proof.
  induction 1 as [|b r Hb _ IH]; [reflexivity|].
  cbn [map]. rewrite IH. f_equal. destruct b. cbn in Hb. subst.
  reflexivity.
Qed.

Lemma filter_unselected_all (bs : list Block) :
  Forall (fun b => selected b = false) (filter unselected bs).
Proof.
  apply Forall_forall. intros b Hb. apply filter_In in Hb as [_ Hb].
  unfold unselected in Hb. now apply negb_true_iff in Hb.
Qed.

Section Cut.
Variable env : Env.

(** X23.  Cut with some block selected and some block not: the
    selected blocks leave the sequence, a new empty default block
    stands where the first of them stood, it is the current block with
    the caret at its start, the blocks that were not selected are
    untouched and keep their order, and no block is selected any
    more. *)
Theorem handleCommandX_replaces_selection (w : World) :
  wellFormed w ->
  BlockSelection.anyBlockSelected w = true ->
  existsb unselected (blocks w) = true ->
  let fresh := composeBlock (nextId w) (defaultTool env) "" in
  exists w' i,
    BlockEvents.handleCommandX env w = (Normal tt, w')
    /\ firstSelectedIndex (blocks w) = Some i
    /\ blocks w'
       = firstn i (blocks w) ++ fresh
           :: filter unselected (skipn i (blocks w))
    /\ currentBlock w' = Some fresh
    /\ caret w' = Some (nextId w, 0, 0)%nat
    /\ BlockSelection.anyBlockSelected w' = false
    /\ newCalls w w'
       = [BlockSelection_copySelectedBlocks;
          BlockManager_removeSelectedBlocks;
          BlockManager_insertDefaultBlockAtIndex (Z.of_nat i) true;
          Caret_setToBlock (nextId w) START;
          BlockSelection_clearSelection].
Proof.
  intros Hwf Hany _ fresh.
  pose proof (wellFormed_fresh w Hwf) as Hfresh.
  unfold BlockSelection.anyBlockSelected in Hany.
  destruct (firstSelectedIndex_some _ Hany) as (i & Hi).
  destruct (firstSelectedIndex_split _ _ Hi) as (Hlen & Hpre & Hsplit).
  set (pre := firstn i (blocks w)) in *.
  set (post := filter unselected (skipn i (blocks w))) in *.
  assert (Hnpre : ~ In (nextId w) (map bid pre)).
  { intros Hin. apply Hfresh. apply in_map_iff in Hin as (b & Hb & Hin).
    apply in_map_iff. exists b. split; [assumption|].
    subst pre. rewrite <- (firstn_skipn i (blocks w)).
    apply in_or_app. now left. }
  assert (Hnpost : ~ In (nextId w) (map bid post)).
  { intros Hin. apply Hfresh. apply in_map_iff in Hin as (b & Hb & Hin).
    apply in_map_iff. exists b. split; [assumption|].
    subst post. apply filter_In in Hin as [Hin _].
    rewrite <- (firstn_skipn i (blocks w)). apply in_or_app. now right. }
  assert (Hno : forall l, Forall (fun b => selected b = false) l ->
                          existsb selected l = false).
  { induction 1 as [|b r Hb _ IH]; [reflexivity|].
    cbn. now rewrite Hb, IH. }
  runH. unfold BlockSelection.anyBlockSelected. rewrite Hany. do 2 runH.
  rewrite Hi. runH.
  set (w2 := insert_w (defaultTool env) "" (Z.of_nat i) true
               (log (BlockManager_insertDefaultBlockAtIndex (Z.of_nat i)
                       true)
                  (set_blocks (filter (fun b => negb (selected b)))
                     (log BlockManager_removeSelectedBlocks
                        (log BlockSelection_copySelectedBlocks w))))).
  assert (Hb2 : blocks w2 = pre ++ fresh :: post).
  { subst w2. unfold insert_w. projW.
    change (fun b : Block => negb (selected b)) with unselected.
    rewrite Hsplit, Nat2Z.id. rewrite <- Hlen at 1.
    apply insertAt_middle. }
  assert (Ht2 : trace w2
                = trace w ++ [BlockSelection_copySelectedBlocks;
                              BlockManager_removeSelectedBlocks;
                              BlockManager_insertDefaultBlockAtIndex
                                (Z.of_nat i) true]).
  { subst w2. unfold insert_w. projW. rewrite <- !app_assoc.
    reflexivity. }
  cbn [bid composeBlock].
  rewrite (setToBlock_w_found _ _ _ fresh).
  2:{ projW. rewrite Hb2. now apply findBlock_middle. }
  eexists. exists i. split; [reflexivity|]. split; [reflexivity|].
  unfold currentBlock, BlockSelection.anyBlockSelected.
  projW. rewrite Hb2.
  rewrite (updateBlock_middle (nextId w) _ pre post fresh Hnpre Hnpost
             eq_refl).
  unfold indexZ.
  rewrite (indexOf_middle (nextId w) pre post fresh Hnpre eq_refl).
  rewrite map_app. cbn [map].
  rewrite (clearSelection_unselected pre Hpre).
  rewrite (clearSelection_unselected post (filter_unselected_all _)).
  split; [reflexivity|].
  split.
  { apply nthZ_middle. }
  split; [reflexivity|].
  split.
  { rewrite existsb_app. cbn [existsb].
    rewrite (Hno pre Hpre), (Hno post (filter_unselected_all _)).
    reflexivity. }
  apply newCalls_app. projW. rewrite Ht2, <- !app_assoc. reflexivity.
Qed.
End Cut.

(** ** Left and Up *)

Lemma setToBlock_w_overlays (b : BlockId) (p : Position) (w : World) :
  UI.someToolbarOpened (Caret.setToBlock_w b p w) = UI.someToolbarOpened w.
Proof.
  unfold Caret.setToBlock_w. destruct (findBlock b (blocks w)); reflexivity.
Qed.

Lemma navigatePrevious_w_overlays (f : bool) (w : World) :
  UI.someToolbarOpened (snd (Caret.navigatePrevious_w f w))
  = UI.someToolbarOpened w.
Proof.
  unfold Caret.navigatePrevious_w.
  destruct (currentBlock w) as [cb|]; [|reflexivity].
  destruct (f || _); [|reflexivity].
  destruct (match currentInput cb with Some (S i) => _ | _ => _ end);
    [reflexivity|].
  destruct (previousBlock w); [|reflexivity].
  apply setToBlock_w_overlays.
Qed.

Lemma navigateNext_w_overlays (f : bool) (w : World) :
  UI.someToolbarOpened (snd (Caret.navigateNext_w f w))
  = UI.someToolbarOpened w.
Proof.
  unfold Caret.navigateNext_w.
  destruct (currentBlock w) as [cb|]; [|reflexivity].
  destruct (f || _); [|reflexivity].
  destruct (match currentInput cb with Some _ => _ | None => _ end);
    [reflexivity|].
  destruct (nextBlock w); [|reflexivity].
  apply setToBlock_w_overlays.
Qed.

Lemma overlaysClosed_fields (w : World) :
  blocks (overlaysClosed w) = blocks w
  /\ currentBlockIndex (overlaysClosed w) = currentBlockIndex w
  /\ caret (overlaysClosed w) = caret w
  /\ toolbarOpened (overlaysClosed w) = false
  /\ UI.someToolbarOpened (overlaysClosed w) = false
  /\ trace (overlaysClosed w)
     = trace w
       ++ (if UI.someToolbarOpened w then [UI_closeAllToolbars] else [])
       ++ [Toolbar_close].
Proof.
  unfold overlaysClosed, toolbarClosed.
  destruct (UI.someToolbarOpened w) eqn:E; projW;
    rewrite <- ?app_assoc; repeat split.
  exact E.
Qed.

Lemma closing_prefix (w : World) (rest : M World unit) :
  bind (if UI.someToolbarOpened w then UI.closeAllToolbars else ret tt)
    (fun _ => bind Toolbar.close (fun _ => rest)) w
  = rest (overlaysClosed w).
Proof.
  unfold overlaysClosed, toolbarClosed.
  destruct (UI.someToolbarOpened w); reflexivity.
Qed.

Section LeftAndUp.
Variable env : Env.

Lemma arrowLeftAndUp_run (event : KeyboardEvent) (w : World) :
  flipperOwnsKey env event w = false ->
  shiftKey event && (keyCode event =? keyCodes.UP)%Z
  && (caretAtStartOfCurrentInput w || BlockSelection.anyBlockSelected w)
  = false ->
  BlockEvents.arrowLeftAndUp env event w
  = let r := backwardNavigation env event w in
    if fst r then (Normal tt, log Event_preventDefault (snd r))
    else (Normal tt,
          set_blocks (map (set_selected false))
            (log BlockSelection_clearSelection
               (log delay_updateCurrentInput (snd r)))).
Proof.
  intros Hflip Hcbs.
  unfold flipperOwnsKey in Hflip.
  unfold caretAtStartOfCurrentInput, BlockSelection.anyBlockSelected,
    currentBlock in Hcbs.
  destruct (overlaysClosed_fields w) as (Ob & Oi & Oc & _ & _ & _).
  assert (Hsame :
            (match currentBlock (overlaysClosed w) with
             | Some cb =>
                 if BlockEvents.defined (currentInput cb)
                 then caretUtils.isCaretAtStartOfInput (overlaysClosed w)
                        cb (currentInput cb)
                 else false
             | None => false
             end || BlockSelection.anyBlockSelected (overlaysClosed w))
            = (match nthZ (blocks w) (currentBlockIndex w) with
               | Some cb =>
                   caretUtils.isCaretAtStartOfInput w cb (currentInput cb)
               | None => false
               end || existsb selected (blocks w))).
  { unfold currentBlock, BlockSelection.anyBlockSelected.
    rewrite Ob, Oi. f_equal.
    destruct (nthZ (blocks w) (currentBlockIndex w)) as [cb|];
      [|reflexivity].
    unfold caretUtils.isCaretAtStartOfInput. rewrite Oc.
    destruct (currentInput cb); reflexivity. }
  unfold BlockEvents.arrowLeftAndUp.
  unfold bind at 1. unfold gets at 1. rewrite Hflip. cbv iota.
  rewrite closing_prefix.
  unfold bind at 1. unfold gets at 1.
  unfold bind at 1. unfold gets at 1.
  unfold bind at 1. unfold gets at 1.
  rewrite Hsame, Hcbs.
  unfold backwardNavigation.
  destruct ((keyCode event =? keyCodes.UP)%Z
            || ((keyCode event =? keyCodes.LEFT)%Z && negb (isRtl env))).
  - unfold Caret.navigatePrevious, bind, call, modify. cbv zeta.
    destruct (Caret.navigatePrevious_w false
                (log (Caret_navigatePrevious false) (overlaysClosed w)))
      as [[|] w1]; reflexivity.
  - unfold Caret.navigateNext, bind, call, modify. cbv zeta.
    destruct (Caret.navigateNext_w false
                (log (Caret_navigateNext false) (overlaysClosed w)))
      as [[|] w1]; reflexivity.
Qed.

Lemma backwardNavigation_fields (event : KeyboardEvent) (w : World) :
  toolbarOpened (snd (backwardNavigation env event w)) = false
  /\ UI.someToolbarOpened (snd (backwardNavigation env event w)) = false
  /\ trace (snd (backwardNavigation env event w))
     = trace w
       ++ (if UI.someToolbarOpened w then [UI_closeAllToolbars] else [])
       ++ [Toolbar_close; backwardCall env event].
Proof.
  destruct (overlaysClosed_fields w) as (_ & _ & _ & Oto & Oso & Otr).
  unfold backwardNavigation, backwardCall.
  destruct ((keyCode event =? keyCodes.UP)%Z
            || ((keyCode event =? keyCodes.LEFT)%Z && negb (isRtl env))).
  - rewrite navigatePrevious_w_toolbarOpened,
      navigatePrevious_w_overlays, navigatePrevious_w_trace.
    split; [exact Oto|]. split; [exact Oso|].
    projW. rewrite Otr, <- !app_assoc. reflexivity.
  - rewrite navigateNext_w_toolbarOpened,
      navigateNext_w_overlays, navigateNext_w_trace.
    split; [exact Oto|]. split; [exact Oso|].
    projW. rewrite Otr, <- !app_assoc. reflexivity.
Qed.

(** X24.  A Left or Up key that neither belongs to an open toolbar's
    flipper nor extends the block selection: every open overlay and the
    toolbar are closed and the caret service is called to navigate
    (backwards, or forwards for Left in a right-to-left layout), and the
    handler leaves the world the service has navigated.  When the
    service answers that it moved, the only further call is
    preventDefault; when it did not, the resync of the focused input is
    scheduled and the block selection is cleared, so that no block is
    selected any more.  No overlay is open on return. *)
Theorem arrow_backward_navigates (event : KeyboardEvent) (w : World) :
  flipperOwnsKey env event w = false ->
  shiftKey event && (keyCode event =? keyCodes.UP)%Z
  && (caretAtStartOfCurrentInput w || BlockSelection.anyBlockSelected w)
  = false ->
  exists w',
    BlockEvents.arrowLeftAndUp env event w = (Normal tt, w')
    /\ w' = (if fst (backwardNavigation env event w)
             then log Event_preventDefault
                    (snd (backwardNavigation env event w))
             else set_blocks (map (set_selected false))
                    (log BlockSelection_clearSelection
                       (log delay_updateCurrentInput
                          (snd (backwardNavigation env event w)))))
    /\ newCalls w w'
       = (if UI.someToolbarOpened w then [UI_closeAllToolbars] else [])
         ++ Toolbar_close :: backwardCall env event
         :: (if fst (backwardNavigation env event w)
             then [Event_preventDefault]
             else [delay_updateCurrentInput; BlockSelection_clearSelection])
    /\ toolbarOpened w' = false
    /\ UI.someToolbarOpened w' = false
    /\ (fst (backwardNavigation env event w) = false ->
        BlockSelection.anyBlockSelected w' = false).
Proof.
  intros Hflip Hcbs.
  rewrite (arrowLeftAndUp_run event w Hflip Hcbs). cbv zeta.
  destruct (backwardNavigation_fields event w) as (Hto & Hso & Htr).
  destruct (backwardNavigation env event w) as [moved w1].
  cbn [fst snd] in *.
  destruct moved; (eexists; split; [reflexivity|]);
    (split; [reflexivity|]).
  - split; [apply newCalls_app; projW; rewrite Htr, <- !app_assoc;
            reflexivity|].
    split; [exact Hto|]. split; [exact Hso|discriminate].
  - split; [apply newCalls_app; projW; rewrite Htr, <- !app_assoc;
            reflexivity|].
    split; [exact Hto|]. split; [exact Hso|]. intros _.
    unfold BlockSelection.anyBlockSelected. projW.
    apply clearSelection_none.
Qed.
End LeftAndUp.

Lemma arrow_backward_navigates_witness :
  let event := Sample.pressed keyCodes.LEFT true in
  let w := set_toolboxOpened true
             (Sample.world Sample.twoBlocks 1 (Some (1, 0, 0)%nat)) in
  exists w',
    BlockEvents.arrowLeftAndUp Sample.env event w = (Normal tt, w')
    /\ w' = log Event_preventDefault
              (snd (backwardNavigation Sample.env event w))
    /\ newCalls w w'
       = [UI_closeAllToolbars; Toolbar_close; Caret_navigatePrevious false;
          Event_preventDefault]
    /\ toolbarOpened w' = false
    /\ UI.someToolbarOpened w' = false
    /\ (true = false -> BlockSelection.anyBlockSelected w' = false).
Proof.
  intros event w.
  apply (arrow_backward_navigates Sample.env event w); reflexivity.
Defined.

(** ** The properties above, on concrete input *)

Lemma delete_merges_or_moves_witness :
  exists w',
    BlockEvents.delete Sample.env (Sample.pressed keyCodes.DELETE false)
      (Sample.world Sample.twoBlocks 0 (Some (0, 0, 2)%nat))
    = (Normal tt, w')
    /\ blocks w' = [Sample.text 0 "abxyz"]
    /\ content (mergeWith (Sample.text 1 "xyz") (Sample.text 0 "ab"))
       = "abxyz"
    /\ S (List.length (blocks w')) = 2%nat
    /\ caret w' = Some (0, 0, 2)%nat
    /\ currentBlockIndex w' = 0%Z.
Proof.
  apply (delete_merges_or_moves Sample.env
           (Sample.pressed keyCodes.DELETE false)
           (Sample.world Sample.twoBlocks 0 (Some (0, 0, 2)%nat))
           [] [] (Sample.text 0 "ab") (Sample.text 1 "xyz") 0);
    try reflexivity.
  - apply (uniqueIds_NoDup []). reflexivity.
  - repeat split.
Defined.

Lemma delete_at_document_end_idempotent_witness :
  exists w',
    times 3 (BlockEvents.delete Sample.env
               (Sample.pressed keyCodes.DELETE false))
      (Sample.world Sample.twoBlocks 1 (Some (1, 0, 3)%nat))
    = (Normal tt, w')
    /\ blocks w' = Sample.twoBlocks
    /\ currentBlockIndex w' = 1%Z
    /\ caret w' = Some (1, 0, 3)%nat.
Proof.
  apply (delete_at_document_end_idempotent Sample.env
           (Sample.pressed keyCodes.DELETE false) 3
           (Sample.world Sample.twoBlocks 1 (Some (1, 0, 3)%nat))
           [Sample.text 0 "ab"] (Sample.text 1 "xyz") 0);
    try reflexivity.
  repeat split.
Defined.

Lemma delete_removes_empty_next_witness :
  exists w',
    BlockEvents.delete Sample.env (Sample.pressed keyCodes.DELETE false)
      (Sample.world [Sample.text 0 "ab"; Sample.text 1 ""] 0
         (Some (0, 0, 2)%nat))
    = (Normal tt, w')
    /\ blocks w' = [Sample.text 0 "ab"]
    /\ currentBlockIndex w' = 0%Z
    /\ caret w' = Some (0, 0, 2)%nat
    /\ newCalls
         (Sample.world [Sample.text 0 "ab"; Sample.text 1 ""] 0
            (Some (0, 0, 2)%nat)) w'
       = [Event_preventDefault; Toolbar_close; BlockManager_removeBlock 1].
Proof.
  apply (delete_removes_empty_next Sample.env
           (Sample.pressed keyCodes.DELETE false)
           (Sample.world [Sample.text 0 "ab"; Sample.text 1 ""] 0
              (Some (0, 0, 2)%nat))
           [] [] (Sample.text 0 "ab") (Sample.text 1 "") 0);
    try reflexivity.
  - apply (uniqueIds_NoDup []). reflexivity.
  - repeat split.
Defined.

Lemma delete_removes_empty_current_witness :
  exists w',
    BlockEvents.delete Sample.env (Sample.pressed keyCodes.DELETE false)
      (Sample.world [Sample.text 0 ""; Sample.text 1 "xyz"] 0
         (Some (0, 0, 0)%nat))
    = (Normal tt, w')
    /\ blocks w' = [Sample.text 1 "xyz"]
    /\ currentBlockIndex w' = 0%Z
    /\ caret w' = Some (1, 0, 0)%nat
    /\ newCalls
         (Sample.world [Sample.text 0 ""; Sample.text 1 "xyz"] 0
            (Some (0, 0, 0)%nat)) w'
       = [Event_preventDefault; Toolbar_close; BlockManager_removeBlock 0;
          Caret_setToBlock 1 START].
Proof.
  apply (delete_removes_empty_current Sample.env
           (Sample.pressed keyCodes.DELETE false)
           (Sample.world [Sample.text 0 ""; Sample.text 1 "xyz"] 0
              (Some (0, 0, 0)%nat))
           [] [] (Sample.text 0 "") (Sample.text 1 "xyz") 0);
    try reflexivity.
  - apply (uniqueIds_NoDup []). reflexivity.
  - repeat split.
Defined.

Lemma backspace_removes_empty_previous_witness :
  exists w',
    BlockEvents.backspace Sample.env
      (Sample.pressed keyCodes.BACKSPACE false)
      (Sample.world [Sample.text 0 ""; Sample.text 1 "xyz"] 1
         (Some (1, 0, 0)%nat))
    = (Normal tt, w')
    /\ blocks w' = [Sample.text 1 "xyz"]
    /\ currentBlock w' = Some (Sample.text 1 "xyz")
    /\ caret w' = Some (1, 0, 0)%nat
    /\ newCalls
         (Sample.world [Sample.text 0 ""; Sample.text 1 "xyz"] 1
            (Some (1, 0, 0)%nat)) w'
       = [Event_preventDefault; Toolbar_close; BlockManager_removeBlock 0].
Proof.
  apply (backspace_removes_empty_previous Sample.env
           (Sample.pressed keyCodes.BACKSPACE false)
           (Sample.world [Sample.text 0 ""; Sample.text 1 "xyz"] 1
              (Some (1, 0, 0)%nat))
           [] [] (Sample.text 0 "") (Sample.text 1 "xyz"));
    try reflexivity.
  - apply (uniqueIds_NoDup []). reflexivity.
  - repeat split.
Defined.

Lemma backspace_removes_empty_current_witness :
  exists w',
    BlockEvents.backspace Sample.env
      (Sample.pressed keyCodes.BACKSPACE false)
      (Sample.world [Sample.text 0 "ab"; Sample.text 1 ""] 1
         (Some (1, 0, 0)%nat))
    = (Normal tt, w')
    /\ blocks w' = [Sample.text 0 "ab"]
    /\ currentBlockIndex w' = 0%Z
    /\ caret w' = Some (0, 0, 2)%nat
    /\ newCalls
         (Sample.world [Sample.text 0 "ab"; Sample.text 1 ""] 1
            (Some (1, 0, 0)%nat)) w'
       = [Event_preventDefault; Toolbar_close; BlockManager_removeBlock 1;
          Caret_setToBlock 0 END].
Proof.
  apply (backspace_removes_empty_current Sample.env
           (Sample.pressed keyCodes.BACKSPACE false)
           (Sample.world [Sample.text 0 "ab"; Sample.text 1 ""] 1
              (Some (1, 0, 0)%nat))
           [] [] (Sample.text 0 "ab") (Sample.text 1 ""));
    try reflexivity.
  - apply (uniqueIds_NoDup []). reflexivity.
  - repeat split.
Defined.

Lemma backspace_goes_to_previous_input_witness :
  exists w',
    BlockEvents.backspace Sample.env
      (Sample.pressed keyCodes.BACKSPACE false)
      (Sample.world [Sample.captioned 0 "ab" "cd"] 0 (Some (0, 1, 0)%nat))
    = (Normal tt, w')
    /\ caret w' = Some (0, 0, 2)%nat
    /\ map inputs (blocks w') = [["ab"; "cd"]]
    /\ currentBlockIndex w' = 0%Z
    /\ newCalls
         (Sample.world [Sample.captioned 0 "ab" "cd"] 0
            (Some (0, 1, 0)%nat)) w'
       = [Event_preventDefault; Toolbar_close; Caret_navigatePrevious false].
Proof.
  apply (backspace_goes_to_previous_input Sample.env
           (Sample.pressed keyCodes.BACKSPACE false)
           (Sample.world [Sample.captioned 0 "ab" "cd"] 0
              (Some (0, 1, 0)%nat))
           (Sample.captioned 0 "ab" "cd") 0); reflexivity.
Defined.

Lemma delete_goes_to_next_input_witness :
  let q := mkBlock 0 Sample.quote ["ab"; "cd"] (Some 0%nat)
             false false false in
  exists w',
    BlockEvents.delete Sample.env (Sample.pressed keyCodes.DELETE false)
      (Sample.world [q] 0 (Some (0, 0, 2)%nat))
    = (Normal tt, w')
    /\ caret w' = Some (0, 1, 0)%nat
    /\ map inputs (blocks w') = [["ab"; "cd"]]
    /\ currentBlockIndex w' = 0%Z
    /\ newCalls (Sample.world [q] 0 (Some (0, 0, 2)%nat)) w'
       = [Event_preventDefault; Toolbar_close; Caret_navigateNext false].
Proof.
  intros q.
  apply (delete_goes_to_next_input Sample.env
           (Sample.pressed keyCodes.DELETE false)
           (Sample.world [q] 0 (Some (0, 0, 2)%nat)) q 0);
    try reflexivity.
  cbn. lia.
Defined.

Lemma shift_up_extends_selection_witness :
  exists w',
    BlockEvents.arrowLeftAndUp Sample.env (Sample.pressed keyCodes.UP true)
      (Sample.world Sample.twoBlocks 1 (Some (1, 0, 0)%nat))
    = (Normal tt, w')
    /\ newCalls (Sample.world Sample.twoBlocks 1 (Some (1, 0, 0)%nat)) w'
       = [Toolbar_close; CrossBlockSelection_toggleBlockSelectedState false]
    /\ existsb isCaretCall
         (newCalls (Sample.world Sample.twoBlocks 1 (Some (1, 0, 0)%nat)) w')
       = false
    /\ toolbarOpened w' = false
    /\ caret w' = Some (1, 0, 0)%nat
    /\ map inputs (blocks w') = map inputs Sample.twoBlocks
    /\ currentBlockIndex w' = 1%Z.
Proof.
  apply (shift_up_extends_selection Sample.env
           (Sample.pressed keyCodes.UP true)
           (Sample.world Sample.twoBlocks 1 (Some (1, 0, 0)%nat)));
    reflexivity.
Defined.

Lemma arrow_forward_navigates_witness :
  let event := Sample.pressed keyCodes.DOWN false in
  let w := Sample.world Sample.twoBlocks 0 (Some (0, 0, 2)%nat) in
  exists w',
    BlockEvents.arrowRightAndDown Sample.env event w = (Normal tt, w')
    /\ w' = log Event_preventDefault
              (snd (forwardNavigation Sample.env event w))
    /\ newCalls w w'
       = [Toolbar_close; Caret_navigateNext false; Event_preventDefault]
    /\ toolbarOpened w' = false
    /\ (true = false -> BlockSelection.anyBlockSelected w' = false).
Proof.
  intros event w.
  apply (arrow_forward_navigates Sample.env event w); reflexivity.
Defined.


Lemma keydown_returns_unless_delete_or_slash_witness :
  exists w',
    BlockEvents.keydown Sample.env (Sample.pressed keyCodes.BACKSPACE false)
      (Sample.world Sample.twoBlocks (-1) None)
    = (Normal tt, w').
Proof.
  apply (keydown_returns_unless_delete_or_slash Sample.env
           (Sample.pressed keyCodes.BACKSPACE false)
           (Sample.world Sample.twoBlocks (-1) None)).
  - discriminate.
  - reflexivity.
Defined.

Lemma slashPressed_opens_toolbox_witness :
  exists w',
    BlockEvents.slashPressed (mkKey 191 "/" "Slash" false false false false)
      (Sample.world [Sample.text 0 ""] 0 (Some (0, 0, 0)%nat))
    = (Normal tt, w')
    /\ blocks w' = [Sample.text 0 "/"]
    /\ caret w' = Some (0, 0, 1)%nat
    /\ toolbarOpened w' = true
    /\ toolboxOpened w' = true
    /\ newCalls (Sample.world [Sample.text 0 ""] 0 (Some (0, 0, 0)%nat)) w'
       = [Event_preventDefault; Caret_insertContentAtCaretPosition "/";
          Toolbar_moveAndOpen None; Toolbox_open].
Proof.
  apply (slashPressed_opens_toolbox
           (mkKey 191 "/" "Slash" false false false false)
           (Sample.world [Sample.text 0 ""] 0 (Some (0, 0, 0)%nat))
           [] [] (Sample.text 0 "") 0); try reflexivity.
  apply (uniqueIds_NoDup []). reflexivity.
Defined.

Lemma dragOver_dragLeave_round_trip_witness :
  exists w1 w2,
    BlockEvents.dragOver (mkDrag (ChildOf 1) "")
      (Sample.world Sample.twoBlocks 0 None) = (Normal tt, w1)
    /\ blocks w1
       = [Sample.text 0 "ab"; set_dropTarget true (Sample.text 1 "xyz")]
    /\ BlockEvents.dragLeave (mkDrag (ChildOf 1) "") w1 = (Normal tt, w2)
    /\ blocks w2 = Sample.twoBlocks
    /\ trace w2 = []
    /\ (false = false -> w2 = Sample.world Sample.twoBlocks 0 None).
Proof.
  apply (dragOver_dragLeave_round_trip (mkDrag (ChildOf 1) "")
           (Sample.world Sample.twoBlocks 0 None)
           [Sample.text 0 "ab"] [] (Sample.text 1 "xyz"));
    try reflexivity.
  apply (uniqueIds_NoDup []). reflexivity.
Defined.

Lemma internal_drag_deletes_selection_witness :
  let s := (DragNDrop.mkSelf false,
            mkWorld Sample.twoBlocks 0 100 (Some (0, 0, 0)%nat) false true
              false false false false false []) in
  flag (DragSession.step DragSession.DragStarted s) = true
  /\ DragSession.deletesSelection (mkDrag (ChildOf 1) "payload")
       (DragSession.step DragSession.DragStarted s) = true.
Proof.
  intros s.
  apply (internal_drag_deletes_selection (mkDrag (ChildOf 1) "payload") s).
  reflexivity.
Defined.

Lemma handleCommandX_replaces_selection_witness :
  let chosen := set_selected true (Sample.text 1 "xyz") in
  let w := Sample.world [Sample.text 0 "ab"; chosen; Sample.text 2 "c"] 1
             None in
  exists w' i,
    BlockEvents.handleCommandX Sample.env w = (Normal tt, w')
    /\ firstSelectedIndex (blocks w) = Some i
    /\ blocks w'
       = [Sample.text 0 "ab"; Sample.text 100 ""; Sample.text 2 "c"]
    /\ currentBlock w' = Some (Sample.text 100 "")
    /\ caret w' = Some (100, 0, 0)%nat
    /\ BlockSelection.anyBlockSelected w' = false
    /\ newCalls w w'
       = [BlockSelection_copySelectedBlocks;
          BlockManager_removeSelectedBlocks;
          BlockManager_insertDefaultBlockAtIndex (Z.of_nat i) true;
          Caret_setToBlock 100 START; BlockSelection_clearSelection].
Proof.
  intros chosen w.
  destruct (handleCommandX_replaces_selection Sample.env w)
    as (w' & i & H).
  - split; [apply (uniqueIds_NoDup []); reflexivity|].
    repeat constructor.
  - reflexivity.
  - reflexivity.
  - exists w', i.
    destruct H as (H1 & H2 & H3 & H4 & H5 & H6 & H7).
    assert (i = 1%nat) by (cbn in H2; congruence). subst i.
    repeat split; assumption.
Defined.
